(** * A shallow embedding of the [version] repository engine

    The development follows [src/refs.js] and [src/version/index.js].
    JavaScript strings are Rocq strings, the files below the version
    directory are a finite map from path to content, and the commands run
    in a small state-and-exception monad that also records every write. *)

From Stdlib Require Import Ascii String List Bool Arith Lia.
From stdpp Require Import base option list strings gmap fin_maps pretty.


(** ** Regular expressions

    [String.prototype.match] is given a string, which JavaScript compiles
    into a regular expression.  The patterns of [refs.js] only use literal
    characters, character classes, [.], [+] and the anchors, so they are
    written here as terms of [re] and decided by Brzozowski derivatives. *)
Module Regex.

Inductive re : Type :=
  | Void : re
  | Eps : re
  | Cls : (ascii -> bool) -> re
  | Cat : re -> re -> re
  | Alt : re -> re -> re
  | Star : re -> re.

Definition Chr (c : ascii) : re := Cls (Ascii.eqb c).
Definition Plus (r : re) : re := Cat r (Star r).

Fixpoint lit (s : string) : re :=
  match s with
  | EmptyString => Eps
  | String c s' => Cat (Chr c) (lit s')
  end.

Inductive matches : re -> string -> Prop :=
  | MEps : matches Eps ""
  | MCls p c : p c = true -> matches (Cls p) (String c "")
  | MCat r1 r2 s1 s2 :
      matches r1 s1 -> matches r2 s2 -> matches (Cat r1 r2) (s1 +:+ s2)
  | MAltL r1 r2 s : matches r1 s -> matches (Alt r1 r2) s
  | MAltR r1 r2 s : matches r2 s -> matches (Alt r1 r2) s
  | MStar0 r : matches (Star r) ""
  | MStarS r s1 s2 :
      matches r s1 -> matches (Star r) s2 -> matches (Star r) (s1 +:+ s2).

Fixpoint nullable (r : re) : bool :=
  match r with
  | Void => false
  | Eps => true
  | Cls _ => false
  | Cat r1 r2 => nullable r1 && nullable r2
  | Alt r1 r2 => nullable r1 || nullable r2
  | Star _ => true
  end.

Fixpoint deriv (c : ascii) (r : re) : re :=
  match r with
  | Void => Void
  | Eps => Void
  | Cls p => if p c then Eps else Void
  | Cat r1 r2 =>
      if nullable r1
      then Alt (Cat (deriv c r1) r2) (deriv c r2)
      else Cat (deriv c r1) r2
  | Alt r1 r2 => Alt (deriv c r1) (deriv c r2)
  | Star r1 => Cat (deriv c r1) (Star r1)
  end.

Fixpoint re_match (r : re) (s : string) : bool :=
  match s with
  | EmptyString => nullable r
  | String c s' => re_match (deriv c r) s'
  end.

End Regex.

(** ** JavaScript values, exceptions and the command monad *)

(** The line feed, which Rocq string literals cannot escape. *)
Definition LF : string := String (ascii_of_nat 10) "".

(** An [undefined] spliced into a string by [+] reads "undefined". *)
Definition js_show (v : option string) : string := default "undefined" v.

(** What a command can throw: the [TypeError] of a property read on
    [null] or [undefined], [new Error(msg)], and the system error of
    [fs.unlinkSync] on a missing file. *)
Inductive error : Type :=
  | TypeError : error
  | Error : string -> error
  | ENOENT : string -> error.

Inductive result (A : Type) : Type :=
  | Ret : A -> result A
  | Throw : error -> result A.
Arguments Ret {A} _.
Arguments Throw {A} _.

#[global] Instance result_ret : MRet result := @Ret.
#[global] Instance result_bind : MBind result := fun A B f m =>
  match m with
  | Ret a => f a
  | Throw e => Throw e
  end.

(** A command transforms a state [W]; it returns or throws, and it logs an
    entry of type [L] for every write it performs, oldest first.  A thrown
    exception keeps the state reached so far. *)
Definition M (W L A : Type) : Type := W -> result A * W * list L.

#[global] Instance M_ret {W L} : MRet (M W L) := fun A a w => (Ret a, w, []).
#[global] Instance M_bind {W L} : MBind (M W L) := fun A B f m w =>
  match m w with
  | (Ret a, w1, l1) =>
      match f a w1 with
      | (r, w2, l2) => (r, w2, l1 ++ l2)
      end
  | (Throw e, w1, l1) => (Throw e, w1, l1)
  end.

Definition throw {W L A} (e : error) : M W L A := fun w => (Throw e, w, []).

(** A read of the state that may throw. *)
Definition reading {W L A} (f : W -> result A) : M W L A :=
  fun w => (f w, w, []).

(** A read of the state that cannot throw. *)
Definition gets {W L A} (f : W -> A) : M W L A := fun w => (Ret (f w), w, []).

(** [Array.prototype.forEach]. *)
Fixpoint forEach {W L A} (f : A -> M W L unit) (l : list A) : M W L unit :=
  match l with
  | [] => mret tt
  | x :: l' => f x ;; forEach f l'
  end.

Definition outcome {W L A} (r : result A * W * list L) : result A := r.1.1.
Definition final {W L A} (r : result A * W * list L) : W := r.1.2.
Definition writes {W L A} (r : result A * W * list L) : list L := r.2.

(** ** The repository *)

(** The three kinds of object of the store.  A tree entry is
    (kind, hash, name); a commit has the hash of its tree, the hashes of
    its parents and its message. *)
Inductive obj : Type :=
  | Blob (content : string)
  | Tree (entries : list (string * string * string))
  | Commit (tree : string) (parents : list string) (message : string).

(** What a path of the working copy holds. *)
Inductive node : Type :=
  | File (content : string)
  | Directory.

#[global] Instance node_eq_dec : EqDecision node.
Proof. solve_decision. Defined.

#[global] Instance obj_eq_dec : EqDecision obj.
Proof. solve_decision. Defined.

(** One repository as the commands see it from its root directory:
    - [inRepo]: what [files.inRepo()] answers;
    - [bare] and [remotes]: the [core.bare] flag and the url of each
      [remote.<name>] of the config file;
    - [vfiles]: the text files below the version directory ([HEAD],
      [FETCH_HEAD], [refs/heads/master], ...), by relative path;
    - [store]: the objects directory, one object per hash;
    - [idx]: the index, keyed by path and stage;
    - [disk]: the working copy. *)
Record repo : Type := mkRepo {
  inRepo : bool;
  bare : bool;
  remotes : gmap string string;
  vfiles : gmap string string;
  store : gmap string obj;
  idx : gmap (string * nat) string;
  disk : gmap string node
}.

Definition set_vfiles (f : gmap string string -> gmap string string) (s : repo) : repo :=
  mkRepo (inRepo s) (bare s) (remotes s) (f (vfiles s)) (store s) (idx s) (disk s).
Definition set_store (f : gmap string obj -> gmap string obj) (s : repo) : repo :=
  mkRepo (inRepo s) (bare s) (remotes s) (vfiles s) (f (store s)) (idx s) (disk s).
Definition set_idx (f : gmap (string * nat) string -> gmap (string * nat) string)
    (s : repo) : repo :=
  mkRepo (inRepo s) (bare s) (remotes s) (vfiles s) (store s) (f (idx s)) (disk s).

(** The writes a command performs on one repository. *)
Inductive event : Type :=
  | ObjectWrite (hash : string)
  | RefWrite (path : string)
  | Unlink (path : string)
  | IndexWrite.

(** A command of one repository logs each write with the state it leaves. *)
Abbreviation Cmd := (M repo (event * repo)).

Definition effect (e : event) (f : repo -> repo) : Cmd unit :=
  fun s => (Ret tt, f s, [(e, f s)]).

(** ** The collaborators that are outside [src/]

    [refs.js] and [version/index.js] call into the modules [objects],
    [index], [files], [config], [util], [merge] and [diff].  The parts of
    them that only pass values through are kept abstract here. *)
Class Env : Type := {
  (** the hash that [objects.write] files an object under *)
  hashOf : obj -> string;
  (** [objects.writeTree(files.nestFlatTree(toc))]: the trees written
      below the root, in order, and the root tree *)
  subTrees : gmap string string -> list obj;
  rootTree : gmap string string -> obj;
  (** [diff.changedFilesCommitWouldOverwrite(hash)] *)
  changedFilesCommitWouldOverwrite : repo -> string -> list string;
  (** [merge.writeFastForwardMerge(receiverHash, giverHash)] *)
  writeFastForwardMerge : option string -> string -> Cmd unit;
  (** [merge.writeNonFastForwardMerge(receiverHash, giverHash, giverRef)] *)
  writeNonFastForwardMerge : option string -> string -> string -> Cmd unit;
  (** [merge.hasConflicts(receiverHash, giverHash)] *)
  hasConflicts : repo -> option string -> string -> bool
}.

Module files.

(** Modelled from the spec: [files.assertInRepo] is outside [src/]; it
    raises the NotInRepo error when no repository is found. *)
Definition assertInRepo : Cmd unit :=
  fun s => if inRepo s then (Ret tt, s, []) else (Throw (Error "NotInRepo"), s, []).

End files.

Module config.

(** Modelled from the spec: [config.isBare] is outside [src/]; it reads
    [core.bare]. *)
Definition isBare (s : repo) : bool := bare s.

(** Modelled from the spec: [config.assertNotBare] is outside [src/]; it
    raises the BareDisallowed error in a bare repository. *)
Definition assertNotBare : Cmd unit :=
  fun s => if bare s then (Throw (Error "BareDisallowed"), s, []) else (Ret tt, s, []).

End config.

Module util.

(** [str.split(LF)]: the pieces between the line feeds. *)
Fixpoint split_lines (s : string) : list string :=
  match s with
  | EmptyString => [""]
  | String c s' =>
      if Ascii.eqb c (ascii_of_nat 10) then "" :: split_lines s'
      else match split_lines s' with
           | l :: ls => String c l :: ls
           | [] => [String c ""]
           end
  end.

(** Modelled from the spec: [util.lines] is outside [src/]; FETCH_HEAD is
    read one record per line, so the text is cut at line feeds and the
    empty pieces are dropped. *)
Definition lines (str : string) : list string :=
  filter (fun l => l <> "") (split_lines str).

End util.

Module objects.
Section objects.
Context `{Env}.

(** Modelled from the spec: the module [objects] is outside [src/].  The
    store is content addressed: [write] computes the hash of the object,
    stores the object under that key and returns the hash. *)
Definition write (o : obj) : Cmd string :=
  fun s =>
    let s' := set_store (insert (hashOf o) o) s in
    (Ret (hashOf o), s', [(ObjectWrite (hashOf o), s')]).

(** Modelled from the spec: [read(hash)] returns the object or indicates
    absence; no object is stored under [undefined]. *)
Definition read (s : repo) (hash : option string) : option obj :=
  h ← hash; store s !! h.

(** Modelled from the spec: [exists(hash)]. *)
Definition exists_ (s : repo) (hash : option string) : bool :=
  bool_decide (is_Some (read s hash)).

(** Modelled from the spec: [type(object)], one of blob, tree and commit;
    nothing for an absent object. *)
Definition type (o : option obj) : option string :=
  match o with
  | Some (Blob _) => Some "blob"
  | Some (Tree _) => Some "tree"
  | Some (Commit _ _ _) => Some "commit"
  | None => None
  end.

(** Modelled from the spec: every stored object. *)
Definition allObjects (s : repo) : list obj := (map_to_list (store s)).*2.

(** Modelled from the spec: the tree hash of a commit object. *)
Definition treeHash (o : option obj) : option string :=
  match o with
  | Some (Commit t _ _) => Some t
  | _ => None
  end.

(** Modelled from the spec: [write_commit(tree_hash, message, parents)]. *)
Definition writeCommit (treeHash : string) (message : option string)
    (parents : list (option string)) : Cmd string :=
  write (Commit treeHash (js_show <$> parents) (js_show message)).

(** Modelled from the spec: the parent hashes of a stored commit. *)
Definition parentHashes (s : repo) (hash : string) : list string :=
  match store s !! hash with
  | Some (Commit _ ps _) => ps
  | _ => []
  end.

(** Modelled from the spec: the parents and, through them, their
    ancestors, down to [n] links. *)
Fixpoint ancestors_upto (n : nat) (s : repo) (hash : string) : list string :=
  match n with
  | O => []
  | S n' =>
      let ps := parentHashes s hash in
      ps ++ mjoin (ancestors_upto n' s <$> ps)
  end.

(** Modelled from the spec: [ancestors] is the transitive closure of the
    parent links.  A chain of parents without a repetition is no longer
    than the store, which bounds the walk. *)
Definition ancestors (s : repo) (hash : string) : list string :=
  ancestors_upto (size (store s)) s hash.

(** Modelled from the spec: [is_ancestor(a, b)], [a] appears in
    [ancestors(b)]. *)
Definition isAncestor (s : repo) (a b : string) : bool :=
  bool_decide (a ∈ ancestors s b).

(** Modelled from the spec: true iff [receiver == giver] or
    [is_ancestor(giver, receiver)]; when the giver is none, also true. *)
Definition isUpToDate (s : repo) (receiverHash giverHash : option string) : bool :=
  match giverHash with
  | None => true
  | Some g =>
      bool_decide (receiverHash = Some g)
      || match receiverHash with
         | Some r => isAncestor s g r
         | None => false
         end
  end.

End objects.
End objects.

Module merge.
Section merge.
Context `{Env}.

(** Modelled from the spec: MERGE_HEAD is present iff a merge is in
    progress. *)
Definition isMergeInProgress (s : repo) : bool :=
  bool_decide (is_Some (vfiles s !! "MERGE_HEAD")).

(** Modelled from the spec: true iff the receiver is none or
    [is_ancestor(receiver, giver)]. *)
Definition canFastForward (s : repo) (receiverHash giverHash : option string) : bool :=
  match receiverHash, giverHash with
  | None, _ => true
  | Some r, Some g => objects.isAncestor s r g
  | Some _, None => false
  end.

(** Modelled from the spec: true iff [old] is defined and
    [is_ancestor(old, new)] is false. *)
Definition isAForceFetch (s : repo) (receiverHash giverHash : option string) : bool :=
  match receiverHash, giverHash with
  | None, _ => false
  | Some r, Some g => negb (objects.isAncestor s r g)
  | Some _, None => true
  end.

End merge.
End merge.

Module index.
Section index.
Context `{Env}.

(** Modelled from the spec: the module [index] is outside [src/];
    [has_file(path, stage)]. *)
Definition hasFile (s : repo) (path : string) (stage : nat) : bool :=
  bool_decide (is_Some (idx s !! (path, stage))).

(** Modelled from the spec: [toc()], the stage 0 entries, path to blob
    hash. *)
Definition toc (s : repo) : gmap string string :=
  list_to_map
    (omap (fun '(k, h) => if decide (k.2 = 0) then Some (k.1, h) else None)
       (map_to_list (idx s))).

(** Modelled from the spec: a path is conflicted iff one of the stages 1
    to 3 is present. *)
Definition isFileInConflict (s : repo) (path : string) : bool :=
  hasFile s path 1 || hasFile s path 2 || hasFile s path 3.

(** Modelled from the spec: [conflicted_paths()]. *)
Definition conflictedPaths (s : repo) : list string :=
  remove_dups
    (omap (fun '(k, _) => if decide (1 <= k.2 <= 3) then Some k.1 else None)
       (map_to_list (idx s))).

(** Modelled from the spec: [write_non_conflict(path, content)] ensures
    the blob is stored, writes stage 0 and clears the stages 1 to 3. *)
Definition writeNonConflict (path content : string) : Cmd unit :=
  h ← objects.write (Blob content);
  effect IndexWrite
    (set_idx (fun i =>
       <[(path, 0) := h]> (delete (path, 1) (delete (path, 2) (delete (path, 3) i))))).

(** Modelled from the spec: [write_rm(path)] removes every stage of the
    path. *)
Definition writeRm (path : string) : Cmd unit :=
  effect IndexWrite
    (set_idx (fun i =>
       delete (path, 0) (delete (path, 1) (delete (path, 2) (delete (path, 3) i))))).

End index.
End index.

(** ** [src/refs.js] *)
Module refs.
Section refs.
Context `{Env}.
Import Regex.

(** The class [[A-Za-z-]]. *)
Definition nameChar (c : ascii) : bool :=
  let n := nat_of_ascii c in
  ((65 <=? n) && (n <=? 90)) || ((97 <=? n) && (n <=? 122)) || (n =? 45).

(** What [.] matches: any character but a line terminator (line feed and
    carriage return, among the characters of one byte). *)
Definition dot (c : ascii) : bool :=
  let n := nat_of_ascii c in negb ((n =? 10) || (n =? 13)).

Definition anyChar (c : ascii) : bool := true.

(** The class [[^ ]]. *)
Definition notSpace (c : ascii) : bool := negb (Ascii.eqb c " ").

(** [^refs/heads/[A-Za-z-]+$] *)
Definition localRefPattern : re :=
  Cat (lit "refs/heads/") (Plus (Cls nameChar)).

(** [^refs/remotes/[A-Za-z-]+/[A-Za-z-]+$] *)
Definition remoteRefPattern : re :=
  Cat (lit "refs/remotes/")
    (Cat (Plus (Cls nameChar)) (Cat (lit "/") (Plus (Cls nameChar)))).

(** A pattern without anchors may match anywhere in the text. *)
Definition anywhere (r : re) : re :=
  Cat (Star (Cls anyChar)) (Cat r (Star (Cls anyChar))).

(** A pattern anchored at the start only. *)
Definition atStart (r : re) : re := Cat r (Star (Cls anyChar)).

(** [isRef()] returns true if [ref] matches valid qualified ref syntax. *)
Definition isRef (ref : string) : bool :=
  re_match localRefPattern ref
  || re_match remoteRefPattern ref
  || bool_decide (ref ∈ ["HEAD"; "FETCH_HEAD"; "MERGE_HEAD"]).

Fixpoint strip_prefix (p s : string) : option string :=
  match p, s with
  | EmptyString, _ => Some s
  | String a p', String b s' => if Ascii.eqb a b then strip_prefix p' s' else None
  | String _ _, EmptyString => None
  end.

Fixpoint take_while (f : ascii -> bool) (s : string) : string :=
  match s with
  | EmptyString => ""
  | String c s' => if f c then String c (take_while f s') else ""
  end.

(** The text captured by the group of [prefix(.+)] at the leftmost match
    in [s]: the longest run of [.] characters after the first occurrence of
    [prefix] that is followed by at least one such character. *)
Fixpoint group_after (prefix s : string) : option string :=
  let here :=
    match strip_prefix prefix s with
    | Some rest =>
        match take_while dot rest with
        | EmptyString => None
        | g => Some g
        end
    | None => None
    end in
  match here, s with
  | Some g, _ => Some g
  | None, String _ s' => group_after prefix s'
  | None, EmptyString => None
  end.

(** The group of [^([^ ]+) ]: the text before the first space, when it is
    not empty and the space is there. *)
Definition first_word (l : string) : option string :=
  let w := take_while notSpace l in
  match w, strip_prefix (w +:+ " ") l with
  | String _ _, Some _ => Some w
  | _, _ => None
  end.

(** [isHeadDetached()] returns true if HEAD contains a commit hash, rather
    than the ref of a branch. *)
Definition isHeadDetached (s : repo) : result bool :=
  match vfiles s !! "HEAD" with
  | None => Throw TypeError
  | Some content => Ret (negb (re_match (anywhere (lit "refs")) content))
  end.

(** [toLocalRef()] converts the branch name into a qualified local ref. *)
Definition toLocalRef (name : string) : string := "refs/heads/" +:+ name.

(** [toRemoteRef()] converts remote and branch name into a qualified
    remote branch ref. *)
Definition toRemoteRef (remote name : string) : string :=
  "refs/remotes/" +:+ remote +:+ "/" +:+ name.

(** [terminalRef()] resolves [ref] to the most specific ref possible. *)
Definition terminalRef (s : repo) (ref : string) : result string :=
  attached ← (if bool_decide (ref = "HEAD")
              then detached ← isHeadDetached s; Ret (negb detached)
              else Ret false);
  if attached : bool then
    match vfiles s !! "HEAD" with
    | None => Throw TypeError
    | Some content =>
        match group_after "ref: refs/heads/" content with
        | Some g => Ret ("refs/heads/" +:+ g)
        | None => Throw TypeError
        end
    end
  else if isRef ref then Ret ref
  else Ret (toLocalRef ref).

(** [headBranchName()] returns the name of the branch that HEAD is
    pointing at. *)
Definition headBranchName (s : repo) : result (option string) :=
  detached ← isHeadDetached s;
  if negb detached then
    match vfiles s !! "HEAD" with
    | None => Throw TypeError
    | Some content =>
        match group_after "refs/heads/" content with
        | Some g => Ret (Some g)
        | None => Throw TypeError
        end
    end
  else Ret None.

(** [^.+ branch <branchName> of], the name spliced in as it is.  A name
    made of the characters of [nameChar] (and the text "undefined") has no
    character that a pattern reads specially, so it stands for itself. *)
Definition fetchHeadPattern (branchName : option string) : re :=
  atStart (Cat (Plus (Cls dot)) (lit (" branch " +:+ js_show branchName +:+ " of"))).

(** [fetchHeadBranchToMerge()] reads the FETCH_HEAD file and gets the hash
    that the remote [branchName] is pointing at. *)
Definition fetchHeadBranchToMerge (s : repo) (branchName : option string)
    : result (option string) :=
  match vfiles s !! "FETCH_HEAD" with
  | None => Throw TypeError
  | Some content =>
      hashes ← mapM (fun l =>
                  match first_word l with
                  | Some w => Ret w
                  | None => Throw TypeError
                  end)
                (filter (fun l => re_match (fetchHeadPattern branchName) l = true)
                   (util.lines content));
      Ret (head hashes)
  end.

(** [exists()] returns true if the qualified ref [ref] exists. *)
Definition exists_ (s : repo) (ref : string) : bool :=
  isRef ref && bool_decide (is_Some (vfiles s !! ref)).

(** [hash()] returns the hash that [refOrHash] points to. *)
Definition hash (s : repo) (refOrHash : string) : result (option string) :=
  if objects.exists_ s (Some refOrHash) then Ret (Some refOrHash)
  else
    terminal ← terminalRef s refOrHash;
    if bool_decide (terminal = "FETCH_HEAD") then
      name ← headBranchName s;
      fetchHeadBranchToMerge s name
    else if exists_ s terminal then Ret (vfiles s !! terminal)
    else Ret None.

(** [isCheckedOut()] returns true if the repository is not bare and HEAD
    is pointing at the branch called [branch]. *)
Definition isCheckedOut (s : repo) (branch : string) : result bool :=
  if negb (config.isBare s) then
    name ← headBranchName s;
    Ret (bool_decide (name = Some branch))
  else Ret false.

(** [write()] sets the content of the file for the qualified ref [ref] to
    [content].  [nodePath.normalize] leaves a name of ref syntax as it
    is. *)
Definition write (ref content : string) : Cmd unit :=
  if isRef ref then effect (RefWrite ref) (set_vfiles (insert ref content))
  else mret tt.

(** [fs.unlinkSync] on a path below the version directory. *)
Definition unlinkSync (path : string) : Cmd unit :=
  fun s =>
    match vfiles s !! path with
    | Some _ => effect (Unlink path) (set_vfiles (delete path)) s
    | None => (Throw (ENOENT path), s, [])
    end.

(** [rm()] removes the file for the qualified ref [ref]. *)
Definition rm (ref : string) : Cmd unit :=
  if isRef ref then unlinkSync ref else mret tt.

(** [commitParentHashes()] returns the array of commits that would be the
    parents of the next commit. *)
Definition commitParentHashes (s : repo) : result (list (option string)) :=
  headHash ← hash s "HEAD";
  if merge.isMergeInProgress s then
    mergeHead ← hash s "MERGE_HEAD";
    Ret [headHash; mergeHead]
  else if bool_decide (headHash = None) then Ret []
  else Ret [headHash].

End refs.
End refs.

(** ** [src/version/index.js]: the commands on one repository *)
Module version.
Section version.
Context `{Env}.

Record commit_opts : Type := { m : option string }.
Record index_opts : Type := { add : bool; remove : bool }.
Record push_opts : Type := { f : bool }.

(** [update_ref()] gets the hash of the commit that [refToUpdateTo] points
    at and sets [refToUpdate] to point at the same hash. *)
Definition update_ref (refToUpdate refToUpdateTo : string) : Cmd unit :=
  files.assertInRepo;;
  hash ← reading (fun s => refs.hash s refToUpdateTo);
  found ← gets (fun s => objects.exists_ s hash);
  if negb found then
    throw (Error (refToUpdateTo +:+ " not a valid SHA1"))
  else if negb (refs.isRef refToUpdate) then
    throw (Error ("cannot lock the ref " +:+ refToUpdate))
  else
    kind ← gets (fun s => objects.type (objects.read s hash));
    if negb (bool_decide (kind = Some "commit")) then
      branch ← reading (fun s => refs.terminalRef s refToUpdate);
      throw (Error (branch +:+ " cannot refer to non-commit object "
                    +:+ js_show hash +:+ LF))
    else
      terminal ← reading (fun s => refs.terminalRef s refToUpdate);
      refs.write terminal (js_show hash).

(** [write_tree()] takes the content of the index and stores a tree object
    that represents that content to the objects directory. *)
Definition write_tree : Cmd string :=
  files.assertInRepo;;
  toc ← gets index.toc;
  forEach (fun t => objects.write t;; mret tt) (subTrees toc);;
  objects.write (rootTree toc).

(** [update_index()] adds the contents of the file at [path] to the index,
    or removes the file from the index. *)
Definition update_index (path : string) (opts : index_opts) : Cmd (option string) :=
  files.assertInRepo;;
  config.assertNotBare;;
  let pathFromRoot := path in
  onDisk ← gets (fun s => disk s !! path);
  let isOnDisk := bool_decide (is_Some onDisk) in
  isInIndex ← gets (fun s => index.hasFile s path 0);
  if isOnDisk && bool_decide (onDisk = Some Directory) then
    throw (Error (pathFromRoot +:+ " is a directory - add files inside" +:+ LF))
  else if remove opts && negb isOnDisk && isInIndex then
    inConflict ← gets (fun s => index.isFileInConflict s path);
    if inConflict : bool then throw (Error "unsupported")
    else index.writeRm path;; mret (Some LF)
  else if remove opts && negb isOnDisk && negb isInIndex then
    mret (Some LF)
  else if negb (add opts) && isOnDisk && negb isInIndex then
    throw (Error ("cannot add " +:+ pathFromRoot +:+ " to index - use --add option" +:+ LF))
  else if isOnDisk && (add opts || isInIndex) then
    match onDisk with
    | Some (File content) => index.writeNonConflict path content;; mret (Some LF)
    | _ => throw TypeError (* not reached: the path is on disk and no directory *)
    end
  else if negb (remove opts) && negb isOnDisk then
    throw (Error (pathFromRoot +:+ " does not exist and --remove not passed" +:+ LF))
  else mret None.

(** The [headDesc] of [commit()]: "detached HEAD" or the name of the
    branch HEAD points at. *)
Definition headDesc (s : repo) : result (option string) :=
  detached ← refs.isHeadDetached s;
  if detached : bool then Ret (Some "detached HEAD") else refs.headBranchName s.

(** [commit()] creates a commit object that represents the current state
    of the index, writes the commit to the objects directory and points
    HEAD at the commit. *)
Definition commit (opts : option commit_opts) : Cmd string :=
  files.assertInRepo;;
  config.assertNotBare;;
  treeHash ← write_tree;
  headDesc ← reading headDesc;
  headHash ← reading (fun s => refs.hash s "HEAD");
  headTree ← gets (fun s => objects.treeHash (objects.read s headHash));
  if negb (bool_decide (headHash = None)) && bool_decide (Some treeHash = headTree) then
    throw (Error ("# On " +:+ js_show headDesc +:+ LF
                  +:+ "nothing to commit, working directory clean"))
  else
    conflictedPaths ← gets index.conflictedPaths;
    merging ← gets merge.isMergeInProgress;
    if merging && negb (bool_decide (conflictedPaths = [])) then
      throw (Error (String.concat LF ((fun p => "U " +:+ p) <$> conflictedPaths)
                    +:+ LF +:+ "cannot commit because you have unmerged files" +:+ LF))
    else
      message ← (if merging : bool then gets (fun s => vfiles s !! "MERGE_MSG")
                 else match opts with
                      | Some o => mret (m o)
                      | None => throw TypeError
                      end);
      parents ← reading refs.commitParentHashes;
      commitHash ← objects.writeCommit treeHash message parents;
      update_ref "HEAD" commitHash;;
      stillMerging ← gets merge.isMergeInProgress;
      if stillMerging : bool then
        refs.unlinkSync "MERGE_MSG";;
        refs.rm "MERGE_HEAD";;
        mret "Merge made by the three-way strategy"
      else
        mret ("[" +:+ js_show headDesc +:+ " " +:+ commitHash +:+ "] "
              +:+ js_show message).

(** [merge()] finds the set of differences between the commit that the
    currently checked out branch is on and the commit that [ref] points
    to.  It finds or creates a commit that applies these differences to
    the checked out branch. *)
Definition merge (ref : string) : Cmd string :=
  files.assertInRepo;;
  config.assertNotBare;;
  receiverHash ← reading (fun s => refs.hash s "HEAD");
  giverHash ← reading (fun s => refs.hash s ref);
  detached ← reading refs.isHeadDetached;
  if detached : bool then throw (Error "unsupported")
  else
    giverKind ← gets (fun s => objects.type (objects.read s giverHash));
    match giverHash with
    | None => throw (Error (ref +:+ ": expected commit type"))
    | Some giver =>
        if negb (bool_decide (giverKind = Some "commit")) then
          throw (Error (ref +:+ ": expected commit type"))
        else
          upToDate ← gets (fun s => objects.isUpToDate s receiverHash giverHash);
          if upToDate : bool then mret "Already up-to-date"
          else
            paths ← gets (fun s => changedFilesCommitWouldOverwrite s giver);
            if negb (bool_decide (paths = [])) then
              throw (Error ("local changes would be lost" +:+ LF
                            +:+ String.concat LF paths +:+ LF))
            else
              canFF ← gets (fun s => merge.canFastForward s receiverHash giverHash);
              if canFF : bool then
                writeFastForwardMerge receiverHash giver;;
                mret "Fast-forward"
              else
                writeNonFastForwardMerge receiverHash giver ref;;
                conflicts ← gets (fun s => hasConflicts s receiverHash giver);
                if conflicts : bool then
                  mret "Automatic merge failed. Fix conflicts and commit the result."
                else commit None
    end.

End version.
End version.

(** ** [src/version/index.js]: the commands that reach a remote *)

(** The repository in which a command runs and the repository its remote
    url names. *)
Record world : Type := mkWorld { here : repo; there : repo }.

Inductive side : Type := Local | Remote.

(** A command on the pair logs each write with the side it happened on. *)
Abbreviation Sync := (M world (side * event * world)).

Definition onSide (d : side) (w : world) (s : repo) : world :=
  match d with
  | Local => mkWorld s (there w)
  | Remote => mkWorld (here w) s
  end.

Definition sideOf (d : side) (w : world) : repo :=
  match d with
  | Local => here w
  | Remote => there w
  end.

Definition run {A} (d : side) (c : Cmd A) : Sync A :=
  fun w =>
    match c (sideOf d w) with
    | (r, s', l) => (r, onSide d w s', (fun '(e, s) => (d, e, onSide d w s)) <$> l)
    end.

Module sync.
Section sync.
Context `{Env}.

(** A call in the repository the command was started in. *)
Definition local {A} (c : Cmd A) : Sync A := run Local c.

(** [util.onRemote(url)(fn, ...)]: the call [fn(...)] made in the
    repository at [url]. *)
Definition onRemote {A} (url : string) (c : Cmd A) : Sync A := run Remote c.

(** [fetch()] records the commit that [branch] is at on [remote].  It does
    not change the local branch. *)
Definition fetch (remoteName branchName : option string) : Sync string :=
  local files.assertInRepo;;
  match remoteName, branchName with
  | Some remote, Some branch =>
      known ← local (gets (fun s => remotes s !! remote));
      match known with
      | None => throw (Error (remote +:+ " does not appear to be a git repository"))
      | Some remoteUrl =>
          let remoteRef := refs.toRemoteRef remote branch in
          newHash ← onRemote remoteUrl (reading (fun s => refs.hash s branch));
          match newHash with
          | None => throw (Error ("couldn't find remote ref " +:+ branch))
          | Some new =>
              oldHash ← local (reading (fun s => refs.hash s remoteRef));
              remoteObjects ← onRemote remoteUrl (gets objects.allObjects);
              local (forEach (fun o => objects.write o;; mret tt) remoteObjects);;
              local (version.update_ref remoteRef new);;
              local (refs.write "FETCH_HEAD"
                       (new +:+ " branch " +:+ branch +:+ " of " +:+ remoteUrl));;
              forced ← local (gets (fun s => merge.isAForceFetch s oldHash newHash));
              mret (String.concat LF
                      ["From " +:+ remoteUrl;
                       "Count " +:+ pretty (length remoteObjects);
                       branch +:+ " -> " +:+ remote +:+ "/" +:+ branch
                         +:+ (if forced : bool then " (forced)" else "")]
                    +:+ LF)
          end
      end
  | _, _ => throw (Error "unsupported")
  end.

(** [push()] gets the commit that [branch] is on in the local repo and
    points [branch] on [remote] at the same commit. *)
Definition push (remoteName branchName : option string) (opts : version.push_opts)
    : Sync string :=
  local files.assertInRepo;;
  match remoteName, branchName with
  | Some remote, Some branch =>
      known ← local (gets (fun s => remotes s !! remote));
      match known with
      | None => throw (Error (remote +:+ " does not appear to be a git repository"))
      | Some remotePath =>
          let remoteCall := fun A => @onRemote A remotePath in
          checkedOut ← remoteCall _ (reading (fun s => refs.isCheckedOut s branch));
          if checkedOut : bool then
            throw (Error ("refusing to update checked out branch " +:+ branch))
          else
            receiverHash ← remoteCall _ (reading (fun s => refs.hash s branch));
            giverHash ← local (reading (fun s => refs.hash s branch));
            upToDate ← local (gets (fun s => objects.isUpToDate s receiverHash giverHash));
            if upToDate : bool then mret "Already up-to-date"
            else
              canFF ← local (gets (fun s => merge.canFastForward s receiverHash giverHash));
              if negb (version.f opts) && negb canFF then
                throw (Error ("failed to push some refs to " +:+ remotePath))
              else
                localObjects ← local (gets objects.allObjects);
                forEach (fun o => remoteCall _ (objects.write o);; mret tt) localObjects;;
                remoteCall _ (version.update_ref (refs.toLocalRef branch) (js_show giverHash));;
                local (version.update_ref (refs.toRemoteRef remote branch) (js_show giverHash));;
                count ← local (gets (fun s => length (objects.allObjects s)));
                mret (String.concat LF
                        ["To " +:+ remotePath;
                         "Count " +:+ pretty count;
                         branch +:+ " -> " +:+ branch]
                      +:+ LF)
      end
  | _, _ => throw (Error "unsupported")
  end.

End sync.
End sync.

(** ** The properties the theorems are stated with *)

Fixpoint all_chars (f : ascii -> bool) (s : string) : bool :=
  match s with
  | EmptyString => true
  | String c s' => f c && all_chars f s'
  end.

(** A name of the grammar [[A-Za-z-]+]. *)
Definition validName (n : string) : bool :=
  match n with
  | EmptyString => false
  | String _ _ => all_chars refs.nameChar n
  end.

(** A text without a space and without a line terminator. *)
Definition plain (s : string) : bool :=
  all_chars (fun c => refs.notSpace c && refs.dot c) s.

(** The names [refs.isRef] accepts, form by form. *)
Inductive RefForm : string -> Prop :=
  | RefHead : RefForm "HEAD"
  | RefFetchHead : RefForm "FETCH_HEAD"
  | RefMergeHead : RefForm "MERGE_HEAD"
  | RefLocal n : validName n = true -> RefForm ("refs/heads/" +:+ n)
  | RefRemote r n :
      validName r = true -> validName n = true ->
      RefForm ("refs/remotes/" +:+ r +:+ "/" +:+ n).

(** The ref forms as section 3 of the specification lists them: the forms
    above and the transient ref MERGE_MSG. *)
Inductive SpecRefForm : string -> Prop :=
  | SpecHead : SpecRefForm "HEAD"
  | SpecMergeHead : SpecRefForm "MERGE_HEAD"
  | SpecMergeMsg : SpecRefForm "MERGE_MSG"
  | SpecFetchHead : SpecRefForm "FETCH_HEAD"
  | SpecLocal n : validName n = true -> SpecRefForm ("refs/heads/" +:+ n)
  | SpecRemote r n :
      validName r = true -> validName n = true ->
      SpecRefForm ("refs/remotes/" +:+ r +:+ "/" +:+ n).

(** The error of a commit that would change nothing. *)
Definition NothingToCommit (e : error) : Prop :=
  exists headDesc,
    e = Error ("# On " +:+ headDesc +:+ LF
               +:+ "nothing to commit, working directory clean").

(** The store after the objects of a list were written, first to last. *)
Definition stored `{Env} (objs : list obj) (s : repo) : repo :=
  foldl (fun acc o => set_store (insert (hashOf o) o) acc) s objs.

(** The repository after [write_tree]. *)
Definition treeWritten `{Env} (s : repo) : repo :=
  set_store (insert (hashOf (rootTree (index.toc s))) (rootTree (index.toc s)))
    (stored (subTrees (index.toc s)) s).

Definition notNothingToCommit (e : error) : Prop := ~ NothingToCommit e.

Fixpoint last_char (s : string) : option ascii :=
  match s with
  | EmptyString => None
  | String c EmptyString => Some c
  | String _ s' => last_char s'
  end.

(** A command that throws throws an error of [P]. *)
Definition throws_only {W L A} (P : error -> Prop) (c : M W L A) : Prop :=
  forall w e, outcome (c w) = Throw e -> P e.

(** A command that returns returns a value of [Q]. *)
Definition returns_only {W L A} (Q : A -> Prop) (c : M W L A) : Prop :=
  forall w a, outcome (c w) = Ret a -> Q a.

(** The store is content addressed: every object is filed under its own
    hash. *)
Definition content_addressed `{Env} (s : repo) : Prop :=
  forall k o, store s !! k = Some o -> hashOf o = k.

(** ** The order of the writes *)

Definition isObjectWrite (e : event) : bool :=
  match e with
  | ObjectWrite _ => true
  | _ => false
  end.

(** No object is written after a write of another kind. *)
Fixpoint objects_first (l : list event) : bool :=
  match l with
  | [] => true
  | e :: l' =>
      if isObjectWrite e then objects_first l'
      else forallb (fun e' => negb (isObjectWrite e')) l'
  end.

(** The ref [ref] holds [hash] as a pointer to an object: a name of ref
    syntax, other than FETCH_HEAD (which holds a record) and than a HEAD
    that names a branch. *)
Definition pointsAt (s : repo) (ref hash : string) : Prop :=
  refs.isRef ref = true /\ ref <> "FETCH_HEAD"
  /\ (ref = "HEAD" -> refs.isHeadDetached s = Ret true)
  /\ vfiles s !! ref = Some hash.

(** No ref points at an object that the store does not have. *)
Definition sound (s : repo) : Prop :=
  forall ref hash, pointsAt s ref hash -> store s !! hash <> None.


(** The event and the state of a log entry. *)
Definition entryEvent {W} (x : event * W) : event := x.1.
Definition entryState {W} (x : event * W) : W := x.2.
Definition syncEvent (x : side * event * world) : event := x.1.2.
Definition syncSide (x : side * event * world) : side := x.1.1.
Definition syncState (x : side * event * world) : world := x.2.




(** Every write of the command is of [P]. *)
Definition writes_only {W L A} (P : L -> Prop) (c : M W L A) : Prop :=
  forall w, Forall P (writes (c w)).

(** The command keeps [I] at every state it writes and at the state it
    ends in. *)
Definition preserves {W L A} (I : W -> Prop) (st : L -> W) (c : M W L A) : Prop :=
  forall w, I w -> Forall (fun x => I (st x)) (writes (c w)) /\ I (final (c w)).

(** The two invariants, as checks that run on a given repository. *)
Definition content_addressedb `{Env} (s : repo) : bool :=
  forallb (fun '(k, o) => String.eqb (hashOf o) k) (map_to_list (store s)).

Definition soundb (s : repo) : bool :=
  forallb
    (fun '(ref, hash) =>
       negb (refs.isRef ref)
       || String.eqb ref "FETCH_HEAD"
       || (String.eqb ref "HEAD"
           && negb (match refs.isHeadDetached s with Ret true => true | _ => false end))
       || bool_decide (is_Some (store s !! hash)))
    (map_to_list (vfiles s)).

(** ** The commit graph *)

(** [Ancestor s a b]: the commit [a] is reached from [b] by following
    parent links, one or more. *)
Inductive Ancestor (s : repo) : string -> string -> Prop :=
  | AncParent a b : a ∈ objects.parentHashes s b -> Ancestor s a b
  | AncStep a c b :
      c ∈ objects.parentHashes s b -> Ancestor s a c -> Ancestor s a b.

(** [descent s b l]: the list [l] walks down from [b], each commit a
    parent of the one before. *)
Fixpoint descent (s : repo) (b : string) (l : list string) : Prop :=
  match l with
  | [] => True
  | c :: l' => c ∈ objects.parentHashes s b /\ descent s c l'
  end.

(** ** An instance for the examples

    The examples run the commands on concrete repositories.  They hash an
    object by a 32-bit polynomial checksum of its text, written in decimal,
    keep every path in one flat tree, and use a merge engine that never
    finds a changed file or a conflict. *)
Module example.

Definition serialize (o : obj) : string :=
  match o with
  | Blob c => c
  | Tree es =>
      String.concat "" ((fun '(k, h, n) => k +:+ " " +:+ h +:+ " " +:+ n +:+ LF) <$> es)
  | Commit t ps msg =>
      "commit " +:+ t +:+ LF
      +:+ String.concat "" ((fun p => "parent " +:+ p +:+ LF) <$> ps)
      +:+ LF +:+ "    " +:+ msg +:+ LF
  end.

Fixpoint checksum (acc : N) (s : string) : N :=
  match s with
  | EmptyString => acc
  | String c s' => checksum ((acc * 31 + N_of_ascii c) mod 4294967296)%N s'
  end.

Definition env : Env := {|
  hashOf o := pretty (checksum 0 (serialize o));
  subTrees _ := [];
  rootTree toc := Tree ((fun '(p, h) => ("blob", h, p)) <$> map_to_list toc);
  changedFilesCommitWouldOverwrite _ _ := [];
  writeFastForwardMerge _ _ := mret tt;
  writeNonFastForwardMerge _ _ _ := mret tt;
  hasConflicts _ _ _ := false
|}.
#[local] Existing Instance env.

(** A repository right after [init]. *)
Definition fresh (isBare : bool) : repo :=
  mkRepo true isBare ∅ {["HEAD" := "ref: refs/heads/master" +:+ LF]} ∅ ∅ ∅.

(** The file [a.txt] is written, added and committed as "c1". *)
Definition one_file : repo :=
  mkRepo true false ∅ {["HEAD" := "ref: refs/heads/master" +:+ LF]} ∅ ∅
    {["a.txt" := File ("1" +:+ LF)]}.

Definition added : repo :=
  final (version.update_index "a.txt" {| version.add := true; version.remove := false |}
           one_file).

Definition committed : repo :=
  final (version.commit (Some {| version.m := Some "c1" |}) added).

(** The repository [committed] with a second branch [feat] at the same
    commit, as [branch("feat")] leaves it. *)
Definition two_branches : repo :=
  final (version.update_ref "refs/heads/feat" "HEAD" committed).

(** An empty repository that knows [two_branches] as its remote
    [origin]. *)
Definition cloning : world :=
  mkWorld (mkRepo true false {["origin" := "../src"]}
             {["HEAD" := "ref: refs/heads/master" +:+ LF]} ∅ ∅ ∅)
          two_branches.

Definition fetched_master : world :=
  final (sync.fetch (Some "origin") (Some "master") cloning).

Definition fetched_feat : world :=
  final (sync.fetch (Some "origin") (Some "feat") fetched_master).

(** A repository with one commit and an empty bare remote [origin]. *)
Definition pushing : world :=
  mkWorld (mkRepo true false {["origin" := "../dst"]} (vfiles committed)
             (store committed) (idx committed) (disk committed))
          (fresh true).

(** A repository with the branch [topic], and a bare remote [origin] that
    keeps an object under the hash "topic". *)
Definition pushing_topic : world :=
  mkWorld (final (version.update_ref "refs/heads/topic" "HEAD" (here pushing)))
          (mkRepo true true ∅ {["HEAD" := "ref: refs/heads/master" +:+ LF]}
             {["topic" := Blob "x"]} ∅ ∅).

(** The pair [cloning] with a local object under the hash
    "refs/remotes/origin/master". *)
Definition cloning_odd : world :=
  mkWorld (set_store (insert "refs/remotes/origin/master" (Blob "x")) (here cloning))
          (there cloning).

(** A repository on the branch [of] whose remote [origin], at the url
    "ofrepo", has a branch called [branch]. *)
Definition on_branch_of : world :=
  mkWorld (mkRepo true false {["origin" := "ofrepo"]}
             {["HEAD" := "ref: refs/heads/of"]} ∅ ∅ ∅)
          (final (version.update_ref "refs/heads/branch" "HEAD" committed)).

Definition fetched_branch : world :=
  final (sync.fetch (Some "origin") (Some "branch") on_branch_of).

End example.


(** ** The rest of [src/refs.js] and of [src/version/index.js] *)

(** More collaborators that are outside [src/], kept abstract. *)
Class Helpers : Type := {
  (** [fs.readdirSync] on a directory below the version directory: the
      names of its entries, in the order of the directory; it throws when
      the directory is missing *)
  readdirSync : repo -> string -> result (list string);
  (** [files.lsRecursive(path)] *)
  lsRecursive : repo -> string -> list string;
  (** [workingCopy.write(diff.diff(hash1, hash2))] *)
  writeWorkingCopy : option string -> string -> Cmd unit;
  (** [objects.commitToc(hash)] *)
  commitToc : repo -> string -> gmap string string
}.

(** *** The keys of a JavaScript object *)
Module jsobject.

Definition digit (c : ascii) : option N :=
  let n := N_of_ascii c in
  if ((48 <=? n) && (n <=? 57))%N then Some (n - 48)%N else None.

Fixpoint digits (acc : N) (s : string) : option N :=
  match s with
  | EmptyString => Some acc
  | String c s' => d ← digit c; digits (10 * acc + d)%N s'
  end.

(** The array index a property name stands for: a decimal numeral in
    canonical form of a number below 2^32 - 1. *)
Definition arrayIndex (name : string) : option N :=
  match name with
  | EmptyString => None
  | String _ _ =>
      n ← digits 0 name;
      if bool_decide (pretty n = name) && (n <? 4294967295)%N then Some n else None
  end.

(** [o[name] = value] on an object held as the list of its own
    properties, oldest first.  A property that is there keeps its place;
    an assignment of a string to [__proto__] creates no property. *)
Fixpoint set {A} (o : list (string * A)) (name : string) (value : A)
    : list (string * A) :=
  match o with
  | [] => if bool_decide (name = "__proto__") then [] else [(name, value)]
  | (k, v) :: o' =>
      if bool_decide (k = name) then (k, value) :: o' else (k, v) :: set o' name value
  end.

Fixpoint insert_sorted {A} (x : N * A) (l : list (N * A)) : list (N * A) :=
  match l with
  | [] => [x]
  | y :: l' => if (x.1 <=? y.1)%N then x :: l else y :: insert_sorted x l'
  end.

(** [Object.keys(o)]: the array indices in ascending order, then the
    other names in the order of their creation. *)
Definition keys {A} (o : list (string * A)) : list string :=
  let indexed := omap (fun '(k, _) => n ← arrayIndex k; Some (n, k)) o in
  let named := filter (fun k => arrayIndex k = None) (o.*1) in
  (foldr insert_sorted [] indexed).*2 ++ named.

End jsobject.

Module branches.
Section branches.
Context `{Env} `{Helpers}.

(** [localHeads()] returns a JS object that maps local branch names to the
    hash of the commit they point to. *)
Definition localHeads (s : repo) : result (list (string * option string)) :=
  names ← readdirSync s "refs/heads";
  foldl (fun acc n =>
           o ← acc;
           h ← refs.hash s n;
           Ret (jsobject.set o n h))
        (Ret []) names.

End branches.
End branches.

(** *** The commands on one repository *)
Module porcelain.
Section porcelain.
Context `{Env} `{Helpers}.

Record init_opts : Type := { bare_opt : bool }.

(** [init()] initializes the current directory as a new repository: a
    HEAD on the branch master, a config with the [core.bare] flag and no
    remote, the directories [objects] and [refs/heads].  What the
    directory held before stays. *)
Definition init (opts : option init_opts) (s : repo) : repo :=
  if inRepo s then s
  else
    mkRepo true
      (match opts with
       | Some o => bare_opt o
       | None => false
       end)
      ∅
      (<["HEAD" := "ref: refs/heads/master" +:+ LF]> (vfiles s))
      (store s) (idx s) (disk s).

(** [add()] adds files that match [path] to the index. *)
Definition add (path : string) : Cmd unit :=
  files.assertInRepo;;
  config.assertNotBare;;
  addedFiles ← gets (fun s => lsRecursive s path);
  if bool_decide (addedFiles = []) then
    throw (Error (path +:+ " did not match any files"))
  else
    forEach (fun p =>
               version.update_index p {| version.add := true; version.remove := false |};;
               mret tt)
            addedFiles.

(** [branch()] creates a new branch that points at the commit that HEAD
    points at.  Without a name it lists the local branches. *)
Definition branch (name : option string) : Cmd (option string) :=
  files.assertInRepo;;
  match name with
  | None =>
      heads ← reading branches.localHeads;
      marked ← reading (fun s =>
                  mapM (fun b =>
                          current ← refs.headBranchName s;
                          Ret ((if bool_decide (Some b = current) then "* " else "  ")
                               +:+ b))
                       (jsobject.keys heads));
      mret (Some (String.concat LF marked +:+ LF))
  | Some name =>
      headHash ← reading (fun s => refs.hash s "HEAD");
      if bool_decide (headHash = None) then
        current ← reading refs.headBranchName;
        throw (Error (js_show current +:+ " not a valid object name"))
      else
        known ← gets (fun s => refs.exists_ s (refs.toLocalRef name));
        if known : bool then
          throw (Error ("A branch named " +:+ name +:+ " already exists"))
        else
          hash ← reading (fun s => refs.hash s "HEAD");
          version.update_ref (refs.toLocalRef name) (js_show hash);;
          mret None
  end.

(** Modelled from the spec: [index.tocToIndex] and [index.write] are
    outside [src/]; together they replace the entire index with the given
    stage 0 mapping. *)
Definition tocToIndex (toc : gmap string string) : gmap (string * nat) string :=
  kmap (fun p : string => (p, 0)) toc.

Definition index_write (i : gmap (string * nat) string) : Cmd unit :=
  effect IndexWrite (set_idx (fun _ => i)).

(** [checkout()] changes the index, working copy and HEAD to reflect the
    content of [ref].  [ref] might be a branch name or a commit hash.
    [process.chdir] to the root of the working copy has no counterpart
    here: the paths of the model are relative to that root. *)
Definition checkout (ref : string) : Cmd string :=
  files.assertInRepo;;
  config.assertNotBare;;
  toHash ← reading (fun s => refs.hash s ref);
  found ← gets (fun s => objects.exists_ s toHash);
  if negb found then
    throw (Error (ref +:+ " did not match any file(s) known to Version"))
  else
    kind ← gets (fun s => objects.type (objects.read s toHash));
    if negb (bool_decide (kind = Some "commit")) then
      throw (Error ("reference is not a tree: " +:+ ref))
    else
      current ← reading refs.headBranchName;
      head ← gets (fun s => vfiles s !! "HEAD");
      if bool_decide (Some ref = current) || bool_decide (Some ref = head) then
        mret ("Already on " +:+ ref)
      else
        paths ← gets (fun s => changedFilesCommitWouldOverwrite s (js_show toHash));
        if negb (bool_decide (paths = [])) then
          throw (Error ("local changes would be lost" +:+ LF
                        +:+ String.concat LF paths +:+ LF))
        else
          isDetachingHead ← gets (fun s => objects.exists_ s (Some ref));
          headHash ← reading (fun s => refs.hash s "HEAD");
          writeWorkingCopy headHash (js_show toHash);;
          refs.write "HEAD"
            (if isDetachingHead : bool then js_show toHash
             else "ref: " +:+ refs.toLocalRef ref);;
          toc ← gets (fun s => commitToc s (js_show toHash));
          index_write (tocToIndex toc);;
          mret (if isDetachingHead : bool
                then "Note: checking out " +:+ js_show toHash +:+ LF
                     +:+ "You are in detached HEAD state."
                else "Switched to branch " +:+ ref).

(** [pull()] fetches the commit that [branch] is on at [remote].  It
    merges that commit into the current branch. *)
Definition pull (remoteName branchName : option string) : Sync string :=
  sync.local files.assertInRepo;;
  sync.local config.assertNotBare;;
  sync.fetch remoteName branchName;;
  sync.local (version.merge "FETCH_HEAD").

End porcelain.
End porcelain.

(** ** What a command leaves alone *)

(** From [s0] to [s] nothing changed but the store and the files of [K]
    below the version directory. *)
Definition sameButFiles (K : string -> Prop) (s0 s : repo) : Prop :=
  inRepo s = inRepo s0 /\ bare s = bare s0 /\ remotes s = remotes s0
  /\ idx s = idx s0 /\ disk s = disk s0
  /\ forall k, ~ K k -> vfiles s !! k = vfiles s0 !! k.

(** Every hash that has an object in [s0] has one in [s]. *)
Definition keepsObjects (s0 s : repo) : Prop :=
  forall k, is_Some (store s0 !! k) -> is_Some (store s !! k).

(** ** What [commit] writes *)

(** The trees of the index, as [write_tree] writes them. *)
Definition trees_of `{Env} (s : repo) : list obj :=
  subTrees (index.toc s) ++ [rootTree (index.toc s)].

(** The commit that [commit] writes with HEAD on the branch <b>, outside
    a merge: the tree of the index, the commit of the branch as its only
    parent, if there is one, and the message. *)
Definition next_commit `{Env} (s : repo) (b msg : string) : obj :=
  Commit (hashOf (rootTree (index.toc s)))
    (match vfiles s !! ("refs/heads/" +:+ b) with Some p => [p] | None => [] end)
    msg.

Definition set_disk (f : gmap string node -> gmap string node) (s : repo) : repo :=
  mkRepo (inRepo s) (bare s) (remotes s) (vfiles s) (store s) (idx s) (f (disk s)).

(** The state [checkout] leaves when it goes through: the working copy as
    its collaborator wrote it, from [s] to [s1], then HEAD, then the
    index. *)
Definition checked_out `{Helpers} (s1 : repo) (head to : string) : repo :=
  set_idx (fun _ => porcelain.tocToIndex
                      (commitToc (set_vfiles (insert "HEAD" head) s1) to))
    (set_vfiles (insert "HEAD" head) s1).

(** ** More repositories for the examples *)
Module scenario.
Import example.
#[local] Existing Instance example.env.

(** The table of contents of a commit of the examples, whose trees are
    flat. *)
Definition flatToc (s : repo) (hash : string) : gmap string string :=
  match store s !! hash with
  | Some (Commit t _ _) =>
      match store s !! t with
      | Some (Tree entries) => list_to_map ((fun '(_, h, n) => (n, h)) <$> entries)
      | _ => ∅
      end
  | _ => ∅
  end.

(** The working copy of a commit of the examples: one file for each blob
    of its tree. *)
Definition filesOf (s : repo) (hash : string) : gmap string node :=
  omap (fun h => match store s !! h with
                 | Some (Blob c) => Some (File c)
                 | _ => None
                 end)
       (flatToc s hash).

(** Collaborators for the examples: a directory lists the entries of the
    paths below it, [lsRecursive] lists the files at or below a path, and
    the working copy is written as the files of the commit checked
    out. *)
Definition helpers : Helpers := {|
  readdirSync s dir :=
    Ret (remove_dups
           (omap (fun '(k, _) =>
                    rest ← refs.strip_prefix (dir +:+ "/") k;
                    Some (refs.take_while (fun c => negb (Ascii.eqb c "/")) rest))
              (map_to_list (vfiles s))));
  lsRecursive s path :=
    match disk s !! path with
    | Some (File _) => [path]
    | Some Directory =>
        omap (fun '(k, n) =>
                match n, refs.strip_prefix (path +:+ "/") k with
                | File _, Some _ => Some k
                | _, _ => None
                end)
          (map_to_list (disk s))
    | None => []
    end;
  writeWorkingCopy _ hash := fun s => (Ret tt, set_disk (fun _ => filesOf s hash) s, []);
  commitToc := flatToc
|}.
#[local] Existing Instance helpers.

(** A directory that holds no repository. *)
Definition empty_directory : repo := mkRepo false false ∅ ∅ ∅ ∅ ∅.

(** A repository without a commit whose working copy has the directory
    [src] with two files. *)
Definition two_files : repo :=
  mkRepo true false ∅ {["HEAD" := "ref: refs/heads/master" +:+ LF]} ∅ ∅
    {["src" := Directory; "src/a.txt" := File ("1" +:+ LF);
      "src/b.txt" := File ("2" +:+ LF)]}.

(** A repository with another first commit, "c2" of another [a.txt], and
    the remote [origin]; its peer is a bare repository whose master is at
    the commit "c1" of [example.committed]. *)
Definition diverged : world :=
  mkWorld
    (final (version.commit (Some {| version.m := Some "c2" |})
              (final (version.update_index "a.txt"
                        {| version.add := true; version.remove := false |}
                        (mkRepo true false {["origin" := "../dst"]}
                           {["HEAD" := "ref: refs/heads/master" +:+ LF]} ∅ ∅
                           {["a.txt" := File ("2" +:+ LF)]})))))
    (mkRepo true true ∅ (vfiles committed) (store committed) ∅ ∅).

(** The pair [example.pushing] with a peer that is not bare and has
    master checked out. *)
Definition pushing_to_a_working_copy : world :=
  mkWorld (here pushing) (fresh false).

(** The pair [example.cloning] with the remote known as [origin2]. *)
Definition cloning_from_origin2 : world :=
  mkWorld (mkRepo true false {["origin2" := "../src"]}
             {["HEAD" := "ref: refs/heads/master" +:+ LF]} ∅ ∅ ∅)
          two_branches.

(** The repository [example.committed] with HEAD detached at its commit
    and a second file staged. *)
Definition detached_with_a_change : repo :=
  final (version.update_index "b.txt" {| version.add := true; version.remove := false |}
           (mkRepo true false ∅ (<["HEAD" := "2454472336"]> (vfiles committed))
              (store committed) (idx committed)
              (<["b.txt" := File ("2" +:+ LF)]> (disk committed)))).

(** The local repository of [diverged] in the middle of a merge of the
    commit "c1": the objects of the peer are fetched, MERGE_HEAD and
    MERGE_MSG are written and a file is staged. *)
Definition merging : repo :=
  let s := here (final (sync.fetch (Some "origin") (Some "master") diverged)) in
  final (version.update_index "b.txt" {| version.add := true; version.remove := false |}
           (mkRepo true false (remotes s)
              (<["MERGE_MSG" := "Merge FETCH_HEAD into master"]>
                 (<["MERGE_HEAD" := "2454472336"]> (vfiles s)))
              (store s) (idx s)
              (<["b.txt" := File ("3" +:+ LF)]> (disk s)))).

End scenario.
(** * Theorems *)

(** ** Strings *)

Lemma append_cons c (a b : string) : String c a +:+ b = String c (a +:+ b).
Proof. reflexivity. Qed.

Lemma append_nil_l (s : string) : "" +:+ s = s.
Proof. reflexivity. Qed.

Lemma append_nil_r (s : string) : s +:+ "" = s.
Proof. induction s as [|c s IH]; [done | by rewrite append_cons, IH]. Qed.

Lemma append_assoc (a b c : string) : (a +:+ b) +:+ c = a +:+ (b +:+ c).
Proof. induction a as [|x a IH]; [done | by rewrite !append_cons, IH]. Qed.

Lemma append_eq_nil (a b : string) : a +:+ b = "" -> a = "" /\ b = "".
Proof. destruct a; [done | rewrite append_cons; discriminate]. Qed.

Lemma all_chars_app f (a b : string) :
  all_chars f (a +:+ b) = all_chars f a && all_chars f b.
Proof.
  induction a as [|c a IH]; [done |].
  rewrite append_cons. simpl. by rewrite IH, andb_assoc.
Qed.

Lemma all_chars_impl (f g : ascii -> bool) (s : string) :
  (forall c, f c = true -> g c = true) -> all_chars f s = true -> all_chars g s = true.
Proof.
  intros Hfg. induction s as [|c s IH]; simpl; [done |].
  intros [Hc Hs]%andb_true_iff. rewrite (Hfg c Hc). auto.
Qed.

(** Two ways to cut a text at a separator, the first one at its first
    occurrence. *)
Lemma first_sep (sep : ascii) (a x p y : string) :
  all_chars (fun c => negb (Ascii.eqb c sep)) a = true ->
  a +:+ String sep x = p +:+ String sep y ->
  (p = a /\ x = y) \/ (exists p', p = a +:+ String sep p' /\ x = p' +:+ String sep y).
Proof.
  revert p. induction a as [|c a IH]; intros p Ha Heq.
  - rewrite append_nil_l in Heq. destruct p as [|c' p].
    + rewrite append_nil_l in Heq. injection Heq as ->. by left.
    + rewrite append_cons in Heq. injection Heq as <- ->. right. by exists p.
  - simpl in Ha. apply andb_true_iff in Ha as [Hc Ha].
    rewrite append_cons in Heq. destruct p as [|c' p].
    + rewrite append_nil_l in Heq. injection Heq as -> _.
      by rewrite Ascii.eqb_refl in Hc.
    + rewrite append_cons in Heq. injection Heq as <- Heq.
      destruct (IH p Ha Heq) as [[-> ->] | (p' & -> & ->)]; [by left |].
      right. exists p'. by rewrite append_cons.
Qed.

Lemma no_sep_inside (sep : ascii) (x a b : string) :
  all_chars (fun c => negb (Ascii.eqb c sep)) x = true -> x <> a +:+ String sep b.
Proof.
  intros Hx ->. rewrite all_chars_app in Hx. simpl in Hx.
  by rewrite Ascii.eqb_refl, andb_false_r in Hx.
Qed.

(** ** Regular expressions: the derivative matcher decides [matches] *)
Module RegexFacts.
Import Regex.

Lemma nullable_matches r : nullable r = true <-> matches r "".
Proof.
  split.
  - induction r; simpl; intros Hn; try discriminate.
    + constructor.
    + apply andb_true_iff in Hn as [H1 H2].
      change "" with ("" +:+ ""). constructor; auto.
    + apply orb_true_iff in Hn as [H1 | H2]; [apply MAltL | apply MAltR]; auto.
    + constructor.
  - intros Hm. remember "" as s eqn:Hs.
    induction Hm; simpl; subst; try discriminate; auto.
    + apply append_eq_nil in Hs as [-> ->]. rewrite IHHm1, IHHm2; auto.
    + rewrite IHHm; auto.
    + rewrite IHHm; auto. apply orb_true_r.
Qed.

Lemma star_cons_inv r c s :
  matches (Star r) (String c s) ->
  exists s1 s2, s = s1 +:+ s2 /\ matches r (String c s1) /\ matches (Star r) s2.
Proof.
  intros Hm. remember (Star r) as r' eqn:Hr. remember (String c s) as t eqn:Ht.
  revert c s Ht. induction Hm; intros c' s' Ht; try discriminate.
  injection Hr as ->.
  destruct s1 as [|a s1]; rewrite ?append_cons, ?append_nil_l in Ht.
  - apply IHHm2; auto.
  - injection Ht as ? ?; subst. eauto.
Qed.

Lemma void_inv s : matches Void s -> False.
Proof. inversion 1. Qed.

Lemma eps_inv s : matches Eps s -> s = "".
Proof. by inversion 1. Qed.

Lemma cls_inv p s : matches (Cls p) s -> exists c, s = String c "" /\ p c = true.
Proof. inversion 1; subst; eauto. Qed.

Lemma cat_inv r1 r2 s :
  matches (Cat r1 r2) s ->
  exists s1 s2, s = s1 +:+ s2 /\ matches r1 s1 /\ matches r2 s2.
Proof. inversion 1; subst; eauto. Qed.

Lemma alt_inv r1 r2 s : matches (Alt r1 r2) s -> matches r1 s \/ matches r2 s.
Proof. inversion 1; subst; auto. Qed.

Lemma cat_cons r1 r2 c s1 s2 :
  matches r1 (String c s1) -> matches r2 s2 -> matches (Cat r1 r2) (String c (s1 +:+ s2)).
Proof. intros H1 H2. rewrite <- append_cons. by constructor. Qed.

Lemma deriv_matches c r s : matches (deriv c r) s <-> matches r (String c s).
Proof.
  revert s. induction r as [| |p|r1 IH1 r2 IH2|r1 IH1 r2 IH2|r IH]; intros s; simpl.
  - split; intros Hm; by apply void_inv in Hm.
  - split; intros Hm; [by apply void_inv in Hm | by apply eps_inv in Hm].
  - destruct (p c) eqn:Hp; split; intros Hm.
    + apply eps_inv in Hm as ->. by constructor.
    + apply cls_inv in Hm as (c' & Heq & _). injection Heq as ? ?; subst. constructor.
    + by apply void_inv in Hm.
    + apply cls_inv in Hm as (c' & Heq & Hc). injection Heq as ? ?; subst. congruence.
  - destruct (nullable r1) eqn:Hn.
    + split; intros Hm.
      * apply alt_inv in Hm as [Hm | Hm].
        -- apply cat_inv in Hm as (s1 & s2 & -> & H1 & H2).
           apply cat_cons; [by apply IH1 | done].
        -- rewrite <- (append_nil_l (String c s)).
           constructor; [by apply nullable_matches | by apply IH2].
      * apply cat_inv in Hm as (s1 & s2 & Heq & H1 & H2).
        destruct s1 as [|a s1]; rewrite ?append_cons, ?append_nil_l in Heq.
        -- subst. apply MAltR. by apply IH2.
        -- injection Heq as ? ?; subst. apply MAltL. constructor; [by apply IH1 | done].
    + split; intros Hm.
      * apply cat_inv in Hm as (s1 & s2 & -> & H1 & H2).
        apply cat_cons; [by apply IH1 | done].
      * apply cat_inv in Hm as (s1 & s2 & Heq & H1 & H2).
        destruct s1 as [|a s1]; rewrite ?append_cons, ?append_nil_l in Heq.
        -- apply nullable_matches in H1. congruence.
        -- injection Heq as ? ?; subst. constructor; [by apply IH1 | done].
  - split; intros Hm.
    + apply alt_inv in Hm as [Hm | Hm]; [apply MAltL; by apply IH1 | apply MAltR; by apply IH2].
    + apply alt_inv in Hm as [Hm | Hm]; [apply MAltL; by apply IH1 | apply MAltR; by apply IH2].
  - split; intros Hm.
    + apply cat_inv in Hm as (s1 & s2 & -> & H1 & H2).
      rewrite <- append_cons. constructor; [by apply IH | done].
    + apply star_cons_inv in Hm as (s1 & s2 & -> & H1 & H2).
      constructor; [by apply IH | done].
Qed.

Lemma re_match_spec r s : re_match r s = true <-> matches r s.
Proof.
  revert r. induction s as [|c s IH]; intros r; simpl.
  - apply nullable_matches.
  - rewrite IH. apply deriv_matches.
Qed.

Lemma matches_lit l s : matches (lit l) s <-> s = l.
Proof.
  revert s. induction l as [|c l IH]; intros s; simpl.
  - split; [apply eps_inv | intros ->; constructor].
  - split.
    + intros Hm. apply cat_inv in Hm as (s1 & s2 & -> & H1 & H2).
      apply cls_inv in H1 as (c' & -> & Hc). apply Ascii.eqb_eq in Hc as <-.
      apply IH in H2 as ->. reflexivity.
    + intros ->. change (String c l) with (String c "" +:+ l).
      constructor; [constructor; apply Ascii.eqb_refl | by apply IH].
Qed.

Lemma matches_star_cls p s : matches (Star (Cls p)) s <-> all_chars p s = true.
Proof.
  split.
  - intros Hm. remember (Star (Cls p)) as r eqn:Hr.
    induction Hm; try discriminate; [done |].
    injection Hr as ->. apply cls_inv in Hm1 as (c & -> & Hc).
    rewrite all_chars_app. simpl. rewrite Hc. simpl. auto.
  - induction s as [|c s IH]; simpl; intros Ha; [constructor |].
    apply andb_true_iff in Ha as [Hc Ha].
    change (String c s) with (String c "" +:+ s).
    constructor; [by constructor | auto].
Qed.

Lemma matches_plus_cls p s :
  matches (Plus (Cls p)) s <-> s <> "" /\ all_chars p s = true.
Proof.
  unfold Plus. split.
  - intros Hm. apply cat_inv in Hm as (s1 & s2 & -> & H1 & H2).
    apply cls_inv in H1 as (c & -> & Hc). apply matches_star_cls in H2.
    split; [done |]. rewrite all_chars_app. simpl. by rewrite Hc, H2.
  - intros [Hne Ha]. destruct s as [|c s]; [done |]. simpl in Ha.
    apply andb_true_iff in Ha as [Hc Ha].
    change (String c s) with (String c "" +:+ s).
    constructor; [by constructor | by apply matches_star_cls].
Qed.

Lemma matches_any s : matches (Star (Cls refs.anyChar)) s.
Proof. apply matches_star_cls. induction s; simpl; auto. Qed.

End RegexFacts.

(** ** The syntax of refs *)
Section ref_syntax.
Import Regex RegexFacts.

Lemma validName_spec n : validName n = true <-> n <> "" /\ all_chars refs.nameChar n = true.
Proof. destruct n; simpl; [split; [done | intros [? _]; done] | split; [done | by intros [_ ?]]]. Qed.

Lemma matches_name n : matches (Plus (Cls refs.nameChar)) n <-> validName n = true.
Proof. rewrite matches_plus_cls. symmetry. apply validName_spec. Qed.

Lemma localRef_spec r :
  re_match refs.localRefPattern r = true <->
  exists n, r = "refs/heads/" +:+ n /\ validName n = true.
Proof.
  rewrite re_match_spec. unfold refs.localRefPattern. split.
  - intros Hm. apply cat_inv in Hm as (s1 & s2 & -> & H1 & H2).
    apply matches_lit in H1 as ->. apply matches_name in H2. eauto.
  - intros (n & -> & Hn). constructor; [by apply matches_lit | by apply matches_name].
Qed.

Lemma remoteRef_spec r :
  re_match refs.remoteRefPattern r = true <->
  exists rm n, r = "refs/remotes/" +:+ rm +:+ "/" +:+ n
               /\ validName rm = true /\ validName n = true.
Proof.
  rewrite re_match_spec. unfold refs.remoteRefPattern. split.
  - intros Hm. apply cat_inv in Hm as (s1 & s2 & -> & H1 & H2).
    apply matches_lit in H1 as ->.
    apply cat_inv in H2 as (s3 & s4 & -> & H3 & H4).
    apply cat_inv in H4 as (s5 & s6 & -> & H5 & H6).
    apply matches_lit in H5 as ->.
    apply matches_name in H3. apply matches_name in H6. eauto.
  - intros (rm & n & -> & Hr & Hn).
    constructor; [by apply matches_lit |].
    constructor; [by apply matches_name |].
    constructor; [by apply matches_lit | by apply matches_name].
Qed.

Lemma isRef_RefForm r : refs.isRef r = true <-> RefForm r.
Proof.
  unfold refs.isRef. rewrite !orb_true_iff, localRef_spec, remoteRef_spec, bool_decide_eq_true.
  split.
  - intros [[(n & -> & Hn) | (rm & n & -> & Hr & Hn)] | Hin].
    + by constructor.
    + by constructor.
    + repeat (apply elem_of_cons in Hin as [-> | Hin]; [constructor |]).
      by apply elem_of_nil in Hin.
  - intros [| | |n Hn|rm n Hr Hn].
    + right. set_solver.
    + right. set_solver.
    + right. set_solver.
    + left. left. eauto.
    + left. right. eauto.
Qed.

End ref_syntax.

(** ** The captured groups agree with the patterns *)
Section captures.
Import Regex RegexFacts.

Lemma strip_prefix_spec p s r : refs.strip_prefix p s = Some r <-> s = p +:+ r.
Proof.
  revert s. induction p as [|a p IH]; intros s; simpl.
  - split; [by intros [= ->] | by intros ->].
  - destruct s as [|b s]; [split; [done | by rewrite append_cons] |].
    rewrite append_cons. destruct (Ascii.eqb_spec a b) as [-> | Hne].
    + rewrite IH. split; [by intros -> | by intros [= ->]].
    + split; [done | intros [= ? ?]; done].
Qed.

Lemma take_while_split f s : exists post, s = refs.take_while f s +:+ post
  /\ match post with String c _ => f c = false | EmptyString => True end.
Proof.
  induction s as [|c s (post & Hs & Hp)]; simpl; [by exists "" |].
  destruct (f c) eqn:Hc.
  - exists post. rewrite append_cons. by rewrite <- Hs.
  - exists (String c s). by rewrite append_nil_l.
Qed.

Lemma take_while_all f s : all_chars f (refs.take_while f s) = true.
Proof.
  induction s as [|c s IH]; simpl; [done |].
  destruct (f c) eqn:Hc; simpl; [by rewrite Hc | done].
Qed.

Lemma take_while_app f a c b :
  all_chars f a = true -> f c = false ->
  refs.take_while f (a +:+ String c b) = a.
Proof.
  intros Ha Hc. induction a as [|x a IH]; [simpl; by rewrite Hc |].
  rewrite append_cons. simpl in *. apply andb_true_iff in Ha as [-> Ha].
  by rewrite IH.
Qed.

(** The pattern [prefix(.+)] matches at the start of [s] exactly when the
    prefix is there and a [.] character follows it. *)
Lemma prefix_group_here prefix s :
  re_match (refs.atStart (Cat (lit prefix) (Plus (Cls refs.dot)))) s = true
  <-> exists rest, refs.strip_prefix prefix s = Some rest
                   /\ refs.take_while refs.dot rest <> "".
Proof.
  rewrite re_match_spec. unfold refs.atStart. split.
  - intros Hm. apply cat_inv in Hm as (s1 & post & -> & H1 & _).
    apply cat_inv in H1 as (s2 & g & -> & H2 & H3).
    apply matches_lit in H2 as ->. apply matches_plus_cls in H3 as [Hne Hg].
    exists (g +:+ post). split; [apply strip_prefix_spec; by rewrite append_assoc |].
    destruct g as [|c g]; [done |]. rewrite append_cons. simpl in *.
    apply andb_true_iff in Hg as [-> _]. done.
  - intros (rest & Hp & Hg). apply strip_prefix_spec in Hp as ->.
    destruct (take_while_split refs.dot rest) as (post & Hrest & _).
    rewrite Hrest, <- append_assoc.
    constructor; [| apply matches_any].
    constructor; [by apply matches_lit |].
    apply matches_plus_cls. split; [done | apply take_while_all].
Qed.

(** [group_after] is the group of the leftmost match of [prefix(.+)]: at
    the first position where the pattern matches, the longest run of [.]
    characters after the prefix. *)
Lemma group_after_leftmost prefix s :
  refs.group_after prefix s =
  if re_match (refs.atStart (Cat (lit prefix) (Plus (Cls refs.dot)))) s
  then rest ← refs.strip_prefix prefix s; Some (refs.take_while refs.dot rest)
  else match s with
       | EmptyString => None
       | String _ s' => refs.group_after prefix s'
       end.
Proof.
  destruct (re_match _ s) eqn:Hm.
  - apply prefix_group_here in Hm as (rest & Hp & Hg).
    destruct s; simpl; rewrite Hp; simpl;
      by destruct (refs.take_while refs.dot rest).
  - assert (Hnone : match refs.strip_prefix prefix s with
                    | Some rest => refs.take_while refs.dot rest = ""
                    | None => True
                    end).
    { destruct (refs.strip_prefix prefix s) as [rest|] eqn:Hp; [| done].
      destruct (refs.take_while refs.dot rest) eqn:Hg; [done |].
      assert (re_match (refs.atStart (Cat (lit prefix) (Plus (Cls refs.dot)))) s = true);
        [| congruence].
      apply prefix_group_here. exists rest. by rewrite Hg. }
    destruct s; simpl; destruct (refs.strip_prefix prefix _); try done;
      by rewrite Hnone.
Qed.

(** [match] returns null exactly when [group_after] finds nothing. *)
Lemma group_after_None prefix s :
  refs.group_after prefix s = None
  <-> re_match (refs.anywhere (Cat (lit prefix) (Plus (Cls refs.dot)))) s = false.
Proof.
  rewrite <- not_true_iff_false, re_match_spec. unfold refs.anywhere.
  induction s as [|c s IH].
  - rewrite group_after_leftmost.
    destruct (re_match _ "") eqn:Hm.
    + apply prefix_group_here in Hm as (rest & Hp & Hg).
      apply strip_prefix_spec in Hp. symmetry in Hp.
      apply append_eq_nil in Hp as [-> ->]. done.
    + split; [| done]. intros _ Hmatch.
      apply cat_inv in Hmatch as (s1 & s2 & Heq & _ & H2).
      symmetry in Heq. apply append_eq_nil in Heq as [-> ->].
      apply re_match_spec in H2. unfold refs.atStart in Hm. congruence.
  - rewrite group_after_leftmost.
    destruct (re_match _ (String c s)) eqn:Hm.
    + split.
      * apply prefix_group_here in Hm as (rest & -> & Hg). done.
      * intros Hno. exfalso. apply Hno. apply re_match_spec in Hm.
        rewrite <- (append_nil_l (String c s)). constructor; [constructor | done].
    + rewrite IH. split.
      * intros Hno Hmatch. apply cat_inv in Hmatch as (s1 & s2 & Heq & H1 & H2).
        destruct s1 as [|x s1]; rewrite ?append_cons, ?append_nil_l in Heq.
        -- subst. apply re_match_spec in H2. unfold refs.atStart in Hm. congruence.
        -- injection Heq as ? ?; subst. apply Hno.
           constructor; [apply matches_any | done].
      * intros Hno Hmatch. apply Hno.
        apply cat_inv in Hmatch as (s1 & s2 & -> & H1 & H2).
        rewrite <- append_cons. constructor; [apply matches_any | done].
Qed.

(** [first_word] is the group of [^([^ ]+) ]. *)
Lemma first_word_spec l w :
  refs.first_word l = Some w
  <-> exists post, l = w +:+ " " +:+ post /\ w <> ""
                   /\ all_chars refs.notSpace w = true.
Proof.
  unfold refs.first_word. split.
  - destruct (refs.take_while refs.notSpace l) as [|c w'] eqn:Hw; [done |].
    destruct (refs.strip_prefix _ l) as [post|] eqn:Hp; [| done].
    intros [= <-]. apply strip_prefix_spec in Hp. exists post.
    rewrite append_assoc in Hp. split; [done |]. split; [done |].
    rewrite <- Hw. apply take_while_all.
  - intros (post & -> & Hne & Hall).
    change (w +:+ " " +:+ post) with (w +:+ String " " post).
    rewrite take_while_app by done.
    destruct w as [|c w]; [done |].
    assert (Hp : refs.strip_prefix (String c w +:+ " ") (String c w +:+ String " " post)
                 = Some post).
    { apply strip_prefix_spec. by rewrite append_assoc. }
    by rewrite Hp.
Qed.

End captures.

(** C6 (as amended).  [refs.isRef] is a total boolean function on strings
    and it answers true exactly for HEAD, FETCH_HEAD, MERGE_HEAD,
    refs/heads/<name> and refs/remotes/<remote>/<name>, where <name> and
    <remote> are non-empty and made of the characters [[A-Za-z-]]; for
    every other string, MERGE_MSG included, it answers false. *)
Theorem isRef_exactly_the_ref_forms (r : string) :
  (refs.isRef r = true <-> RefForm r) /\
  (refs.isRef r = false <-> ~ RefForm r) /\
  refs.isRef "MERGE_MSG" = false.
Proof.
  split; [apply isRef_RefForm |]. split; [| reflexivity].
  rewrite <- isRef_RefForm. destruct (refs.isRef r); split; intros; congruence.
Qed.

(** C6 fails as stated: the specification counts MERGE_MSG among the
    refs, and [refs.isRef] rejects it. *)
Lemma isRef_rejects_MERGE_MSG :
  SpecRefForm "MERGE_MSG" /\ refs.isRef "MERGE_MSG" = false.
Proof. split; [constructor | reflexivity]. Qed.

(** ** Running commands *)
Section monad.
Context {W L : Type}.

Lemma bind_unfold {A B} (c : M W L A) (k : A -> M W L B) w :
  (c ≫= k) w =
  match c w with
  | (Ret a, w1, l1) => match k a w1 with (r, w2, l2) => (r, w2, l1 ++ l2) end
  | (Throw e, w1, l1) => (Throw e, w1, l1)
  end.
Proof. reflexivity. Qed.

Lemma bind_mret {A B} (a : A) (k : A -> M W L B) w : (mret a ≫= k) w = k a w.
Proof. rewrite bind_unfold. unfold mret, M_ret. by destruct (k a w) as [[? ?] ?]. Qed.

Lemma bind_gets {A B} (g : W -> A) (k : A -> M W L B) w :
  (gets g ≫= k) w = k (g w) w.
Proof. rewrite bind_unfold. unfold gets. by destruct (k (g w) w) as [[? ?] ?]. Qed.

Lemma bind_reading {A B} (g : W -> result A) (k : A -> M W L B) w :
  (reading g ≫= k) w =
  match g w with
  | Ret a => k a w
  | Throw e => (Throw e, w, [])
  end.
Proof.
  rewrite bind_unfold. unfold reading.
  destruct (g w) as [a|e]; [| done]. by destruct (k a w) as [[? ?] ?].
Qed.

Lemma bind_throw {A B} (e : error) (k : A -> M W L B) w :
  (throw e ≫= k) w = (Throw e, w, []).
Proof. reflexivity. Qed.

Lemma bind_assoc {A B C} (c : M W L A) (k : A -> M W L B) (k' : B -> M W L C) w :
  ((c ≫= k) ≫= k') w = (c ≫= (fun a => k a ≫= k')) w.
Proof.
  rewrite !bind_unfold. destruct (c w) as [[[a|e] w1] l1]; [| done].
  rewrite bind_unfold. destruct (k a w1) as [[[b|e] w2] l2]; [| done].
  destruct (k' b w2) as [[r w3] l3]. by rewrite app_assoc.
Qed.

Lemma mret_returns {A} (a b : A) (w w' : W) (l : list L) :
  (mret a : M W L A) w = (Ret b, w', l) -> a = b /\ w' = w.
Proof. unfold mret, M_ret. by intros [= -> ->]. Qed.

(** What a returning sequence went through. *)
Lemma bind_returns {A B} (c : M W L A) (k : A -> M W L B) w b w' l :
  (c ≫= k) w = (Ret b, w', l) ->
  exists a w1 l1 l2, c w = (Ret a, w1, l1) /\ k a w1 = (Ret b, w', l2) /\ l = l1 ++ l2.
Proof.
  rewrite bind_unfold. destruct (c w) as [[[a|e] w1] l1]; [| done].
  destruct (k a w1) as [[r w2] l2] eqn:Hk. intros [= -> -> <-]. eauto 10.
Qed.

End monad.

Section commands.
Context `{Env}.

Lemma bind_effect {B} e g (k : unit -> Cmd B) s :
  (effect e g ≫= k) s =
  match k tt (g s) with (r, s2, l2) => (r, s2, (e, g s) :: l2) end.
Proof. reflexivity. Qed.

Lemma bind_assertInRepo {B} (k : unit -> Cmd B) s :
  inRepo s = true -> (files.assertInRepo ≫= k) s = k tt s.
Proof.
  intros Hin. rewrite bind_unfold. unfold files.assertInRepo. rewrite Hin.
  by destruct (k tt s) as [[? ?] ?].
Qed.

Lemma bind_assertNotBare {B} (k : unit -> Cmd B) s :
  bare s = false -> (config.assertNotBare ≫= k) s = k tt s.
Proof.
  intros Hb. rewrite bind_unfold. unfold config.assertNotBare. rewrite Hb.
  by destruct (k tt s) as [[? ?] ?].
Qed.

Lemma write_non_ref ref content s :
  refs.isRef ref = false -> refs.write ref content s = (Ret tt, s, []).
Proof. intros Hr. unfold refs.write. by rewrite Hr. Qed.

Lemma write_ref ref content s :
  refs.isRef ref = true ->
  refs.write ref content s =
  (Ret tt, set_vfiles (insert ref content) s,
   [(RefWrite ref, set_vfiles (insert ref content) s)]).
Proof. intros Hr. unfold refs.write. by rewrite Hr. Qed.

Lemma read_Some s h : objects.read s (Some h) = store s !! h.
Proof. reflexivity. Qed.

Lemma exists_Some s h : objects.exists_ s h = true -> exists x, h = Some x /\ is_Some (store s !! x).
Proof.
  unfold objects.exists_, objects.read. intros Hx. apply bool_decide_eq_true in Hx.
  destruct h as [x|]; simpl in Hx; [eauto | by destruct Hx].
Qed.

Lemma update_ref_run refToUpdate refToUpdateTo s :
  inRepo s = true ->
  version.update_ref refToUpdate refToUpdateTo s =
  match refs.hash s refToUpdateTo with
  | Throw e => (Throw e, s, [])
  | Ret hash =>
      if negb (objects.exists_ s hash) then
        (Throw (Error (refToUpdateTo +:+ " not a valid SHA1")), s, [])
      else if negb (refs.isRef refToUpdate) then
        (Throw (Error ("cannot lock the ref " +:+ refToUpdate)), s, [])
      else
        match refs.terminalRef s refToUpdate with
        | Throw e => (Throw e, s, [])
        | Ret t =>
            if negb (bool_decide (objects.type (objects.read s hash) = Some "commit"))
            then (Throw (Error (t +:+ " cannot refer to non-commit object "
                                +:+ js_show hash +:+ LF)), s, [])
            else refs.write t (js_show hash) s
        end
  end.
Proof.
  intros Hin. unfold version.update_ref.
  rewrite bind_assertInRepo by done. rewrite bind_reading.
  destruct (refs.hash s refToUpdateTo) as [hash|e]; [| done].
  rewrite bind_gets.
  destruct (objects.exists_ s hash); simpl; [| done].
  destruct (refs.isRef refToUpdate); simpl; [| done].
  rewrite bind_gets.
  destruct (bool_decide (objects.type (objects.read s hash) = Some "commit")); simpl.
  - rewrite bind_reading. by destruct (refs.terminalRef s refToUpdate).
  - rewrite bind_reading. by destruct (refs.terminalRef s refToUpdate).
Qed.

End commands.

(** C8.  For a name that fails ref syntax, [refs.write] returns without
    an error, leaves the repository as it was and performs no write. *)
Theorem write_ignores_non_ref (ref content : string) (s : repo) :
  refs.isRef ref = false ->
  refs.write ref content s = (Ret tt, s, []).
Proof. apply write_non_ref. Qed.


(** C10.  In a repository that is not bare, when [path] is a file on disk
    and is in the index at stage 0, [update_index] with the [remove]
    option does not remove it: the call takes the add branch, stores the
    content the file has on disk, points stage 0 of the path at that blob
    and returns without an error. *)
Theorem update_index_remove_keeps_file_on_disk `{Env} (s : repo)
    (path content : string) (opts : version.index_opts) :
  inRepo s = true ->
  bare s = false ->
  disk s !! path = Some (File content) ->
  index.hasFile s path 0 = true ->
  version.remove opts = true ->
  version.update_index path opts s
  = (index.writeNonConflict path content ≫= fun _ => mret (Some LF)) s
  /\ outcome (version.update_index path opts s) = Ret (Some LF)
  /\ idx (final (version.update_index path opts s)) !! (path, 0)
     = Some (hashOf (Blob content))
  /\ store (final (version.update_index path opts s)) !! hashOf (Blob content)
     = Some (Blob content).
Proof.
  intros Hin Hbare Hdisk Hidx Hrm.
  assert (Hrun : version.update_index path opts s
    = (index.writeNonConflict path content ≫= fun _ => mret (Some LF)) s).
  { unfold version.update_index.
    rewrite bind_assertInRepo, bind_assertNotBare by done.
    rewrite !bind_gets. rewrite Hdisk, Hidx, Hrm. simpl.
    by rewrite andb_false_r, orb_true_r. }
  split; [done |]. rewrite Hrun.
  unfold index.writeNonConflict, objects.write, effect, outcome, final. simpl.
  repeat split.
  - apply lookup_insert_eq.
  - apply lookup_insert_eq.
Qed.

(** ** Which errors a command can throw *)
Section throws.
Context {W L : Type}.
Implicit Types P : error -> Prop.

Lemma throws_bind {A B} P (c : M W L A) (k : A -> M W L B) :
  throws_only P c -> (forall a, throws_only P (k a)) -> throws_only P (c ≫= k).
Proof.
  intros Hc Hk w e. rewrite bind_unfold. unfold outcome.
  specialize (Hc w). unfold outcome in Hc.
  destruct (c w) as [[[a|e'] w1] l1]; simpl in *.
  - specialize (Hk a w1). unfold outcome in Hk.
    destruct (k a w1) as [[r w2] l2]; simpl in *. apply Hk.
  - intros [= <-]. by apply Hc.
Qed.

Lemma throws_mret {A} P (a : A) : throws_only P (mret a : M W L A).
Proof. intros w e. unfold outcome. simpl. discriminate. Qed.

Lemma throws_gets {A} P (g : W -> A) : throws_only P (gets g : M W L A).
Proof. intros w e. unfold outcome. simpl. discriminate. Qed.

Lemma throws_throw {A} P e : P e -> throws_only P (throw e : M W L A).
Proof. intros He w e'. unfold outcome. simpl. by intros [= <-]. Qed.

Lemma throws_reading {A} P (g : W -> result A) :
  (forall w e, g w = Throw e -> P e) -> throws_only P (reading g : M W L A).
Proof. intros Hg w e. unfold outcome. simpl. apply Hg. Qed.

Lemma throws_forEach {A} P (k : A -> M W L unit) l :
  (forall a, throws_only P (k a)) -> throws_only P (forEach k l).
Proof.
  intros Hk. induction l as [|a l IH]; simpl.
  - apply throws_mret.
  - apply throws_bind; auto.
Qed.

End throws.

(** ** Reading refs *)
Section reading_refs.
Context `{Env}.

Lemma mapM_throws {A B} (g : A -> result B) (l : list A) e :
  mapM g l = Throw e -> exists x, g x = Throw e.
Proof.
  induction l as [|x l IH]; simpl; [discriminate |].
  destruct (g x) as [b|e'] eqn:Hg; simpl.
  - destruct (mapM g l) as [bs|e'']; simpl; [discriminate |].
    intros [= <-]. by apply IH.
  - intros [= <-]. eauto.
Qed.

Lemma isHeadDetached_throws s e : refs.isHeadDetached s = Throw e -> e = TypeError.
Proof. unfold refs.isHeadDetached. destruct (vfiles s !! "HEAD"); congruence. Qed.

Lemma headBranchName_throws s e : refs.headBranchName s = Throw e -> e = TypeError.
Proof.
  unfold refs.headBranchName.
  destruct (refs.isHeadDetached s) as [d|e'] eqn:Hd; simpl.
  - destruct d; simpl; [discriminate |].
    destruct (vfiles s !! "HEAD"); [| congruence].
    destruct (refs.group_after _ _); congruence.
  - intros [= <-]. by apply isHeadDetached_throws in Hd.
Qed.

Lemma terminalRef_throws s ref e : refs.terminalRef s ref = Throw e -> e = TypeError.
Proof.
  unfold refs.terminalRef. case_bool_decide; simpl.
  - destruct (refs.isHeadDetached s) as [d|e'] eqn:Hd; simpl.
    + destruct d; simpl.
      * destruct (refs.isRef ref); discriminate.
      * destruct (vfiles s !! "HEAD"); [| congruence].
        destruct (refs.group_after _ _); congruence.
    + intros [= <-]. by apply isHeadDetached_throws in Hd.
  - destruct (refs.isRef ref); discriminate.
Qed.

Lemma fetchHeadBranchToMerge_throws s name e :
  refs.fetchHeadBranchToMerge s name = Throw e -> e = TypeError.
Proof.
  unfold refs.fetchHeadBranchToMerge.
  destruct (vfiles s !! "FETCH_HEAD"); [| congruence].
  destruct (mapM _ _) as [hs|e'] eqn:Hm; simpl; [discriminate |].
  intros [= <-]. apply mapM_throws in Hm as (l & Hl).
  destruct (refs.first_word l); congruence.
Qed.

Lemma hash_throws s ref e : refs.hash s ref = Throw e -> e = TypeError.
Proof.
  unfold refs.hash. destruct (objects.exists_ s (Some ref)); [discriminate |].
  destruct (refs.terminalRef s ref) as [t|e'] eqn:Ht; simpl.
  - case_bool_decide.
    + destruct (refs.headBranchName s) as [n|e'] eqn:Hn; simpl.
      * apply fetchHeadBranchToMerge_throws.
      * intros [= <-]. by apply headBranchName_throws in Hn.
    + destruct (refs.exists_ s t); discriminate.
  - intros [= <-]. by apply terminalRef_throws in Ht.
Qed.

Lemma commitParentHashes_throws s e :
  refs.commitParentHashes s = Throw e -> e = TypeError.
Proof.
  unfold refs.commitParentHashes.
  destruct (refs.hash s "HEAD") as [h|e'] eqn:Hh; simpl.
  - destruct (merge.isMergeInProgress s).
    + destruct (refs.hash s "MERGE_HEAD") as [h'|e'] eqn:Hm; simpl; [discriminate |].
      intros [= <-]. by apply hash_throws in Hm.
    + case_bool_decide; discriminate.
  - intros [= <-]. by apply hash_throws in Hh.
Qed.

Lemma headDesc_throws s e : version.headDesc s = Throw e -> e = TypeError.
Proof.
  unfold version.headDesc.
  destruct (refs.isHeadDetached s) as [d|e'] eqn:Hd; simpl.
  - destruct d; [discriminate | apply headBranchName_throws].
  - intros [= <-]. by apply isHeadDetached_throws in Hd.
Qed.

(** What the reads of [refs] depend on. *)
Lemma isHeadDetached_ext s s' :
  vfiles s' !! "HEAD" = vfiles s !! "HEAD" ->
  refs.isHeadDetached s' = refs.isHeadDetached s.
Proof. unfold refs.isHeadDetached. by intros ->. Qed.

Lemma headBranchName_ext s s' :
  vfiles s' !! "HEAD" = vfiles s !! "HEAD" ->
  refs.headBranchName s' = refs.headBranchName s.
Proof.
  intros Hh. unfold refs.headBranchName.
  by rewrite (isHeadDetached_ext s s'), Hh.
Qed.

Lemma headDesc_ext s s' :
  vfiles s' !! "HEAD" = vfiles s !! "HEAD" ->
  version.headDesc s' = version.headDesc s.
Proof.
  intros Hh. unfold version.headDesc.
  by rewrite (isHeadDetached_ext s s'), (headBranchName_ext s s').
Qed.

Lemma terminalRef_ext s s' ref :
  vfiles s' !! "HEAD" = vfiles s !! "HEAD" ->
  refs.terminalRef s' ref = refs.terminalRef s ref.
Proof.
  intros Hh. unfold refs.terminalRef.
  by rewrite (isHeadDetached_ext s s'), Hh.
Qed.

End reading_refs.

(** ** Writing objects *)
Section writing_objects.
Context `{Env}.

Lemma stored_fields objs s :
  inRepo (stored objs s) = inRepo s /\ bare (stored objs s) = bare s
  /\ remotes (stored objs s) = remotes s /\ vfiles (stored objs s) = vfiles s
  /\ idx (stored objs s) = idx s /\ disk (stored objs s) = disk s.
Proof.
  revert s. induction objs as [|o objs IH]; intros s; [done |].
  change (stored (o :: objs) s) with (stored objs (set_store (insert (hashOf o) o) s)).
  by destruct (IH (set_store (insert (hashOf o) o) s)) as (-> & -> & -> & -> & -> & ->).
Qed.

Lemma stored_keeps objs s k : is_Some (store s !! k) -> is_Some (store (stored objs s) !! k).
Proof.
  revert s. induction objs as [|o objs IH]; intros s Hk; [done |].
  change (stored (o :: objs) s) with (stored objs (set_store (insert (hashOf o) o) s)).
  apply IH. simpl. rewrite lookup_insert. case_decide; eauto.
Qed.

Lemma forEach_write objs s :
  exists l, forEach (fun o => objects.write o ≫= fun _ => mret tt) objs s
            = (Ret tt, stored objs s, l).
Proof.
  revert s. induction objs as [|o objs IH]; intros s; [by eexists |].
  change (stored (o :: objs) s) with (stored objs (set_store (insert (hashOf o) o) s)).
  destruct (IH (set_store (insert (hashOf o) o) s)) as [l Hl].
  simpl. rewrite bind_unfold, bind_unfold. unfold objects.write at 1. simpl.
  rewrite Hl. by eexists.
Qed.

Lemma write_tree_run s :
  inRepo s = true ->
  exists l, version.write_tree s
            = (Ret (hashOf (rootTree (index.toc s))), treeWritten s, l).
Proof.
  intros Hin. unfold version.write_tree.
  rewrite bind_assertInRepo by done. rewrite bind_gets.
  destruct (forEach_write (subTrees (index.toc s)) s) as [l Hl].
  rewrite bind_unfold, Hl. unfold objects.write, treeWritten. simpl. by eexists.
Qed.

Lemma treeWritten_fields s :
  inRepo (treeWritten s) = inRepo s /\ bare (treeWritten s) = bare s
  /\ remotes (treeWritten s) = remotes s /\ vfiles (treeWritten s) = vfiles s
  /\ idx (treeWritten s) = idx s /\ disk (treeWritten s) = disk s.
Proof. unfold treeWritten. simpl. apply stored_fields. Qed.

End writing_objects.

Section bind_steps.
Context {W L : Type}.

Lemma outcome_bind {A B} (c : M W L A) (k : A -> M W L B) w a w1 l1 :
  c w = (Ret a, w1, l1) -> outcome ((c ≫= k) w) = outcome (k a w1).
Proof. intros Hc. rewrite bind_unfold, Hc. by destruct (k a w1) as [[? ?] ?]. Qed.

Lemma final_bind {A B} (c : M W L A) (k : A -> M W L B) w a w1 l1 :
  c w = (Ret a, w1, l1) -> final ((c ≫= k) w) = final (k a w1).
Proof. intros Hc. rewrite bind_unfold, Hc. by destruct (k a w1) as [[? ?] ?]. Qed.

Lemma writes_bind {A B} (c : M W L A) (k : A -> M W L B) w a w1 l1 :
  c w = (Ret a, w1, l1) -> writes ((c ≫= k) w) = l1 ++ writes (k a w1).
Proof. intros Hc. rewrite bind_unfold, Hc. by destruct (k a w1) as [[? ?] ?]. Qed.

End bind_steps.

(** ** Telling the errors apart *)
Section errors.

Lemma last_char_app a c b : last_char (a +:+ String c b) = last_char (String c b).
Proof.
  induction a as [|x a IH]; [done |].
  rewrite append_cons. simpl. rewrite IH.
  destruct a; reflexivity.
Qed.

Lemma NothingToCommit_shape e :
  NothingToCommit e ->
  exists msg, e = Error (String "#" msg)
              /\ last_char (String "#" msg) = Some "n"%char.
Proof.
  intros [d ->]. eexists. split; [reflexivity |].
  change (last_char ("# On " +:+ (d +:+ (LF +:+ "nothing to commit, working directory clean")))
          = Some "n"%char).
  rewrite <- append_assoc.
  change (LF +:+ "nothing to commit, working directory clean")
    with (String (ascii_of_nat 10) "nothing to commit, working directory clean").
  by rewrite last_char_app.
Qed.

Lemma not_NothingToCommit_TypeError : notNothingToCommit TypeError.
Proof. intros [d Hd]. discriminate. Qed.

Lemma not_NothingToCommit_ENOENT p : notNothingToCommit (ENOENT p).
Proof. intros [d Hd]. discriminate. Qed.

Lemma not_NothingToCommit_first c msg :
  c <> "#"%char -> notNothingToCommit (Error (String c msg)).
Proof.
  intros Hc Hn. apply NothingToCommit_shape in Hn as (m & Hm & _). congruence.
Qed.

Lemma not_NothingToCommit_last a c b :
  last_char (String c b) <> Some "n"%char ->
  notNothingToCommit (Error (a +:+ String c b)).
Proof.
  intros Hc Hn. apply NothingToCommit_shape in Hn as (m & Hm & Hl).
  injection Hm as Hm. rewrite <- Hm, last_char_app in Hl. done.
Qed.

End errors.

(** ** [commit] *)
Section commit.
Context `{Env}.

Lemma update_ref_not_NothingToCommit a b :
  throws_only notNothingToCommit (version.update_ref a b).
Proof.
  intros s e. destruct (inRepo s) eqn:Hin.
  - rewrite update_ref_run by done. unfold outcome.
    destruct (refs.hash s b) as [h|e'] eqn:Hh; simpl.
    2:{ intros [= <-]. apply hash_throws in Hh as ->. apply not_NothingToCommit_TypeError. }
    destruct (objects.exists_ s h); simpl.
    2:{ intros [= <-]. by apply not_NothingToCommit_last. }
    destruct (refs.isRef a); simpl.
    2:{ intros [= <-]. by apply not_NothingToCommit_first. }
    destruct (refs.terminalRef s a) as [t|e'] eqn:Ht; simpl.
    2:{ intros [= <-]. apply terminalRef_throws in Ht as ->.
        apply not_NothingToCommit_TypeError. }
    destruct (bool_decide _); simpl.
    + unfold refs.write. destruct (refs.isRef t); discriminate.
    + intros [= <-].
      change (t +:+ " cannot refer to non-commit object " +:+ js_show h +:+ LF)
        with (t +:+ (" cannot refer to non-commit object "
                     +:+ (js_show h +:+ String (ascii_of_nat 10) ""))).
      rewrite <- !append_assoc. by apply not_NothingToCommit_last.
  - unfold version.update_ref. rewrite bind_unfold.
    unfold files.assertInRepo. rewrite Hin. unfold outcome. simpl.
    intros [= <-]. by apply not_NothingToCommit_first.
Qed.

Lemma unlinkSync_not_NothingToCommit p :
  throws_only notNothingToCommit (refs.unlinkSync p).
Proof.
  intros s e. unfold refs.unlinkSync. destruct (vfiles s !! p); simpl; [discriminate |].
  intros [= <-]. apply not_NothingToCommit_ENOENT.
Qed.

Lemma rm_not_NothingToCommit p : throws_only notNothingToCommit (refs.rm p).
Proof.
  unfold refs.rm. destruct (refs.isRef p);
    [apply unlinkSync_not_NothingToCommit | apply throws_mret].
Qed.

Lemma write_never_throws P o : throws_only P (objects.write o).
Proof. intros s e. discriminate. Qed.

Lemma reading_refs_not_NothingToCommit {A} (g : repo -> result A) :
  (forall s e, g s = Throw e -> e = TypeError) ->
  throws_only notNothingToCommit (reading g : Cmd A).
Proof.
  intros Hg. apply throws_reading. intros s e He. apply Hg in He as ->.
  apply not_NothingToCommit_TypeError.
Qed.

Lemma unmerged_not_NothingToCommit paths :
  paths <> [] ->
  notNothingToCommit
    (Error (String.concat LF ((fun p => "U " +:+ p) <$> paths)
            +:+ LF +:+ "cannot commit because you have unmerged files" +:+ LF)).
Proof.
  intros Hp. destruct paths as [|p [|q paths]]; [done | |];
    by apply not_NothingToCommit_first.
Qed.

(** The part of [commit] that follows the comparison of the trees throws
    no "nothing to commit". *)
Lemma commit_rest_not_NothingToCommit (opts : option version.commit_opts)
    (treeHash : string) (headDesc : option string) :
  throws_only notNothingToCommit
    (conflictedPaths ← gets index.conflictedPaths;
     merging ← gets merge.isMergeInProgress;
     if merging && negb (bool_decide (conflictedPaths = [])) then
       throw (Error (String.concat LF ((fun p => "U " +:+ p) <$> conflictedPaths)
                     +:+ LF +:+ "cannot commit because you have unmerged files" +:+ LF))
     else
       message ← (if merging : bool then gets (fun s => vfiles s !! "MERGE_MSG")
                  else match opts with
                       | Some o => mret (version.m o)
                       | None => throw TypeError
                       end);
       parents ← reading refs.commitParentHashes;
       commitHash ← objects.writeCommit treeHash message parents;
       version.update_ref "HEAD" commitHash;;
       stillMerging ← gets merge.isMergeInProgress;
       if stillMerging : bool then
         refs.unlinkSync "MERGE_MSG";;
         refs.rm "MERGE_HEAD";;
         mret "Merge made by the three-way strategy"
       else
         mret ("[" +:+ js_show headDesc +:+ " " +:+ commitHash +:+ "] "
               +:+ js_show message) : Cmd string).
Proof.
  apply throws_bind; [apply throws_gets | intros paths].
  apply throws_bind; [apply throws_gets | intros merging].
  destruct (merging && negb (bool_decide (paths = []))) eqn:Hc.
  { apply throws_throw. apply unmerged_not_NothingToCommit.
    apply andb_true_iff in Hc as [_ Hp]. apply negb_true_iff in Hp.
    by apply bool_decide_eq_false in Hp. }
  apply throws_bind.
  { destruct merging; [apply throws_gets |].
    destruct opts; [apply throws_mret |].
    apply throws_throw, not_NothingToCommit_TypeError. }
  intros message. apply throws_bind.
  { apply reading_refs_not_NothingToCommit, commitParentHashes_throws. }
  intros parents. apply throws_bind; [apply write_never_throws | intros commitHash].
  apply throws_bind; [apply update_ref_not_NothingToCommit | intros _].
  apply throws_bind; [apply throws_gets | intros still].
  destruct still; [| apply throws_mret].
  apply throws_bind; [apply unlinkSync_not_NothingToCommit | intros _].
  apply throws_bind; [apply rm_not_NothingToCommit | intros _].
  apply throws_mret.
Qed.

End commit.

(** C4.  In a repository that is not bare, with a HEAD that resolves to a
    commit once the index is written as a tree: [commit] throws the
    "nothing to commit" error exactly when the hash of the tree written
    from the index is the tree hash of the HEAD commit; the message names
    the head, "# On master" and a line feed before "nothing to commit,
    working directory clean" on the branch master; when the trees differ
    the next check is the one for unresolved conflicts. *)
Theorem commit_nothing_to_commit `{Env} (s : repo) (opts : option version.commit_opts)
    (headDesc : option string) (h t : string) (ps : list string) (msg : string) :
  inRepo s = true ->
  bare s = false ->
  version.headDesc s = Ret headDesc ->
  refs.hash (treeWritten s) "HEAD" = Ret (Some h) ->
  store (treeWritten s) !! h = Some (Commit t ps msg) ->
  ((exists e, outcome (version.commit opts s) = Throw e /\ NothingToCommit e)
   <-> hashOf (rootTree (index.toc s)) = t)
  /\ (hashOf (rootTree (index.toc s)) = t ->
      outcome (version.commit opts s)
      = Throw (Error ("# On " +:+ js_show headDesc +:+ LF
                      +:+ "nothing to commit, working directory clean")))
  /\ (hashOf (rootTree (index.toc s)) = t -> headDesc = Some "master" ->
      outcome (version.commit opts s)
      = Throw (Error ("# On master" +:+ LF
                      +:+ "nothing to commit, working directory clean")))
  /\ (hashOf (rootTree (index.toc s)) <> t ->
      merge.isMergeInProgress s = true -> index.conflictedPaths s <> [] ->
      outcome (version.commit opts s)
      = Throw (Error (String.concat LF ((fun p => "U " +:+ p) <$> index.conflictedPaths s)
                      +:+ LF +:+ "cannot commit because you have unmerged files" +:+ LF))).
Proof.
  intros Hin Hbare Hd Hh Hobj.
  destruct (write_tree_run s Hin) as [l Hw].
  destruct (treeWritten_fields s) as (_ & _ & _ & Hvf & Hidx & _).
  assert (Hd' : version.headDesc (treeWritten s) = Ret headDesc).
  { rewrite <- Hd. apply headDesc_ext. by rewrite Hvf. }
  assert (Hrun : outcome (version.commit opts s) =
    outcome ((if bool_decide (Some (hashOf (rootTree (index.toc s))) = Some t)
      then throw (Error ("# On " +:+ js_show headDesc +:+ LF
                         +:+ "nothing to commit, working directory clean"))
      else
       (conflictedPaths ← gets index.conflictedPaths;
        merging ← gets merge.isMergeInProgress;
        if merging && negb (bool_decide (conflictedPaths = [])) then
          throw (Error (String.concat LF ((fun p => "U " +:+ p) <$> conflictedPaths)
                        +:+ LF +:+ "cannot commit because you have unmerged files" +:+ LF))
        else
          message ← (if merging : bool then gets (fun s => vfiles s !! "MERGE_MSG")
                     else match opts with
                          | Some o => mret (version.m o)
                          | None => throw TypeError
                          end);
          parents ← reading refs.commitParentHashes;
          commitHash ← objects.writeCommit (hashOf (rootTree (index.toc s))) message parents;
          version.update_ref "HEAD" commitHash;;
          stillMerging ← gets merge.isMergeInProgress;
          if stillMerging : bool then
            refs.unlinkSync "MERGE_MSG";;
            refs.rm "MERGE_HEAD";;
            mret "Merge made by the three-way strategy"
          else
            mret ("[" +:+ js_show headDesc +:+ " " +:+ commitHash +:+ "] "
                  +:+ js_show message)) : Cmd string) (treeWritten s))).
  { unfold version.commit.
    rewrite bind_assertInRepo, bind_assertNotBare by done.
    rewrite (outcome_bind _ _ _ _ _ _ Hw).
    rewrite bind_reading, Hd'. rewrite bind_reading, Hh. rewrite bind_gets.
    rewrite read_Some, Hobj. simpl. reflexivity. }
  assert (Heq : hashOf (rootTree (index.toc s)) = t ->
      outcome (version.commit opts s)
      = Throw (Error ("# On " +:+ js_show headDesc +:+ LF
                      +:+ "nothing to commit, working directory clean"))).
  { intros Ht. rewrite Hrun. rewrite bool_decide_eq_true_2 by congruence. done. }
  split; [split |]; [| | split; [done | split]].
  - intros (e & He & Hn). destruct (decide (hashOf (rootTree (index.toc s)) = t)); [done |].
    exfalso. rewrite Hrun in He. rewrite bool_decide_eq_false_2 in He by congruence.
    by apply commit_rest_not_NothingToCommit in He.
  - intros Ht. eexists. split; [by apply Heq |]. by eexists.
  - intros Ht ->. by apply Heq.
  - intros Ht Hm Hp. rewrite Hrun. rewrite bool_decide_eq_false_2 by congruence.
    rewrite !bind_gets.
    assert (Hm' : merge.isMergeInProgress (treeWritten s) = true).
    { unfold merge.isMergeInProgress in *. by rewrite Hvf. }
    assert (Hp' : index.conflictedPaths (treeWritten s) = index.conflictedPaths s).
    { unfold index.conflictedPaths. by rewrite Hidx. }
    rewrite Hm', Hp'. rewrite bool_decide_eq_false_2 by done. done.
Qed.

(** ** Ancestry: the bounded walk finds every ancestor *)
Section ancestry.

Lemma ancestors_upto_descent n s b a :
  a ∈ objects.ancestors_upto n s b
  <-> exists l, descent s b (l ++ [a]) /\ length l < n.
Proof.
  revert b. induction n as [|n IH]; intros b; simpl.
  - split; [by intros ?%elem_of_nil | intros (l & _ & Hl); lia].
  - rewrite elem_of_app, list_elem_of_join. split.
    + intros [Hp | (ys & Ha & Hys)].
      * exists []. simpl. split; [done | lia].
      * apply list_elem_of_fmap in Hys as (c & -> & Hc).
        apply IH in Ha as (l & Hd & Hl). exists (c :: l). simpl. split; [done | lia].
    + intros (l & Hd & Hl). destruct l as [|c l]; simpl in Hd.
      * left. by destruct Hd.
      * right. destruct Hd as [Hc Hd]. exists (objects.ancestors_upto n s c).
        split; [| apply list_elem_of_fmap; eauto].
        apply IH. exists l. simpl in Hl. split; [done | lia].
Qed.

Lemma descent_Ancestor s b l a : descent s b (l ++ [a]) -> Ancestor s a b.
Proof.
  revert b. induction l as [|c l IH]; intros b; simpl.
  - intros [Ha _]. by constructor.
  - intros [Hc Hd]. eapply AncStep; eauto.
Qed.

Lemma descent_suffix s c l1 b l2 : descent s c (l1 ++ b :: l2) -> descent s b l2.
Proof.
  revert c. induction l1 as [|x l1 IH]; intros c; simpl.
  - by intros [_ ?].
  - intros [_ Hd]. eauto.
Qed.

(** Every ancestor is reached by a walk that passes no commit twice. *)
Lemma Ancestor_descent s a b :
  Ancestor s a b -> exists l, descent s b (l ++ [a]) /\ NoDup (b :: l).
Proof.
  induction 1 as [a b Hp | a c b Hc Hanc (l & Hd & Hnd)].
  - exists []. simpl. split; [done |]. apply NoDup_singleton.
  - destruct (decide (b ∈ c :: l)) as [Hin | Hnin].
    + apply list_elem_of_split in Hin as (l1 & l2 & Heq).
      exists l2. split.
      * destruct l1 as [|x l1]; simpl in Heq; injection Heq as ? ?; subst.
        -- done.
        -- apply (descent_suffix s x l1). by rewrite <- app_assoc in Hd.
      * rewrite Heq in Hnd. by apply NoDup_app in Hnd as (_ & _ & Hnd).
    + exists (c :: l). simpl. split; [done |]. by constructor.
Qed.

Lemma descent_stored s b l a :
  descent s b (l ++ [a]) -> forall x, x ∈ b :: l -> is_Some (store s !! x).
Proof.
  assert (Hparent : forall x y, y ∈ objects.parentHashes s x -> is_Some (store s !! x)).
  { intros x y. unfold objects.parentHashes.
    destruct (store s !! x) as [[| |]|]; eauto; by intros ?%elem_of_nil. }
  revert b. induction l as [|c l IH]; intros b; simpl.
  - intros [Ha _] x Hx. apply list_elem_of_singleton in Hx as ->. eauto.
  - intros [Hc Hd] x Hx. apply elem_of_cons in Hx as [-> | Hx]; eauto.
Qed.

Lemma walk_fits_store s (l : list string) :
  NoDup l -> (forall x, x ∈ l -> is_Some (store s !! x)) -> length l <= size (store s).
Proof.
  intros Hnd Hl. rewrite <- size_dom.
  change (size (dom (store s))) with (length (elements (dom (store s)))).
  apply submseteq_length, NoDup_submseteq; [done |].
  intros x Hx. apply elem_of_elements, elem_of_dom. auto.
Qed.

(** [objects.isAncestor] decides [Ancestor]: the bound on the walk, the
    size of the store, loses no ancestor. *)
Lemma isAncestor_spec s a b : objects.isAncestor s a b = true <-> Ancestor s a b.
Proof.
  unfold objects.isAncestor, objects.ancestors.
  rewrite bool_decide_eq_true, ancestors_upto_descent. split.
  - intros (l & Hd & _). by eapply descent_Ancestor.
  - intros Hanc. apply Ancestor_descent in Hanc as (l & Hd & Hnd).
    exists l. split; [done |].
    pose proof (walk_fits_store s (b :: l) Hnd (descent_stored s b l a Hd)) as Hlen.
    simpl in Hlen. lia.
Qed.

End ancestry.

(** ** What a command can return *)
Section returns.
Context {W L : Type}.

Lemma returns_bind {A B} (Q : B -> Prop) (c : M W L A) (k : A -> M W L B) :
  (forall a, returns_only Q (k a)) -> returns_only Q (c ≫= k).
Proof.
  intros Hk w b. rewrite bind_unfold. unfold outcome.
  destruct (c w) as [[[a|e] w1] l1]; simpl; [| discriminate].
  specialize (Hk a w1 b). unfold outcome in Hk.
  destruct (k a w1) as [[r w2] l2]; simpl in *. apply Hk.
Qed.

Lemma returns_mret {A} (Q : A -> Prop) (a : A) : Q a -> returns_only Q (mret a : M W L A).
Proof. intros Ha w a'. unfold outcome. simpl. by intros [= <-]. Qed.

Lemma returns_throw {A} (Q : A -> Prop) e : returns_only Q (throw e : M W L A).
Proof. intros w a. unfold outcome. simpl. discriminate. Qed.

End returns.

(** ** [merge] *)
Section merge.
Context `{Env}.

Ltac returns :=
  repeat first
    [ apply returns_throw
    | apply returns_mret
    | apply returns_bind; intros ?
    | match goal with
      | |- returns_only _ (if ?b then _ else _) => destruct b
      | |- returns_only _ (match ?o with Some _ => _ | None => _ end) => destruct o
      end ].

Lemma commit_never_up_to_date opts :
  returns_only (fun out => out <> "Already up-to-date") (version.commit opts).
Proof. unfold version.commit. returns; discriminate. Qed.

Lemma isUpToDate_Some s receiver giver :
  objects.isUpToDate s (Some receiver) (Some giver) = true
  <-> receiver = giver \/ objects.isAncestor s giver receiver = true.
Proof.
  unfold objects.isUpToDate. rewrite orb_true_iff, bool_decide_eq_true.
  split; (intros [Heq | Hanc]; [left; congruence | by right]).
Qed.

End merge.

(** C2.  In a repository that is not bare, whose HEAD is attached and
    resolves to the receiver, and for a ref that resolves to a stored
    commit, the giver: [merge] returns "Already up-to-date" exactly when
    the receiver is the giver or the giver is an ancestor of the receiver,
    and then it returns (it does not throw), changes nothing in the
    repository and performs no write. *)
Theorem merge_already_up_to_date `{Env} (s : repo) (ref receiver giver : string)
    (t : string) (ps : list string) (msg : string) :
  inRepo s = true ->
  bare s = false ->
  refs.isHeadDetached s = Ret false ->
  refs.hash s "HEAD" = Ret (Some receiver) ->
  refs.hash s ref = Ret (Some giver) ->
  store s !! giver = Some (Commit t ps msg) ->
  (outcome (version.merge ref s) = Ret "Already up-to-date"
   <-> receiver = giver \/ Ancestor s giver receiver)
  /\ (receiver = giver \/ Ancestor s giver receiver ->
      version.merge ref s = (Ret "Already up-to-date", s, [])).
Proof.
  intros Hin Hbare Hdet Hrec Hgiv Hobj. rewrite <- isAncestor_spec.
  assert (Hrun : version.merge ref s =
    (if objects.isUpToDate s (Some receiver) (Some giver)
     then mret "Already up-to-date"
     else
       paths ← gets (fun s => changedFilesCommitWouldOverwrite s giver);
       if negb (bool_decide (paths = [])) then
         throw (Error ("local changes would be lost" +:+ LF
                       +:+ String.concat LF paths +:+ LF))
       else
         canFF ← gets (fun s => merge.canFastForward s (Some receiver) (Some giver));
         if canFF : bool then
           writeFastForwardMerge (Some receiver) giver;;
           mret "Fast-forward"
         else
           writeNonFastForwardMerge (Some receiver) giver ref;;
           conflicts ← gets (fun s => hasConflicts s (Some receiver) giver);
           if conflicts : bool then
             mret "Automatic merge failed. Fix conflicts and commit the result."
           else version.commit None : Cmd string) s).
  { unfold version.merge.
    rewrite bind_assertInRepo, bind_assertNotBare by done.
    rewrite bind_reading, Hrec. rewrite bind_reading, Hgiv.
    rewrite bind_reading, Hdet. rewrite bind_gets.
    rewrite read_Some, Hobj. simpl. by rewrite bind_gets. }
  rewrite Hrun, <- isUpToDate_Some. split.
  - destruct (objects.isUpToDate s (Some receiver) (Some giver)); [done |].
    split; [| done]. intros Hout. exfalso. revert Hout.
    match goal with |- outcome (?c s) = _ -> _ =>
      assert (Hr : returns_only (fun out => out <> "Already up-to-date") c) end.
    { apply returns_bind; intros paths.
      destruct (negb _); [apply returns_throw |].
      apply returns_bind; intros canFF. destruct canFF.
      - apply returns_bind; intros _. by apply returns_mret.
      - apply returns_bind; intros _. apply returns_bind; intros conflicts.
        destruct conflicts; [by apply returns_mret | apply commit_never_up_to_date]. }
    intros Hout. by apply Hr in Hout.
  - by intros ->.
Qed.

(** ** Commands on a pair of repositories *)
Section pairs.
Context `{Env}.

Lemma onSide_sideOf d w : onSide d w (sideOf d w) = w.
Proof. by destruct d, w. Qed.

Lemma sideOf_onSide d w s : sideOf d (onSide d w s) = s.
Proof. by destruct d. Qed.

Lemma run_result {A} d (c : Cmd A) w r s' l :
  c (sideOf d w) = (r, s', l) ->
  run d c w = (r, onSide d w s', (fun '(e, s) => (d, e, onSide d w s)) <$> l).
Proof. intros Hc. unfold run. by rewrite Hc. Qed.

Lemma run_returns {A} d (c : Cmd A) w a w' l :
  run d c w = (Ret a, w', l) ->
  exists s' l', c (sideOf d w) = (Ret a, s', l') /\ w' = onSide d w s'.
Proof.
  unfold run. destruct (c (sideOf d w)) as [[r s'] l'] eqn:Hc.
  intros [= -> <- <-]. eauto.
Qed.

Lemma run_gets_returns {A} d (g : repo -> A) w a w' l :
  run d (gets g) w = (Ret a, w', l) -> a = g (sideOf d w) /\ w' = w.
Proof.
  intros Hr. apply run_returns in Hr as (s' & l' & Hc & ->).
  unfold gets in Hc. injection Hc as <- <- <-. by rewrite onSide_sideOf.
Qed.

Lemma run_reading_returns {A} d (g : repo -> result A) w a w' l :
  run d (reading g) w = (Ret a, w', l) -> g (sideOf d w) = Ret a /\ w' = w.
Proof.
  intros Hr. apply run_returns in Hr as (s' & l' & Hc & ->).
  unfold reading in Hc. injection Hc as -> <- <-. by rewrite onSide_sideOf.
Qed.

Lemma run_assertInRepo_returns d w u w' l :
  run d files.assertInRepo w = (Ret u, w', l) -> inRepo (sideOf d w) = true /\ w' = w.
Proof.
  intros Hr. apply run_returns in Hr as (s' & l' & Hc & ->).
  unfold files.assertInRepo in Hc. destruct (inRepo (sideOf d w)); [| done].
  injection Hc as <- <-. by rewrite onSide_sideOf.
Qed.

Lemma update_ref_returns a b s u s' l :
  version.update_ref a b s = (Ret u, s', l) ->
  exists hash t,
    inRepo s = true /\ refs.hash s b = Ret (Some hash)
    /\ store s !! hash <> None
    /\ objects.type (store s !! hash) = Some "commit"
    /\ refs.isRef a = true /\ refs.terminalRef s a = Ret t
    /\ refs.write t hash s = (Ret u, s', l).
Proof.
  destruct (inRepo s) eqn:Hin.
  - rewrite update_ref_run by done.
    destruct (refs.hash s b) as [h|e]; [| done].
    destruct (objects.exists_ s h) eqn:Hx; cbn [negb]; [| done].
    apply exists_Some in Hx as (hash & -> & Hs).
    destruct (refs.isRef a); cbn [negb]; [| done].
    destruct (refs.terminalRef s a) as [t|e]; [| done].
    case_bool_decide as Hk; cbn [negb]; [| done].
    intros Hw. exists hash, t. rewrite read_Some in Hk.
    repeat split; try done. by destruct Hs as [? ->].
  - unfold version.update_ref. rewrite bind_unfold.
    unfold files.assertInRepo. by rewrite Hin.
Qed.

Lemma terminalRef_qualified s ref :
  ref <> "HEAD" -> refs.isRef ref = true -> refs.terminalRef s ref = Ret ref.
Proof.
  intros Hne Hr. unfold refs.terminalRef.
  rewrite bool_decide_eq_false_2 by done. simpl. by rewrite Hr.
Qed.

(** A successful update of a ref other than HEAD writes the resolved hash
    under that very name. *)
Lemma update_ref_qualified_returns a b s u s' l :
  a <> "HEAD" ->
  version.update_ref a b s = (Ret u, s', l) ->
  exists hash,
    refs.hash s b = Ret (Some hash) /\ store s !! hash <> None
    /\ refs.isRef a = true
    /\ s' = set_vfiles (insert a hash) s.
Proof.
  intros Hne Hu.
  apply update_ref_returns in Hu as (hash & t & _ & Hh & Hs & _ & Hr & Ht & Hw).
  rewrite terminalRef_qualified in Ht by done. injection Ht as <-.
  rewrite write_ref in Hw by done. injection Hw as _ <- _. eauto.
Qed.

Lemma hash_of_stored s h :
  store s !! h <> None -> refs.hash s h = Ret (Some h).
Proof.
  intros Hs. unfold refs.hash, objects.exists_. rewrite read_Some.
  rewrite bool_decide_eq_true_2; [done |]. by destruct (store s !! h); eauto.
Qed.

Lemma toRemoteRef_not_HEAD r b : refs.toRemoteRef r b <> "HEAD".
Proof. discriminate. Qed.

Lemma toLocalRef_not_HEAD b : refs.toLocalRef b <> "HEAD".
Proof. discriminate. Qed.

(** What a returning [fetch] went through. *)
Lemma fetch_returns remote branch w out w' l :
  sync.fetch (Some remote) (Some branch) w = (Ret out, w', l) ->
  exists url new hash,
    remotes (here w) !! remote = Some url
    /\ refs.hash (there w) branch = Ret (Some new)
    /\ refs.hash (stored (objects.allObjects (there w)) (here w)) new = Ret (Some hash)
    /\ store (stored (objects.allObjects (there w)) (here w)) !! hash <> None
    /\ refs.isRef (refs.toRemoteRef remote branch) = true
    /\ w' = mkWorld
              (set_vfiles
                 (insert "FETCH_HEAD" (new +:+ " branch " +:+ branch +:+ " of " +:+ url))
                 (set_vfiles (insert (refs.toRemoteRef remote branch) hash)
                    (stored (objects.allObjects (there w)) (here w))))
              (there w).
Proof.
  unfold sync.fetch, sync.local, sync.onRemote. intros Hf.
  apply bind_returns in Hf as (u & w1 & l1 & l2 & H1 & Hf & _).
  apply run_assertInRepo_returns in H1 as [_ ->].
  apply bind_returns in Hf as (known & w1 & l3 & l4 & H1 & Hf & _).
  apply run_gets_returns in H1 as [-> ->]. simpl in Hf.
  destruct (remotes (here w) !! remote) as [url|] eqn:Hurl; [| done].
  apply bind_returns in Hf as (newHash & w1 & l5 & l6 & H1 & Hf & _).
  apply run_reading_returns in H1 as [Hnew ->]. simpl in Hnew.
  destruct newHash as [new|]; [| done].
  apply bind_returns in Hf as (old & w1 & l7 & l8 & H1 & Hf & _).
  apply run_reading_returns in H1 as [_ ->].
  apply bind_returns in Hf as (objs & w1 & l9 & l10 & H1 & Hf & _).
  apply run_gets_returns in H1 as [-> ->]. simpl in Hf.
  apply bind_returns in Hf as (u1 & w1 & l11 & l12 & H1 & Hf & _).
  apply run_returns in H1 as (s1 & l13 & H1 & ->). simpl in H1.
  destruct (forEach_write (objects.allObjects (there w)) (here w)) as [l14 Hcopy].
  rewrite Hcopy in H1. simplify_eq.
  apply bind_returns in Hf as (u2 & w2 & l15 & l16 & H2 & Hf & _).
  apply run_returns in H2 as (s2 & l17 & H2 & ->). simpl in H2.
  apply update_ref_qualified_returns in H2 as (hash & Hh & Hs & Hr & ->);
    [| apply toRemoteRef_not_HEAD].
  apply bind_returns in Hf as (u3 & w3 & l18 & l19 & H3 & Hf & _).
  apply run_returns in H3 as (s3 & l20 & H3 & ->). simpl in H3.
  rewrite write_ref in H3 by done. simplify_eq.
  apply bind_returns in Hf as (forced & w4 & l21 & l22 & H4 & Hf & _).
  apply run_gets_returns in H4 as [_ ->].
  apply mret_returns in Hf as [_ ->].
  exists url, new, hash. repeat split; done.
Qed.

End pairs.

(** C7 (as amended).  After a successful [fetch], FETCH_HEAD holds
    exactly one record, "<hash> branch <branch> of <url>", for the branch
    just fetched: [fetch] overwrites the whole file, so a record that an
    earlier fetch wrote for another branch is no longer there. *)
Theorem fetch_overwrites_FETCH_HEAD `{Env} (remote branch : string) (w w' : world)
    (out : string) (l : list (side * event * world)) :
  sync.fetch (Some remote) (Some branch) w = (Ret out, w', l) ->
  exists url new,
    remotes (here w) !! remote = Some url
    /\ refs.hash (there w) branch = Ret (Some new)
    /\ vfiles (here w') !! "FETCH_HEAD"
       = Some (new +:+ " branch " +:+ branch +:+ " of " +:+ url).
Proof.
  intros Hf. apply fetch_returns in Hf as (url & new & hash & Hu & Hn & _ & _ & _ & ->).
  exists url, new. repeat split; [done | done |]. simpl. apply lookup_insert_eq.
Qed.

(** ** [push] and [fetch] *)
Section push_fetch.
Context `{Env}.
Import Regex RegexFacts.

Lemma remote_not_local x y : "refs/remotes/" +:+ x <> "refs/heads/" +:+ y.
Proof. intros Heq. discriminate Heq. Qed.

Lemma validName_no_slash x y : validName (x +:+ "/" +:+ y) = false.
Proof.
  destruct (validName _) eqn:Hv; [| done]. exfalso.
  apply validName_spec in Hv as [_ Hv].
  rewrite all_chars_app in Hv. apply andb_true_iff in Hv as [_ Hv]. discriminate Hv.
Qed.

Lemma validName_isRef b : validName b = true -> refs.isRef b = true -> b = "HEAD".
Proof.
  intros Hv Hr. apply isRef_RefForm in Hr.
  by destruct Hr as [| | |n Hn|r n Hr Hn].
Qed.

Lemma isRef_toLocalRef b : refs.isRef (refs.toLocalRef b) = true -> validName b = true.
Proof.
  intros Hr. apply isRef_RefForm in Hr. unfold refs.toLocalRef in Hr.
  remember ("refs/heads/" +:+ b) as x eqn:Hx.
  destruct Hr as [| | |n Hn|r n Hr' Hn]; try discriminate Hx.
  apply String.app_inj in Hx. by subst.
Qed.

Lemma stored_has objs s o :
  o ∈ objs -> store (stored objs s) !! hashOf o <> None.
Proof.
  revert s. induction objs as [|x objs IH]; intros s Ho; [by apply elem_of_nil in Ho |].
  change (stored (x :: objs) s) with (stored objs (set_store (insert (hashOf x) x) s)).
  apply elem_of_cons in Ho as [-> | Ho]; [| by apply IH].
  assert (Hs : is_Some (store (set_store (insert (hashOf x) x) s) !! hashOf x)).
  { simpl. rewrite lookup_insert_eq. eauto. }
  apply (stored_keeps objs) in Hs. by destruct Hs as [? ->].
Qed.

(** Copying a content addressed store brings every hash of it along. *)
Lemma copied_has src dst k :
  content_addressed src -> store src !! k <> None ->
  store (stored (objects.allObjects src) dst) !! k <> None.
Proof.
  intros Hca Hk. destruct (store src !! k) as [o|] eqn:Ho; [| done].
  rewrite <- (Hca k o Ho). apply stored_has.
  unfold objects.allObjects. apply list_elem_of_fmap. exists (k, o).
  split; [done |]. by apply elem_of_map_to_list.
Qed.

Lemma fetchHeadBranchToMerge_ext s s' name :
  vfiles s' !! "FETCH_HEAD" = vfiles s !! "FETCH_HEAD" ->
  refs.fetchHeadBranchToMerge s' name = refs.fetchHeadBranchToMerge s name.
Proof. unfold refs.fetchHeadBranchToMerge. by intros ->. Qed.

(** Writing a file that a name does not resolve through leaves its hash
    as it was. *)
Lemma hash_insert_other s k v x :
  k <> "HEAD" -> k <> "FETCH_HEAD" -> refs.terminalRef s x <> Ret k ->
  refs.hash (set_vfiles (insert k v) s) x = refs.hash s x.
Proof.
  intros Hk1 Hk2 Ht. unfold refs.hash.
  assert (Hhead : vfiles (set_vfiles (insert k v) s) !! "HEAD" = vfiles s !! "HEAD")
    by (simpl; by rewrite lookup_insert_ne).
  assert (Hfetch : vfiles (set_vfiles (insert k v) s) !! "FETCH_HEAD"
                   = vfiles s !! "FETCH_HEAD")
    by (simpl; by rewrite lookup_insert_ne).
  change (objects.exists_ (set_vfiles (insert k v) s) (Some x))
    with (objects.exists_ s (Some x)).
  destruct (objects.exists_ s (Some x)); [done |].
  rewrite (terminalRef_ext s _ x Hhead).
  destruct (refs.terminalRef s x) as [t|e]; [| done]. simpl.
  case_bool_decide.
  - rewrite (headBranchName_ext s _ Hhead).
    destruct (refs.headBranchName s); [| done]. simpl.
    by apply fetchHeadBranchToMerge_ext.
  - assert (Hne : k <> t) by congruence.
    unfold refs.exists_. simpl. by rewrite lookup_insert_ne.
Qed.

Lemma terminalRef_cases s x t :
  refs.terminalRef s x = Ret t ->
  (exists g, t = "refs/heads/" +:+ g) \/ t = x.
Proof.
  unfold refs.terminalRef. case_bool_decide; simpl.
  - destruct (refs.isHeadDetached s) as [d|]; [| done]. destruct d; simpl.
    + destruct (refs.isRef x); intros [= <-]; [by right | left; by eexists].
    + destruct (vfiles s !! "HEAD"); [| done].
      destruct (refs.group_after _ _); [| done]. intros [= <-]. left. by eexists.
  - destruct (refs.isRef x); intros [= <-]; [by right | left; by eexists].
Qed.

Lemma terminalRef_HEAD s x :
  refs.terminalRef s x = Ret "HEAD" -> refs.isHeadDetached s = Ret true.
Proof.
  unfold refs.terminalRef. case_bool_decide as Hx; simpl.
  - destruct (refs.isHeadDetached s) as [d|]; [| done]. destruct d; simpl; [done |].
    destruct (vfiles s !! "HEAD"); [| done].
    by destruct (refs.group_after _ _).
  - destruct (refs.isRef x); by intros [= Heq].
Qed.

Lemma nameChar_not_slash c :
  refs.nameChar c = true -> negb (Ascii.eqb c "/") = true.
Proof. destruct c as [[] [] [] [] [] [] [] []]; by vm_compute. Qed.

Lemma isRef_toRemoteRef remote b :
  refs.isRef (refs.toRemoteRef remote b) = true ->
  validName remote = true /\ validName b = true.
Proof.
  intros Hr. apply isRef_RefForm in Hr. unfold refs.toRemoteRef in Hr.
  remember ("refs/remotes/" +:+ remote +:+ "/" +:+ b) as x eqn:Hx.
  destruct Hr as [| | |n Hn|r n Hr' Hn]; try discriminate Hx.
  apply String.app_inj in Hx.
  change (r +:+ String "/" ("" +:+ n) = remote +:+ String "/" ("" +:+ b)) in Hx.
  rewrite !append_nil_l in Hx.
  apply first_sep in Hx as [[-> ->] | (p & -> & ->)]; [done | |].
  - pose proof (validName_no_slash p b) as Hno.
    change (p +:+ "/" +:+ b) with (p +:+ String "/" b) in Hno. congruence.
  - apply validName_spec in Hr' as [_ Hr'].
    apply (all_chars_impl refs.nameChar); [apply nameChar_not_slash | done].
Qed.

Lemma terminalRef_of_name s b :
  validName b = true -> refs.terminalRef s b <> Ret "FETCH_HEAD".
Proof.
  intros Hv Ht. apply terminalRef_cases in Ht as [[g Hg] | <-]; discriminate.
Qed.

(** In a sound repository, the hash of a name that does not resolve to
    FETCH_HEAD is the hash of a stored object. *)
Lemma hash_sound s x g :
  sound s -> refs.terminalRef s x <> Ret "FETCH_HEAD" ->
  refs.hash s x = Ret (Some g) -> store s !! g <> None.
Proof.
  intros Hs Hnf. unfold refs.hash.
  destruct (objects.exists_ s (Some x)) eqn:Hex.
  - intros [= <-]. unfold objects.exists_ in Hex. rewrite read_Some in Hex.
    apply bool_decide_eq_true_1 in Hex as [o Ho]. by rewrite Ho.
  - destruct (refs.terminalRef s x) as [t|e] eqn:Ht; [| done]. simpl.
    case_bool_decide as Hf; [by subst |].
    destruct (refs.exists_ s t) eqn:Hx; [| done]. intros [= Hg].
    apply andb_true_iff in Hx as [Hr _].
    apply (Hs t g). repeat split; [done | done | | done].
    intros ->. by apply (terminalRef_HEAD s x).
Qed.

Lemma forEach_remote_write objs w :
  exists l,
    forEach (fun o => sync.onRemote "" (objects.write o) ≫= fun _ => mret tt) objs w
    = (Ret tt, mkWorld (here w) (stored objs (there w)), l).
Proof.
  revert w. induction objs as [|o objs IH]; intros w; [destruct w; by eexists |].
  change (stored (o :: objs) (there w))
    with (stored objs (set_store (insert (hashOf o) o) (there w))).
  destruct (IH (mkWorld (here w) (set_store (insert (hashOf o) o) (there w)))) as [l Hl].
  simpl. rewrite bind_unfold, bind_unfold.
  unfold sync.onRemote at 1, run at 1, objects.write at 1. simpl.
  rewrite Hl. by eexists.
Qed.

(** What a [push] that returned something else than "Already
    up-to-date" went through. *)
Lemma push_returns remote branch opts w out w' l :
  sync.push (Some remote) (Some branch) opts w = (Ret out, w', l) ->
  out <> "Already up-to-date" ->
  exists giver hashP hashL,
    refs.hash (here w) branch = Ret (Some giver)
    /\ refs.hash (stored (objects.allObjects (here w)) (there w)) giver = Ret (Some hashP)
    /\ refs.isRef (refs.toLocalRef branch) = true
    /\ refs.hash (here w) giver = Ret (Some hashL)
    /\ refs.isRef (refs.toRemoteRef remote branch) = true
    /\ w' = mkWorld
              (set_vfiles (insert (refs.toRemoteRef remote branch) hashL) (here w))
              (set_vfiles (insert (refs.toLocalRef branch) hashP)
                 (stored (objects.allObjects (here w)) (there w))).
Proof.
  unfold sync.push, sync.local. intros Hf Hout.
  apply bind_returns in Hf as (u & w1 & l1 & l2 & H1 & Hf & _).
  apply run_assertInRepo_returns in H1 as [_ ->].
  apply bind_returns in Hf as (known & w1 & l3 & l4 & H1 & Hf & _).
  apply run_gets_returns in H1 as [-> ->]. simpl in Hf.
  destruct (remotes (here w) !! remote) as [url|] eqn:Hurl; [| done].
  apply bind_returns in Hf as (checkedOut & w1 & l5 & l6 & H1 & Hf & _).
  apply run_reading_returns in H1 as [_ ->].
  destruct checkedOut; [done |].
  apply bind_returns in Hf as (receiverHash & w1 & l7 & l8 & H1 & Hf & _).
  apply run_reading_returns in H1 as [_ ->].
  apply bind_returns in Hf as (giverHash & w1 & l9 & l10 & H1 & Hf & _).
  apply run_reading_returns in H1 as [Hgiver ->]. simpl in Hgiver.
  apply bind_returns in Hf as (upToDate & w1 & l11 & l12 & H1 & Hf & _).
  apply run_gets_returns in H1 as [-> ->]. simpl in Hf.
  destruct (objects.isUpToDate (here w) receiverHash giverHash) eqn:Hup.
  { apply mret_returns in Hf as [<- _]. done. }
  destruct giverHash as [giver|]; [| done].
  apply bind_returns in Hf as (canFF & w1 & l13 & l14 & H1 & Hf & _).
  apply run_gets_returns in H1 as [-> ->]. simpl in Hf.
  destruct (negb (version.f opts) && negb _); [done |].
  apply bind_returns in Hf as (objs & w1 & l15 & l16 & H1 & Hf & _).
  apply run_gets_returns in H1 as [-> ->]. simpl in Hf.
  apply bind_returns in Hf as (u1 & w1 & l17 & l18 & H1 & Hf & _).
  destruct (forEach_remote_write (objects.allObjects (here w)) w) as [l19 Hcopy].
  unfold sync.onRemote in *. rewrite Hcopy in H1. simplify_eq.
  apply bind_returns in Hf as (u2 & w2 & l20 & l21 & H2 & Hf & _).
  apply run_returns in H2 as (s2 & l22 & H2 & ->). simpl in H2.
  apply update_ref_qualified_returns in H2 as (hashP & HhP & _ & HrP & ->);
    [| apply toLocalRef_not_HEAD].
  apply bind_returns in Hf as (u3 & w3 & l23 & l24 & H3 & Hf & _).
  apply run_returns in H3 as (s3 & l25 & H3 & ->). simpl in H3.
  apply update_ref_qualified_returns in H3 as (hashL & HhL & _ & HrL & ->);
    [| apply toRemoteRef_not_HEAD].
  apply bind_returns in Hf as (count & w4 & l26 & l27 & H4 & Hf & _).
  apply run_gets_returns in H4 as [_ ->].
  apply mret_returns in Hf as [_ ->].
  exists giver, hashP, hashL. repeat split; done.
Qed.

End push_fetch.

(** C1 (as amended).  After a [push] that returned something else than
    "Already up-to-date", from a sound repository with a content addressed
    store, the ref refs/heads/<b> of the peer and the local
    remote-tracking ref both hold the local hash of the branch, the local
    hash is as before, and [peer.refs.hash(b)] is that hash whenever [b]
    is not "HEAD" and is not the hash of an object of the peer.  After a
    successful [fetch] from a sound peer with a content addressed store,
    the peer is unchanged and the hash of the remote-tracking ref is
    [peer.refs.hash(b)], whenever the name of the remote-tracking ref is
    not the hash of a local object. *)
Theorem push_fetch_symmetry `{Env} :
  (forall (remote b : string) (opts : version.push_opts) (w w' : world)
          (out : string) (l : list (side * event * world)),
     sync.push (Some remote) (Some b) opts w = (Ret out, w', l) ->
     out <> "Already up-to-date" ->
     content_addressed (here w) -> sound (here w) ->
     exists g,
       refs.hash (here w) b = Ret (Some g)
       /\ vfiles (there w') !! ("refs/heads/" +:+ b) = Some g
       /\ vfiles (here w') !! ("refs/remotes/" +:+ remote +:+ "/" +:+ b) = Some g
       /\ refs.hash (here w') b = Ret (Some g)
       /\ (b <> "HEAD" -> store (there w') !! b = None ->
           refs.hash (there w') b = Ret (Some g)))
  /\
  (forall (remote b : string) (w w' : world)
          (out : string) (l : list (side * event * world)),
     sync.fetch (Some remote) (Some b) w = (Ret out, w', l) ->
     content_addressed (there w) -> sound (there w) ->
     store (here w') !! ("refs/remotes/" +:+ remote +:+ "/" +:+ b) = None ->
     there w' = there w
     /\ exists n,
          refs.hash (there w') b = Ret (Some n)
          /\ refs.hash (here w') ("refs/remotes/" +:+ remote +:+ "/" +:+ b) = Ret (Some n)).
Proof.
  split.
  - intros remote b opts w w' out l Hp Hout Hca Hsound.
    apply push_returns in Hp as (g & hashP & hashL & Hg & HhP & HrP & HhL & HrL & ->);
      [| done].
    assert (Hv : validName b = true) by by apply isRef_toLocalRef.
    assert (Hstored : store (here w) !! g <> None).
    { apply (hash_sound _ b); [done | by apply terminalRef_of_name | done]. }
    rewrite hash_of_stored in HhL by done. injection HhL as <-.
    rewrite hash_of_stored in HhP by (by apply copied_has). injection HhP as <-.
    exists g. simpl. repeat split; [done | apply lookup_insert_eq | apply lookup_insert_eq | |].
    + rewrite hash_insert_other; [done | done | done |].
      intros Ht. apply terminalRef_cases in Ht as [[x Hx] | Hx].
      * by apply remote_not_local in Hx.
      * rewrite <- Hx in Hv. unfold refs.toRemoteRef in Hv.
        change ("refs/remotes/" +:+ remote +:+ "/" +:+ b)
          with ("refs" +:+ "/" +:+ "remotes/" +:+ remote +:+ "/" +:+ b) in Hv.
        by rewrite validName_no_slash in Hv.
    + intros Hne Hobj. unfold refs.hash, objects.exists_.
      rewrite read_Some. simpl. rewrite Hobj.
      rewrite bool_decide_eq_false_2 by (by intros [? ?]).
      assert (Hnr : refs.isRef b = false).
      { destruct (refs.isRef b) eqn:Hr; [| done]. by apply validName_isRef in Hr. }
      unfold refs.terminalRef. rewrite bool_decide_eq_false_2 by done. simpl.
      rewrite Hnr. simpl. unfold refs.exists_. rewrite HrP. simpl.
      rewrite lookup_insert_eq. done.
  - intros remote b w w' out l Hf Hca Hsound Hobj.
    apply fetch_returns in Hf as (url & new & hash & Hu & Hn & Hh & Hs & Hr & ->).
    assert (Hstored : store (there w) !! new <> None).
    { apply (hash_sound _ b); [done | | done].
      apply terminalRef_of_name. by apply isRef_toRemoteRef in Hr as [_ Hb]. }
    rewrite hash_of_stored in Hh by (by apply copied_has). injection Hh as <-.
    split; [done |]. exists new. split; [done |]. simpl in *.
    unfold refs.hash, objects.exists_. rewrite read_Some. simpl. rewrite Hobj.
    rewrite bool_decide_eq_false_2 by (by intros [? ?]).
    rewrite terminalRef_qualified; [| apply toRemoteRef_not_HEAD | done]. simpl.
    unfold refs.exists_. fold (refs.toRemoteRef remote b). rewrite Hr. simpl.
    rewrite lookup_insert_ne by done. rewrite lookup_insert_eq. done.
Qed.

(** ** The order of the writes *)
Section order.
Context {W L : Type}.

Lemma writes_only_bind {A B} (P : L -> Prop) (c : M W L A) (k : A -> M W L B) :
  writes_only P c -> (forall a, writes_only P (k a)) -> writes_only P (c ≫= k).
Proof.
  intros Hc Hk w. rewrite bind_unfold. specialize (Hc w). unfold writes in *.
  destruct (c w) as [[[a|e] w1] l1]; simpl in *; [| done].
  specialize (Hk a w1). unfold writes in Hk.
  destruct (k a w1) as [[r w2] l2]; simpl in *. by apply Forall_app.
Qed.

Lemma writes_only_mret {A} (P : L -> Prop) (a : A) : writes_only P (mret a : M W L A).
Proof. intros w. constructor. Qed.



Lemma writes_only_throw {A} (P : L -> Prop) e : writes_only P (throw e : M W L A).
Proof. intros w. constructor. Qed.


Lemma preserves_bind {A B} (I : W -> Prop) (st : L -> W)
    (c : M W L A) (k : A -> M W L B) :
  preserves I st c -> (forall a, preserves I st (k a)) -> preserves I st (c ≫= k).
Proof.
  intros Hc Hk w Hw. rewrite bind_unfold. specialize (Hc w Hw).
  unfold writes, final in *.
  destruct (c w) as [[[a|e] w1] l1]; simpl in *; [| done].
  destruct Hc as [Hl1 Hw1]. specialize (Hk a w1 Hw1). unfold writes, final in Hk.
  destruct (k a w1) as [[r w2] l2]; simpl in *. destruct Hk as [Hl2 Hw2].
  split; [by apply Forall_app | done].
Qed.

Lemma preserves_quiet {A} (I : W -> Prop) (st : L -> W) (c : M W L A) :
  (forall w, final (c w) = w /\ writes (c w) = []) -> preserves I st c.
Proof. intros Hq w Hw. destruct (Hq w) as [-> ->]. by split. Qed.

Lemma preserves_mret {A} (I : W -> Prop) st (a : A) : preserves I st (mret a : M W L A).
Proof. by apply preserves_quiet. Qed.

Lemma preserves_gets {A} (I : W -> Prop) st (g : W -> A) :
  preserves I st (gets g : M W L A).
Proof. by apply preserves_quiet. Qed.

Lemma preserves_reading {A} (I : W -> Prop) st (g : W -> result A) :
  preserves I st (reading g : M W L A).
Proof. by apply preserves_quiet. Qed.

Lemma preserves_throw {A} (I : W -> Prop) st e : preserves I st (throw e : M W L A).
Proof. by apply preserves_quiet. Qed.

Lemma preserves_forEach {A} (I : W -> Prop) st (k : A -> M W L unit) l :
  (forall a, preserves I st (k a)) -> preserves I st (forEach k l).
Proof.
  intros Hk. induction l as [|a l IH]; simpl.
  - apply preserves_mret.
  - apply preserves_bind; auto.
Qed.

Variable ev : L -> event.




Lemma objects_first_none (l : list event) :
  Forall (fun e => isObjectWrite e = false) l -> objects_first l = true.
Proof.
  destruct 1 as [|e l He Hl]; simpl; [done |]. rewrite He.
  apply forallb_forall. intros e' Hin. apply negb_true_iff.
  rewrite List.Forall_forall in Hl. auto.
Qed.

Lemma objects_first_app_r (l1 l2 : list event) :
  objects_first l1 = true -> Forall (fun e => isObjectWrite e = false) l2 ->
  objects_first (l1 ++ l2) = true.
Proof.
  induction l1 as [|e l1 IH]; simpl; intros H1 H2.
  - by apply objects_first_none.
  - destruct (isObjectWrite e); [auto |].
    rewrite forallb_app, H1. simpl. apply forallb_forall. intros e' Hin.
    apply negb_true_iff. rewrite List.Forall_forall in H2. auto.
Qed.



End order.

(** ** The writes of the commands *)
Section command_writes.
Context `{Env}.
Implicit Types P : event * repo -> Prop.













End command_writes.

(** ** No ref is left pointing at a missing object *)
Section soundness.
Context `{Env}.

Lemma preserves_effect (I : repo -> Prop) e g :
  (forall s, I s -> I (g s)) -> preserves I entryState (effect e g).
Proof.
  intros Hg s Hs. unfold writes, final, effect. simpl.
  split; [constructor; [by apply Hg | constructor] | by apply Hg].
Qed.

Lemma preserves_assertInRepo (I : repo -> Prop) : preserves I entryState files.assertInRepo.
Proof.
  apply preserves_quiet. intros s. unfold files.assertInRepo. by destruct (inRepo s).
Qed.

Lemma preserves_assertNotBare (I : repo -> Prop) : preserves I entryState config.assertNotBare.
Proof.
  apply preserves_quiet. intros s. unfold config.assertNotBare. by destruct (bare s).
Qed.













End soundness.

(** ** The writes of [fetch] and [push] *)
Section sync_writes.
Context `{Env}.

Lemma run_writes {A} (Q : side -> event -> Prop) d (c : Cmd A) :
  writes_only (fun x => Q d (entryEvent x)) c ->
  writes_only (fun x => Q (syncSide x) (syncEvent x)) (run d c).
Proof.
  intros Hc w. specialize (Hc (sideOf d w)). unfold run, writes in *.
  destruct (c (sideOf d w)) as [[r s'] l]; simpl in *.
  apply Forall_fmap. eapply Forall_impl; [apply Hc |]. by intros [e s].
Qed.



Lemma run_on_side {A} d (c : Cmd A) : writes_only (fun x => syncSide x = d) (run d c).
Proof.
  apply (run_writes (fun d' _ => d' = d)). intros s. by apply Forall_forall.
Qed.














Lemma fetch_all_local remote branch :
  writes_only (fun x => syncSide x = Local) (sync.fetch remote branch).
Proof.
  unfold sync.fetch, sync.local, sync.onRemote.
  repeat first
    [ apply writes_only_mret
    | apply writes_only_throw
    | apply run_on_side
    | apply writes_only_bind; [| intros ?]
    | match goal with
      | |- writes_only _ (match ?o with Some _ => _ | None => _ end) => destruct o
      end ].
  - apply (run_writes (fun d _ => d = Local)). intros ?. constructor.
  - apply (run_writes (fun d _ => d = Local)). intros ?. constructor.
Qed.


End sync_writes.


(** ** The store stays content addressed *)
Section addressing.
Context `{Env}.

Lemma content_addressed_store s o :
  content_addressed s -> content_addressed (set_store (insert (hashOf o) o) s).
Proof.
  intros Hs k x. simpl. rewrite lookup_insert.
  case_decide; [by intros [= <-]; subst | apply Hs].
Qed.

Lemma kept_write o : preserves content_addressed entryState (objects.write o).
Proof.
  intros s Hs. unfold writes, final, objects.write. simpl.
  split; [constructor; [| constructor] |]; by apply content_addressed_store.
Qed.

Lemma kept_refs_write ref content :
  preserves content_addressed entryState (refs.write ref content).
Proof.
  unfold refs.write. destruct (refs.isRef ref);
    [by apply preserves_effect | apply preserves_mret].
Qed.

Lemma kept_unlinkSync p : preserves content_addressed entryState (refs.unlinkSync p).
Proof.
  intros s Hs. unfold refs.unlinkSync. destruct (vfiles s !! p); [| by split].
  by apply preserves_effect.
Qed.

Lemma kept_rm p : preserves content_addressed entryState (refs.rm p).
Proof.
  unfold refs.rm. destruct (refs.isRef p); [apply kept_unlinkSync | apply preserves_mret].
Qed.

Ltac kept_steps :=
  repeat first
    [ apply preserves_mret
    | apply preserves_gets
    | apply preserves_reading
    | apply preserves_throw
    | apply preserves_assertInRepo
    | apply preserves_assertNotBare
    | apply kept_write
    | apply kept_refs_write
    | apply kept_unlinkSync
    | apply kept_rm
    | apply preserves_bind; [| intros ?]
    | apply preserves_forEach; intros ?
    | match goal with
      | |- preserves _ _ (if ?b then _ else _) => destruct b
      | |- preserves _ _ (match ?o with Some _ => _ | None => _ end) => destruct o
      end ].

Lemma kept_update_ref a b :
  preserves content_addressed entryState (version.update_ref a b).
Proof. unfold version.update_ref. kept_steps. Qed.

(** A content addressed store stays so at every write of [commit]. *)
Lemma commit_keeps_content_addressed opts :
  preserves content_addressed entryState (version.commit opts).
Proof.
  unfold version.commit, version.write_tree, objects.writeCommit.
  repeat first [apply kept_update_ref | progress kept_steps].
Qed.

Lemma run_kept {A} d (c : Cmd A) :
  preserves content_addressed entryState c ->
  preserves (fun w => content_addressed (here w) /\ content_addressed (there w))
    syncState (run d c).
Proof.
  intros Hc w Hw.
  assert (Hs : content_addressed (sideOf d w)) by (destruct Hw, d; done).
  specialize (Hc (sideOf d w) Hs). unfold run, writes, final in *.
  destruct (c (sideOf d w)) as [[r s'] l]; simpl in *. destruct Hc as [Hl Hs'].
  assert (Hon : forall s, content_addressed s ->
            content_addressed (here (onSide d w s))
            /\ content_addressed (there (onSide d w s))).
  { intros s Hcs. destruct Hw. by destruct d. }
  split; [| by apply Hon].
  apply Forall_fmap. eapply Forall_impl; [apply Hl |].
  intros [e s] Hes. by apply Hon.
Qed.

Ltac sync_kept :=
  repeat first
    [ apply preserves_mret
    | apply preserves_throw
    | apply run_kept
    | apply preserves_gets
    | apply preserves_reading
    | apply preserves_assertInRepo
    | apply kept_write
    | apply kept_update_ref
    | apply kept_refs_write
    | apply preserves_bind; [| intros ?]
    | apply preserves_forEach; intros ?
    | match goal with
      | |- preserves _ _ (if ?b then _ else _) => destruct b
      | |- preserves _ _ (match ?o with Some _ => _ | None => _ end) => destruct o
      end ].

(** Content addressed stores on both sides stay so at every write of
    [fetch] and of [push]. *)
Lemma fetch_keeps_content_addressed remote branch :
  preserves (fun w => content_addressed (here w) /\ content_addressed (there w))
    syncState (sync.fetch remote branch).
Proof. unfold sync.fetch, sync.local, sync.onRemote. sync_kept. Qed.

Lemma push_keeps_content_addressed remote branch opts :
  preserves (fun w => content_addressed (here w) /\ content_addressed (there w))
    syncState (sync.push remote branch opts).
Proof. unfold sync.push, sync.local, sync.onRemote. sync_kept. Qed.

End addressing.

(** ** The checks decide the invariants *)
Section checks.
Context `{Env}.

Lemma content_addressedb_spec s : content_addressedb s = true -> content_addressed s.
Proof.
  unfold content_addressedb. rewrite forallb_forall. intros Hall k o Hk.
  specialize (Hall (k, o)). simpl in Hall. apply String.eqb_eq, Hall.
  apply list_elem_of_In. by apply elem_of_map_to_list.
Qed.

Lemma soundb_spec s : soundb s = true -> sound s.
Proof.
  unfold soundb. rewrite forallb_forall. intros Hall ref hash (Hr & Hf & Hd & Hv).
  specialize (Hall (ref, hash)). simpl in Hall.
  rewrite Hr in Hall. simpl in Hall.
  apply String.eqb_neq in Hf. rewrite Hf in Hall. simpl in Hall.
  assert (Hin : In (ref, hash) (map_to_list (vfiles s))).
  { apply list_elem_of_In. by apply elem_of_map_to_list. }
  apply Hall, orb_true_iff in Hin as [Hhead | Hst].
  - apply andb_true_iff in Hhead as [Heq Hdet]. apply String.eqb_eq in Heq.
    rewrite (Hd Heq) in Hdet. discriminate.
  - apply bool_decide_eq_true in Hst. by destruct Hst as [? ->].
Qed.

(** How [refs.hash] resolves its argument, case by case. *)
Lemma hash_resolution s (refOrHash : string) :
  (objects.exists_ s (Some refOrHash) = true ->
     refs.hash s refOrHash = Ret (Some refOrHash))
  /\ (forall t, objects.exists_ s (Some refOrHash) = false ->
        refs.terminalRef s refOrHash = Ret t -> t <> "FETCH_HEAD" ->
        refs.hash s refOrHash
        = Ret (if refs.exists_ s t then vfiles s !! t else None))
  /\ (forall name, objects.exists_ s (Some refOrHash) = false ->
        refs.terminalRef s refOrHash = Ret "FETCH_HEAD" ->
        refs.headBranchName s = Ret name ->
        refs.hash s refOrHash = refs.fetchHeadBranchToMerge s name).
Proof.
  unfold refs.hash. repeat split.
  - by intros ->.
  - intros t -> -> Ht. simpl. rewrite bool_decide_eq_false_2 by done.
    by destruct (refs.exists_ s t).
  - intros name -> -> ->. done.
Qed.

End checks.

(** ** FETCH_HEAD with the record of one fetch *)
Section one_record.
Context `{Env}.
Import Regex RegexFacts.

Lemma plain_notSpace x : plain x = true -> all_chars refs.notSpace x = true.
Proof.
  unfold plain. induction x as [|c x IH]; simpl; [done |].
  intros [[-> _]%andb_true_iff Hx]%andb_true_iff. auto.
Qed.

Lemma plain_dot x : plain x = true -> all_chars refs.dot x = true.
Proof.
  unfold plain. induction x as [|c x IH]; simpl; [done |].
  intros [[_ ->]%andb_true_iff Hx]%andb_true_iff. auto.
Qed.

Lemma no_space_inside x a b :
  all_chars refs.notSpace x = true -> x <> a +:+ String " " b.
Proof. apply (no_sep_inside " "). Qed.

(** Two ways to cut a text at a space, the first one at its first
    space. *)
Lemma first_space a x p y :
  all_chars refs.notSpace a = true ->
  a +:+ String " " x = p +:+ String " " y ->
  (p = a /\ x = y) \/ (exists p', p = a +:+ String " " p' /\ x = p' +:+ String " " y).
Proof. apply (first_sep " "). Qed.

Lemma record_matches_own_branch h b c url post pre :
  all_chars refs.notSpace h = true -> all_chars refs.notSpace b = true ->
  all_chars refs.notSpace c = true -> all_chars refs.notSpace url = true ->
  b <> "branch" ->
  h +:+ " branch " +:+ b +:+ " of " +:+ url = pre +:+ " branch " +:+ c +:+ " of" +:+ post ->
  c = b.
Proof.
  intros Hh Hb Hc Hu Hne Heq.
  change (h +:+ String " " ("branch" +:+ String " " (b +:+ String " " ("of" +:+ String " " url)))
          = pre +:+ String " " ("branch" +:+ String " " (c +:+ String " " ("of" +:+ post))))
    in Heq.
  apply first_space in Heq as [[_ Heq] | (p1 & _ & Heq)]; [| | done].
  - apply String.app_inj in Heq. injection Heq as Heq.
    apply first_space in Heq as [[-> _] | (p' & Hp & _)]; [done | | done].
    by apply no_space_inside in Hp.
  - apply first_space in Heq as [[_ Heq] | (p2 & _ & Heq)]; [| | done].
    + apply first_space in Heq as [[<- _] | (p' & Hp & _)]; [done | | done].
      by apply no_space_inside in Hp.
    + apply first_space in Heq as [[_ Heq] | (p3 & _ & Heq)]; [| | done].
      * apply first_space in Heq as [[Hp _] | (p' & Hp & _)]; [done | done | done].
      * apply first_space in Heq as [[_ Hurl] | (p4 & _ & Hurl)]; [| | done].
        -- by apply no_space_inside in Hurl.
        -- by apply no_space_inside in Hurl.
Qed.

Lemma split_lines_one r :
  all_chars refs.dot r = true -> util.split_lines r = [r].
Proof.
  induction r as [|c r IH]; simpl; [done |].
  intros [Hc Hr]%andb_true_iff. rewrite (IH Hr).
  destruct (Ascii.eqb_spec c (ascii_of_nat 10)) as [-> | _]; [done | done].
Qed.

(** With the record of one fetch in FETCH_HEAD, of a branch that is not
    called "branch" and with fields that hold no space and no line
    terminator, [fetchHeadBranchToMerge] gives the fetched hash for the
    fetched branch and nothing for another name. *)
Lemma fetchHeadBranchToMerge_one_record s h b c url :
  vfiles s !! "FETCH_HEAD" = Some (h +:+ " branch " +:+ b +:+ " of " +:+ url) ->
  h <> "" -> plain h = true -> plain b = true -> plain c = true -> plain url = true ->
  b <> "branch" ->
  refs.fetchHeadBranchToMerge s (Some c)
  = Ret (if decide (c = b) then Some h else None).
Proof.
  intros Hf Hne Hh Hb Hc Hu Hbranch. unfold refs.fetchHeadBranchToMerge. rewrite Hf.
  set (record := h +:+ " branch " +:+ b +:+ " of " +:+ url).
  assert (Hlines : util.lines record = [record]).
  { unfold util.lines. rewrite split_lines_one.
    - rewrite filter_cons_True; [done |]. unfold record. destruct h; [done | discriminate].
    - unfold record. rewrite !all_chars_app.
      rewrite (plain_dot h), (plain_dot b), (plain_dot url) by done. done. }
  rewrite Hlines.
  assert (Hword : refs.first_word record = Some h).
  { apply first_word_spec. exists ("branch " +:+ b +:+ " of " +:+ url).
    split; [done |]. split; [done | by apply plain_notSpace]. }
  destruct (decide (c = b)) as [-> | Hcb].
  - rewrite filter_cons_True.
    + simpl. by rewrite Hword.
    + apply re_match_spec. unfold refs.fetchHeadPattern, refs.atStart.
      change (js_show (Some b)) with b.
      assert (Hrec : record = (h +:+ (" branch " +:+ b +:+ " of")) +:+ (" " +:+ url))
        by (unfold record; rewrite !append_assoc; reflexivity).
      rewrite Hrec. apply MCat; [| apply matches_any].
      apply MCat; [| by apply matches_lit].
      apply matches_plus_cls. split; [done | by apply plain_dot].
  - rewrite filter_cons_False; [done |].
    intros Hm. apply re_match_spec in Hm.
    unfold refs.fetchHeadPattern, refs.atStart in Hm.
    change (js_show (Some c)) with c in Hm.
    apply cat_inv in Hm as (s1 & post & Heq & H1 & _).
    apply cat_inv in H1 as (pre & s2 & -> & _ & H2).
    apply matches_lit in H2 as ->. apply Hcb.
    apply (record_matches_own_branch h b c url post pre);
      try (by apply plain_notSpace); [done |].
    unfold record in Heq. rewrite Heq. by rewrite !append_assoc.
Qed.

End one_record.

(** ** The commands on concrete repositories *)
Section examples.
#[local] Existing Instance example.env.
Import example.

(** C3 (the code departs from the claim).  The repository is on the
    branch [of] and has fetched the branch [branch] of the remote at
    "ofrepo": FETCH_HEAD holds the one record of [branch], the fetched
    branch differs from the current one, and [refs.hash("FETCH_HEAD")] is
    the fetched hash and not none, because the record also matches the
    pattern built for the name [of]. *)
Theorem FETCH_HEAD_read_for_another_branch :
  refs.headBranchName (here fetched_branch) = Ret (Some "of")
  /\ vfiles (here fetched_branch) !! "FETCH_HEAD"
     = Some "2454472336 branch branch of ofrepo"
  /\ refs.hash (there on_branch_of) "branch" = Ret (Some "2454472336")
  /\ refs.hash (here fetched_branch) "FETCH_HEAD" = Ret (Some "2454472336").
Proof. repeat split; vm_compute; reflexivity. Qed.

(** C1 fails as stated: after a successful push of "HEAD" to an empty
    bare peer, the peer has the branch refs/heads/HEAD at the pushed
    commit, and its [refs.hash("HEAD")] still follows its own HEAD to the
    branch master, which does not exist. *)
Lemma push_HEAD_breaks_symmetry :
  outcome (sync.push (Some "origin") (Some "HEAD") {| version.f := false |} pushing)
  = Ret ("To ../dst" +:+ LF +:+ "Count 3" +:+ LF +:+ "HEAD -> HEAD" +:+ LF)
  /\ refs.hash
       (here (final (sync.push (Some "origin") (Some "HEAD") {| version.f := false |} pushing)))
       "HEAD" = Ret (Some "2454472336")
  /\ refs.hash
       (there (final (sync.push (Some "origin") (Some "HEAD") {| version.f := false |} pushing)))
       "HEAD" = Ret None.
Proof. repeat split; vm_compute; reflexivity. Qed.

(** The two other provisos of the amended C1 are needed as well.  A
    branch whose name is the hash of an object of the peer: the push
    succeeds, and [refs.hash] of the peer returns the name itself. *)
Lemma push_of_a_name_that_is_a_peer_hash :
  outcome (sync.push (Some "origin") (Some "topic") {| version.f := true |} pushing_topic)
  = Ret ("To ../dst" +:+ LF +:+ "Count 3" +:+ LF +:+ "topic -> topic" +:+ LF)
  /\ refs.hash
       (here (final (sync.push (Some "origin") (Some "topic")
                       {| version.f := true |} pushing_topic)))
       "topic" = Ret (Some "2454472336")
  /\ refs.hash
       (there (final (sync.push (Some "origin") (Some "topic")
                        {| version.f := true |} pushing_topic)))
       "topic" = Ret (Some "topic").
Proof. repeat split; vm_compute; reflexivity. Qed.

(** A local object filed under the name of the remote-tracking ref: the
    fetch succeeds, and [refs.hash] of that name returns the name. *)
Lemma fetch_into_a_name_that_is_a_local_hash :
  refs.hash (here (final (sync.fetch (Some "origin") (Some "master") cloning_odd)))
    "refs/remotes/origin/master" = Ret (Some "refs/remotes/origin/master")
  /\ refs.hash (there (final (sync.fetch (Some "origin") (Some "master") cloning_odd)))
       "master" = Ret (Some "2454472336").
Proof. repeat split; vm_compute; reflexivity. Qed.

(** C7 fails as stated: after [master] and then [feat] were fetched,
    FETCH_HEAD holds the record of [feat] alone; the record that the
    first fetch wrote for [master] is gone. *)
Lemma second_fetch_drops_first_record :
  vfiles (here fetched_master) !! "FETCH_HEAD"
  = Some "2454472336 branch master of ../src"
  /\ outcome (sync.fetch (Some "origin") (Some "feat") fetched_master)
     = Ret ("From ../src" +:+ LF +:+ "Count 3" +:+ LF +:+ "feat -> origin/feat" +:+ LF)
  /\ util.lines <$> vfiles (here fetched_feat) !! "FETCH_HEAD"
     = Some ["2454472336 branch feat of ../src"].
Proof. repeat split; vm_compute; reflexivity. Qed.

Lemma write_ignores_non_ref_witness :
  refs.isRef "MERGE_MSG" = false
  /\ refs.write "MERGE_MSG" "Merge feat into master" committed = (Ret tt, committed, []).
Proof.
  split; [reflexivity |].
  apply (write_ignores_non_ref "MERGE_MSG" "Merge feat into master" committed).
  reflexivity.
Defined.


Lemma update_index_remove_witness :
  disk committed !! "a.txt" = Some (File ("1" +:+ LF))
  /\ index.hasFile committed "a.txt" 0 = true
  /\ outcome (version.update_index "a.txt"
                {| version.add := false; version.remove := true |} committed)
     = Ret (Some LF)
  /\ idx (final (version.update_index "a.txt"
                   {| version.add := false; version.remove := true |} committed))
       !! ("a.txt", 0) = Some "1529".
Proof.
  split; [vm_compute; reflexivity |]. split; [vm_compute; reflexivity |].
  pose proof (update_index_remove_keeps_file_on_disk committed "a.txt" ("1" +:+ LF)
                {| version.add := false; version.remove := true |}
                ltac:(vm_compute; reflexivity) ltac:(vm_compute; reflexivity)
                ltac:(vm_compute; reflexivity) ltac:(vm_compute; reflexivity)
                ltac:(vm_compute; reflexivity))
    as (_ & Hout & Hidx & _).
  split; [exact Hout | exact Hidx].
Defined.

Lemma commit_nothing_to_commit_witness :
  version.headDesc committed = Ret (Some "master")
  /\ refs.hash (treeWritten committed) "HEAD" = Ret (Some "2454472336")
  /\ store (treeWritten committed) !! "2454472336" = Some (Commit "3832997721" [] "c1")
  /\ hashOf (rootTree (index.toc committed)) = "3832997721"
  /\ outcome (version.commit (Some {| version.m := Some "c2" |}) committed)
     = Throw (Error ("# On master" +:+ LF
                     +:+ "nothing to commit, working directory clean")).
Proof.
  split; [vm_compute; reflexivity |]. split; [vm_compute; reflexivity |].
  split; [vm_compute; reflexivity |]. split; [vm_compute; reflexivity |].
  pose proof (commit_nothing_to_commit committed (Some {| version.m := Some "c2" |})
                (Some "master") "2454472336" "3832997721" [] "c1"
                ltac:(vm_compute; reflexivity) ltac:(vm_compute; reflexivity)
                ltac:(vm_compute; reflexivity) ltac:(vm_compute; reflexivity)
                ltac:(vm_compute; reflexivity))
    as (_ & _ & Hmaster & _).
  apply Hmaster; [vm_compute; reflexivity | reflexivity].
Defined.

Lemma merge_already_up_to_date_witness :
  refs.isHeadDetached committed = Ret false
  /\ refs.hash committed "HEAD" = Ret (Some "2454472336")
  /\ refs.hash committed "master" = Ret (Some "2454472336")
  /\ store committed !! "2454472336" = Some (Commit "3832997721" [] "c1")
  /\ version.merge "master" committed = (Ret "Already up-to-date", committed, []).
Proof.
  split; [vm_compute; reflexivity |]. split; [vm_compute; reflexivity |].
  split; [vm_compute; reflexivity |]. split; [vm_compute; reflexivity |].
  pose proof (merge_already_up_to_date committed "master" "2454472336" "2454472336"
                "3832997721" [] "c1"
                ltac:(vm_compute; reflexivity) ltac:(vm_compute; reflexivity)
                ltac:(vm_compute; reflexivity) ltac:(vm_compute; reflexivity)
                ltac:(vm_compute; reflexivity) ltac:(vm_compute; reflexivity))
    as (_ & Hnoop).
  apply Hnoop. by left.
Defined.

Lemma fetch_overwrites_FETCH_HEAD_witness :
  exists url new,
    remotes (here fetched_master) !! "origin" = Some url
    /\ refs.hash (there fetched_master) "feat" = Ret (Some new)
    /\ vfiles (here fetched_feat) !! "FETCH_HEAD"
       = Some (new +:+ " branch " +:+ "feat" +:+ " of " +:+ url).
Proof.
  apply (fetch_overwrites_FETCH_HEAD "origin" "feat" fetched_master fetched_feat
           ("From ../src" +:+ LF +:+ "Count 3" +:+ LF +:+ "feat -> origin/feat" +:+ LF)
           (writes (sync.fetch (Some "origin") (Some "feat") fetched_master))).
  vm_compute. reflexivity.
Defined.

Lemma push_fetch_symmetry_witness :
  (exists g,
     refs.hash (here pushing) "master" = Ret (Some g)
     /\ vfiles (there (final (sync.push (Some "origin") (Some "master")
                                {| version.f := false |} pushing)))
          !! "refs/heads/master" = Some g
     /\ refs.hash (there (final (sync.push (Some "origin") (Some "master")
                                   {| version.f := false |} pushing))) "master"
        = Ret (Some g))
  /\ (exists n,
        refs.hash (there fetched_master) "master" = Ret (Some n)
        /\ refs.hash (here fetched_master) "refs/remotes/origin/master" = Ret (Some n)).
Proof.
  destruct push_fetch_symmetry as [Hpush Hfetch]. split.
  - destruct (Hpush "origin" "master" {| version.f := false |} pushing
                (final (sync.push (Some "origin") (Some "master")
                          {| version.f := false |} pushing))
                ("To ../dst" +:+ LF +:+ "Count 3" +:+ LF +:+ "master -> master" +:+ LF)
                (writes (sync.push (Some "origin") (Some "master")
                           {| version.f := false |} pushing)))
      as (g & Hg & Hpeer & _ & _ & Hsym).
    + vm_compute. reflexivity.
    + discriminate.
    + apply content_addressedb_spec. vm_compute. reflexivity.
    + apply soundb_spec. vm_compute. reflexivity.
    + exists g. split; [exact Hg |]. split; [exact Hpeer |].
      apply Hsym; [discriminate | vm_compute; reflexivity].
  - destruct (Hfetch "origin" "master" cloning fetched_master
                ("From ../src" +:+ LF +:+ "Count 3" +:+ LF
                 +:+ "master -> origin/master" +:+ LF)
                (writes (sync.fetch (Some "origin") (Some "master") cloning)))
      as (_ & n & Hn & Hlocal).
    + vm_compute. reflexivity.
    + apply content_addressedb_spec. vm_compute. reflexivity.
    + apply soundb_spec. vm_compute. reflexivity.
    + vm_compute. reflexivity.
    + exists n. split; [exact Hn | exact Hlocal].
Defined.


End examples.

(** * Further properties of the code *)

(** ** Names of branches and remotes *)
Section names.
Import Regex RegexFacts.

Lemma toLocalRef_isRef n : refs.isRef (refs.toLocalRef n) = validName n.
Proof.
  apply eq_true_iff_eq. split; [apply isRef_toLocalRef |].
  intros Hn. apply isRef_RefForm. by constructor.
Qed.

Lemma toRemoteRef_isRef r n :
  refs.isRef (refs.toRemoteRef r n) = validName r && validName n.
Proof.
  apply eq_true_iff_eq. rewrite andb_true_iff. split; [apply isRef_toRemoteRef |].
  intros [Hr Hn]. apply isRef_RefForm. by constructor.
Qed.

End names.

(** X1.  The qualified ref that [toLocalRef] makes of a name is of ref syntax
    exactly when the name is of [[A-Za-z-]+], and the one that
    [toRemoteRef] makes of a remote and a name exactly when both are: a
    digit, a dot, an underscore or a slash in a branch name makes a ref
    that [isRef] rejects. *)
Theorem qualified_refs_need_plain_names (remote name : string) :
  refs.isRef (refs.toLocalRef name) = validName name
  /\ refs.isRef (refs.toRemoteRef remote name) = validName remote && validName name
  /\ refs.isRef (refs.toLocalRef "v2") = false
  /\ refs.isRef (refs.toLocalRef "feature/login") = false.
Proof.
  split; [apply toLocalRef_isRef |]. split; [apply toRemoteRef_isRef |]. by split.
Qed.

(** ** The HEAD file *)
Section head_file.
Context `{Env}.
Import Regex RegexFacts.

Lemma take_while_id f s : all_chars f s = true -> refs.take_while f s = s.
Proof.
  induction s as [|c s IH]; simpl; [done |].
  intros [-> Hs]%andb_true_iff. by rewrite IH.
Qed.

Lemma group_after_skip prefix c s :
  refs.strip_prefix prefix (String c s) = None ->
  refs.group_after prefix (String c s) = refs.group_after prefix s.
Proof. intros Hp. simpl. by rewrite Hp. Qed.

Lemma group_after_here prefix s rest :
  refs.strip_prefix prefix s = Some rest ->
  refs.take_while refs.dot rest <> "" ->
  refs.group_after prefix s = Some (refs.take_while refs.dot rest).
Proof.
  intros Hp Hg. destruct s; simpl; rewrite Hp;
    by destruct (refs.take_while refs.dot rest).
Qed.

(** The run of [.] characters at the start of a branch name that is
    followed by nothing or by a line feed. *)
Lemma take_while_branch b tail :
  all_chars refs.dot b = true -> tail = "" \/ tail = LF ->
  refs.take_while refs.dot (b +:+ tail) = b.
Proof.
  intros Hb [-> | ->].
  - rewrite append_nil_r. by apply take_while_id.
  - by apply take_while_app.
Qed.

(** What the readers of HEAD find in a HEAD that names a branch. *)
Lemma attached_HEAD s b tail :
  vfiles s !! "HEAD" = Some ("ref: refs/heads/" +:+ b +:+ tail) ->
  b <> "" -> all_chars refs.dot b = true -> tail = "" \/ tail = LF ->
  refs.isHeadDetached s = Ret false
  /\ refs.headBranchName s = Ret (Some b)
  /\ refs.terminalRef s "HEAD" = Ret ("refs/heads/" +:+ b).
Proof.
  intros Hhead Hne Hb Htail.
  assert (Hrun : refs.take_while refs.dot (b +:+ tail) = b)
    by by apply take_while_branch.
  assert (Hdet : refs.isHeadDetached s = Ret false).
  { unfold refs.isHeadDetached. rewrite Hhead.
    assert (Hm : re_match (refs.anywhere (lit "refs"))
                   ("ref: refs/heads/" +:+ b +:+ tail) = true).
    { apply re_match_spec. unfold refs.anywhere.
      change ("ref: refs/heads/" +:+ b +:+ tail)
        with ("ref: " +:+ ("refs" +:+ ("/heads/" +:+ b +:+ tail))).
      constructor; [apply matches_any |].
      constructor; [by apply matches_lit | apply matches_any]. }
    by rewrite Hm. }
  split; [done |]. split.
  - unfold refs.headBranchName. rewrite Hdet. simpl. rewrite Hhead.
    change ("ref: refs/heads/" +:+ b +:+ tail)
      with (String "r" (String "e" (String "f" (String ":" (String " "
              ("refs/heads/" +:+ (b +:+ tail))))))).
    rewrite !group_after_skip by reflexivity.
    rewrite (group_after_here _ _ (b +:+ tail));
      [by rewrite Hrun | by apply strip_prefix_spec | by rewrite Hrun].
  - unfold refs.terminalRef. rewrite bool_decide_eq_true_2 by done.
    rewrite Hdet. simpl. rewrite Hhead.
    rewrite (group_after_here _ _ (b +:+ tail));
      [by rewrite Hrun | by apply strip_prefix_spec | by rewrite Hrun].
Qed.

Lemma hash_of_attached_HEAD s b tail :
  vfiles s !! "HEAD" = Some ("ref: refs/heads/" +:+ b +:+ tail) ->
  b <> "" -> all_chars refs.dot b = true -> tail = "" \/ tail = LF ->
  store s !! "HEAD" = None ->
  refs.hash s "HEAD"
  = Ret (if validName b then vfiles s !! ("refs/heads/" +:+ b) else None).
Proof.
  intros Hhead Hne Hb Htail Hobj.
  destruct (attached_HEAD s b tail) as (_ & _ & Ht); try done.
  unfold refs.hash, objects.exists_. rewrite read_Some, Hobj.
  rewrite bool_decide_eq_false_2 by (by intros [? ?]).
  rewrite Ht. simpl.
  unfold refs.exists_. fold (refs.toLocalRef b). rewrite toLocalRef_isRef.
  destruct (validName b); [| done]. simpl.
  case_bool_decide as Hf; [done |].
  destruct (vfiles s !! refs.toLocalRef b) eqn:Hv; [| done].
  exfalso. apply Hf. eauto.
Qed.

End head_file.

(** X2.  A HEAD file that holds "ref: refs/heads/<b>", with or without a line
    feed after it, is read back as the branch <b>: HEAD is not detached,
    its branch name is <b> and its terminal ref is refs/heads/<b>.  Its
    hash is what the file of the branch holds when <b> is of
    [[A-Za-z-]+]; a HEAD on a branch of another name has no hash, whatever
    the file of the branch holds. *)
Theorem HEAD_reads_back_its_branch `{Env} (s : repo) (b tail : string) :
  vfiles s !! "HEAD" = Some ("ref: refs/heads/" +:+ b +:+ tail) ->
  b <> "" -> all_chars refs.dot b = true -> tail = "" \/ tail = LF ->
  refs.isHeadDetached s = Ret false
  /\ refs.headBranchName s = Ret (Some b)
  /\ refs.terminalRef s "HEAD" = Ret ("refs/heads/" +:+ b)
  /\ (store s !! "HEAD" = None ->
      refs.hash s "HEAD"
      = Ret (if validName b then vfiles s !! ("refs/heads/" +:+ b) else None)).
Proof.
  intros Hhead Hne Hb Htail.
  destruct (attached_HEAD s b tail) as (Hd & Hn & Ht); try done.
  repeat split; try done. intros Hobj. by apply (hash_of_attached_HEAD s b tail).
Qed.

(** ** Writing, reading and removing a ref *)
Section ref_files.
Context `{Env}.

Lemma exists_written s ref content :
  refs.isRef ref = true ->
  refs.exists_ (set_vfiles (insert ref content) s) ref = true.
Proof.
  intros Hr. unfold refs.exists_. rewrite Hr. simpl.
  rewrite lookup_insert_eq. by apply bool_decide_eq_true_2.
Qed.

(** The hash of a qualified ref, other than HEAD and FETCH_HEAD, that is
    not the hash of an object: what its file holds. *)
Lemma hash_of_qualified s ref :
  refs.isRef ref = true -> ref <> "HEAD" -> ref <> "FETCH_HEAD" ->
  store s !! ref = None ->
  refs.hash s ref = Ret (vfiles s !! ref).
Proof.
  intros Hr Hh Hf Hobj. unfold refs.hash, objects.exists_.
  rewrite read_Some, Hobj. rewrite bool_decide_eq_false_2 by (by intros [? ?]).
  rewrite terminalRef_qualified by done. simpl.
  rewrite bool_decide_eq_false_2 by done.
  unfold refs.exists_. rewrite Hr. simpl.
  case_bool_decide as Hx; [done |].
  destruct (vfiles s !! ref); [| done]. exfalso. apply Hx. eauto.
Qed.

End ref_files.

(** X3.  A ref that [refs.write] wrote is read back: for a name of ref syntax
    other than HEAD and FETCH_HEAD that is not the hash of an object, the
    ref exists after the write and its hash is the content written;
    [refs.rm] then removes it, after which it does not exist and has no
    hash, and a second [refs.rm] throws the error of [fs.unlinkSync] on a
    missing file. *)
Theorem ref_written_is_read_back `{Env} (s : repo) (ref content : string) :
  refs.isRef ref = true -> ref <> "HEAD" -> ref <> "FETCH_HEAD" ->
  store s !! ref = None ->
  refs.exists_ (final (refs.write ref content s)) ref = true
  /\ refs.hash (final (refs.write ref content s)) ref = Ret (Some content)
  /\ outcome (refs.rm ref (final (refs.write ref content s))) = Ret tt
  /\ refs.exists_ (final (refs.rm ref (final (refs.write ref content s)))) ref = false
  /\ refs.hash (final (refs.rm ref (final (refs.write ref content s)))) ref = Ret None
  /\ outcome (refs.rm ref (final (refs.rm ref (final (refs.write ref content s)))))
     = Throw (ENOENT ref).
Proof.
  intros Hr Hh Hf Hobj.
  assert (Hw : final (refs.write ref content s) = set_vfiles (insert ref content) s)
    by by rewrite write_ref.
  assert (Hrm : refs.rm ref (set_vfiles (insert ref content) s)
                = (Ret tt, set_vfiles (delete ref) (set_vfiles (insert ref content) s),
                   [(Unlink ref, set_vfiles (delete ref)
                                   (set_vfiles (insert ref content) s))])).
  { unfold refs.rm, refs.unlinkSync. rewrite Hr. simpl. by rewrite lookup_insert_eq. }
  rewrite Hw, Hrm.
  change (final (Ret tt, ?x, ?l)) with x. change (outcome (Ret tt, ?x, ?l)) with (Ret tt).
  split; [by apply exists_written |].
  split; [rewrite hash_of_qualified by done; simpl; by rewrite lookup_insert_eq |].
  split; [done |].
  split.
  { unfold refs.exists_. simpl. rewrite lookup_delete_eq.
    rewrite bool_decide_eq_false_2 by (by intros [? ?]). apply andb_false_r. }
  split; [rewrite hash_of_qualified by done; simpl; by rewrite lookup_delete_eq |].
  unfold refs.rm, refs.unlinkSync. rewrite Hr. simpl. by rewrite lookup_delete_eq.
Qed.

(** ** [init] and [branch] *)
Section branch.
Context `{Env} `{Helpers}.

(** An update to a stored commit, given by its hash, writes the hash to
    the terminal ref. *)
Lemma update_ref_to_commit a h t s tree ps msg :
  inRepo s = true -> refs.isRef a = true -> refs.terminalRef s a = Ret t ->
  store s !! h = Some (Commit tree ps msg) ->
  version.update_ref a h s = refs.write t h s.
Proof.
  intros Hin Hr Ht Hobj. rewrite update_ref_run by done.
  rewrite hash_of_stored by (by rewrite Hobj).
  unfold objects.exists_. rewrite read_Some, Hobj.
  rewrite bool_decide_eq_true_2 by eauto. simpl.
  by rewrite Hr, Ht.
Qed.

Lemma exists_absent s ref : vfiles s !! ref = None -> refs.exists_ s ref = false.
Proof.
  intros Hv. unfold refs.exists_. rewrite Hv.
  rewrite bool_decide_eq_false_2 by (by intros [? ?]). apply andb_false_r.
Qed.

Lemma branch_run s name h :
  inRepo s = true -> refs.hash s "HEAD" = Ret (Some h) ->
  porcelain.branch (Some name) s
  = (if refs.exists_ s (refs.toLocalRef name)
     then throw (Error ("A branch named " +:+ name +:+ " already exists"))
     else version.update_ref (refs.toLocalRef name) h ≫= fun _ => mret None) s.
Proof.
  intros Hin Hh. unfold porcelain.branch.
  rewrite bind_assertInRepo by done. rewrite bind_reading, Hh.
  rewrite bool_decide_eq_false_2 by done. rewrite bind_gets.
  destruct (refs.exists_ s (refs.toLocalRef name)); [done |].
  by rewrite bind_reading, Hh.
Qed.

Lemma update_ref_fails_or_writes a b s :
  (exists e, version.update_ref a b s = (Throw e, s, []))
  \/ refs.isRef a = true.
Proof.
  destruct (inRepo s) eqn:Hin.
  - rewrite update_ref_run by done.
    destruct (refs.hash s b) as [h|e]; [| eauto].
    destruct (objects.exists_ s h); simpl; [| eauto].
    destruct (refs.isRef a); simpl; [by right | eauto].
  - left. unfold version.update_ref. rewrite bind_unfold.
    unfold files.assertInRepo. rewrite Hin. eauto.
Qed.

End branch.

(** X4.  In an empty directory, [init] leaves a repository on the branch
    master that has no commit: HEAD is not detached and names master, it
    has no hash, the next commit has no parent, and no branch can be
    created yet.  A second [init], with whatever options, changes
    nothing. *)
Theorem init_starts_on_an_empty_master `{Env} `{Helpers}
    (opts opts' : option porcelain.init_opts) (s : repo) (name : string) :
  inRepo s = false ->
  vfiles s !! "refs/heads/master" = None -> vfiles s !! "MERGE_HEAD" = None ->
  store s !! "HEAD" = None ->
  inRepo (porcelain.init opts s) = true
  /\ bare (porcelain.init opts s)
     = match opts with Some o => porcelain.bare_opt o | None => false end
  /\ refs.isHeadDetached (porcelain.init opts s) = Ret false
  /\ refs.headBranchName (porcelain.init opts s) = Ret (Some "master")
  /\ refs.hash (porcelain.init opts s) "HEAD" = Ret None
  /\ refs.commitParentHashes (porcelain.init opts s) = Ret []
  /\ porcelain.branch (Some name) (porcelain.init opts s)
     = (Throw (Error "master not a valid object name"), porcelain.init opts s, [])
  /\ porcelain.init opts' (porcelain.init opts s) = porcelain.init opts s.
Proof.
  intros Hin Hmaster Hmerge Hobj. unfold porcelain.init at 1 2 3 4 5 6 7 8 10.
  rewrite Hin.
  set (s' := mkRepo true _ ∅ _ (store s) (idx s) (disk s)).
  assert (Hhead : vfiles s' !! "HEAD" = Some ("ref: refs/heads/" +:+ "master" +:+ LF))
    by apply lookup_insert_eq.
  destruct (attached_HEAD s' "master" LF) as (Hd & Hn & Ht); try done; [by right |].
  assert (Hh : refs.hash s' "HEAD" = Ret None).
  { rewrite (hash_of_attached_HEAD s' "master" LF); try done; [| by right].
    change (validName "master") with true.
    change ("refs/heads/" +:+ "master") with "refs/heads/master".
    cbn [vfiles s']. rewrite lookup_insert_ne by done. by rewrite Hmaster. }
  repeat split; try done.
  - unfold refs.commitParentHashes. rewrite Hh. simpl.
    unfold merge.isMergeInProgress. simpl. rewrite lookup_insert_ne by done.
    rewrite Hmerge. by rewrite bool_decide_eq_false_2 by (by intros [? ?]).
  - unfold porcelain.branch. rewrite bind_assertInRepo by done.
    rewrite bind_reading, Hh. rewrite bool_decide_eq_true_2 by done.
    by rewrite bind_reading, Hn.
  - unfold porcelain.init. by rewrite Hin.
Qed.

(** X5.  In a repository whose HEAD resolves to a stored commit, [branch] with
    a name of [[A-Za-z-]+] that no branch has yet returns, and its single
    write creates refs/heads/<name> with the hash of HEAD; nothing else
    changes.  Afterwards the name resolves to that commit (when it is
    neither HEAD nor the hash of an object) and HEAD is on the branch it
    was on. *)
Theorem branch_creates_a_ref_at_HEAD `{Env} `{Helpers} (s : repo) (name h : string)
    (tree : string) (ps : list string) (msg : string) :
  inRepo s = true ->
  refs.hash s "HEAD" = Ret (Some h) ->
  store s !! h = Some (Commit tree ps msg) ->
  validName name = true ->
  vfiles s !! ("refs/heads/" +:+ name) = None ->
  porcelain.branch (Some name) s
  = (Ret None, set_vfiles (insert ("refs/heads/" +:+ name) h) s,
     [(RefWrite ("refs/heads/" +:+ name),
       set_vfiles (insert ("refs/heads/" +:+ name) h) s)])
  /\ (store s !! name = None -> name <> "HEAD" ->
      refs.hash (set_vfiles (insert ("refs/heads/" +:+ name) h) s) name = Ret (Some h))
  /\ refs.headBranchName (set_vfiles (insert ("refs/heads/" +:+ name) h) s)
     = refs.headBranchName s.
Proof.
  intros Hin Hh Hobj Hname Hnew.
  assert (Hr : refs.isRef (refs.toLocalRef name) = true) by by rewrite toLocalRef_isRef.
  split; [| split].
  - rewrite (branch_run s name h) by done.
    rewrite exists_absent by done. rewrite bind_unfold.
    rewrite (update_ref_to_commit _ h (refs.toLocalRef name) s tree ps msg); try done.
    + by rewrite write_ref.
    + apply terminalRef_qualified; [apply toLocalRef_not_HEAD | done].
  - intros Hno Hne. unfold refs.hash, objects.exists_. rewrite read_Some. simpl.
    rewrite Hno. rewrite bool_decide_eq_false_2 by (by intros [? ?]).
    assert (Hnr : refs.isRef name = false).
    { destruct (refs.isRef name) eqn:Hx; [| done]. by apply validName_isRef in Hx. }
    unfold refs.terminalRef. rewrite bool_decide_eq_false_2 by done. simpl.
    rewrite Hnr. simpl. rewrite exists_written by done. by rewrite lookup_insert_eq.
  - apply headBranchName_ext. simpl. by rewrite lookup_insert_ne.
Qed.

(** X6.  [branch] never overwrites a branch and never creates one under a name
    outside [[A-Za-z-]+]: for such a name it throws and leaves the
    repository as it was.  Where HEAD resolves to a stored commit, the
    error for a branch that exists is "A branch named <name> already
    exists" and the one for a name of the wrong form is "cannot lock the
    ref refs/heads/<name>". *)
Theorem branch_refuses_taken_and_malformed_names `{Env} `{Helpers} (s : repo)
    (name : string) :
  validName name = false \/ vfiles s !! ("refs/heads/" +:+ name) <> None ->
  (exists e, porcelain.branch (Some name) s = (Throw e, s, []))
  /\ (forall h tree ps msg,
        inRepo s = true -> refs.hash s "HEAD" = Ret (Some h) ->
        store s !! h = Some (Commit tree ps msg) ->
        porcelain.branch (Some name) s
        = (Throw (Error (if validName name
                         then "A branch named " +:+ name +:+ " already exists"
                         else "cannot lock the ref refs/heads/" +:+ name)), s, [])).
Proof.
  intros Hbad.
  assert (Hcase : refs.exists_ s (refs.toLocalRef name) = validName name
                  /\ (validName name = false -> refs.isRef (refs.toLocalRef name) = false)).
  { unfold refs.exists_. rewrite toLocalRef_isRef.
    destruct (validName name) eqn:Hv; [| done]. split; [| done].
    destruct Hbad as [? | Hx]; [done |]. simpl.
    apply bool_decide_eq_true_2. unfold refs.toLocalRef.
    by destruct (vfiles s !! ("refs/heads/" +:+ name)); eauto. }
  destruct Hcase as [Hex Hnr]. split.
  - destruct (inRepo s) eqn:Hin.
    2:{ unfold porcelain.branch. rewrite bind_unfold.
        unfold files.assertInRepo. rewrite Hin. eauto. }
    destruct (refs.hash s "HEAD") as [[h|]|e] eqn:Hh.
    + rewrite (branch_run s name h) by done. rewrite Hex.
      destruct (validName name) eqn:Hv; [eauto |].
      rewrite bind_unfold.
      destruct (update_ref_fails_or_writes (refs.toLocalRef name) h s) as [[e ->] | Hr];
        [eauto |].
      rewrite Hnr in Hr by done. discriminate.
    + unfold porcelain.branch. rewrite bind_assertInRepo by done.
      rewrite bind_reading, Hh. rewrite bool_decide_eq_true_2 by done.
      rewrite bind_reading. destruct (refs.headBranchName s); eauto.
    + unfold porcelain.branch. rewrite bind_assertInRepo by done.
      rewrite bind_reading, Hh. eauto.
  - intros h tree ps msg Hin Hh Hobj. rewrite (branch_run s name h) by done.
    rewrite Hex. destruct (validName name) eqn:Hv; [done |].
    rewrite bind_unfold, update_ref_run by done.
    rewrite hash_of_stored by (by rewrite Hobj).
    unfold objects.exists_. rewrite read_Some, Hobj.
    rewrite bool_decide_eq_true_2 by eauto. simpl.
    rewrite Hnr by done. done.
Qed.

(** ** What the commands leave alone *)
Section frames.
Context `{Env}.
Variable I : repo -> Prop.
Variable K : string -> Prop.
Hypothesis I_insert : forall k v s, K k -> I s -> I (set_vfiles (insert k v) s).
Hypothesis I_delete : forall k s, K k -> I s -> I (set_vfiles (delete k) s).
Hypothesis I_store : forall o s, I s -> I (set_store (insert (hashOf o) o) s).

Lemma frame_objects_write o : preserves I entryState (objects.write o).
Proof.
  intros s Hs. unfold writes, final, objects.write. simpl.
  split; [constructor; [| constructor] |]; by apply I_store.
Qed.

Lemma frame_refs_write ref content :
  K ref -> preserves I entryState (refs.write ref content).
Proof.
  intros Hk. unfold refs.write. destruct (refs.isRef ref); [| apply preserves_mret].
  apply preserves_effect. intros s. by apply I_insert.
Qed.

Lemma frame_unlinkSync p : K p -> preserves I entryState (refs.unlinkSync p).
Proof.
  intros Hk s Hs. unfold refs.unlinkSync. destruct (vfiles s !! p); [| by split].
  apply preserves_effect; [| done]. intros s'. by apply I_delete.
Qed.

Lemma frame_rm p : K p -> preserves I entryState (refs.rm p).
Proof.
  intros Hk. unfold refs.rm. destruct (refs.isRef p);
    [by apply frame_unlinkSync | apply preserves_mret].
Qed.

Lemma frame_update_ref a b :
  K a -> (a = "HEAD" -> forall k, K k) ->
  preserves I entryState (version.update_ref a b).
Proof.
  intros Hk Hhead s Hs. destruct (inRepo s) eqn:Hin.
  - rewrite update_ref_run by done.
    destruct (refs.hash s b) as [h|e]; [| by split].
    destruct (objects.exists_ s h); cbn [negb]; [| by split].
    destruct (refs.isRef a) eqn:Hr; cbn [negb]; [| by split].
    destruct (refs.terminalRef s a) as [t|e] eqn:Ht; [| by split].
    case_bool_decide; cbn [negb]; [| by split].
    apply frame_refs_write; [| done].
    destruct (decide (a = "HEAD")) as [Ha | Ha]; [by apply Hhead |].
    rewrite terminalRef_qualified in Ht by done. by injection Ht as <-.
  - unfold version.update_ref. rewrite bind_unfold.
    unfold files.assertInRepo. rewrite Hin. by split.
Qed.

Lemma frame_update_index path opts :
  (forall f s, I s -> I (set_idx f s)) ->
  preserves I entryState (version.update_index path opts).
Proof.
  intros I_idx. unfold version.update_index, index.writeRm, index.writeNonConflict.
  repeat first
    [ apply preserves_mret
    | apply preserves_gets
    | apply preserves_throw
    | apply preserves_assertInRepo
    | apply preserves_assertNotBare
    | apply frame_objects_write
    | apply preserves_effect; intros ?; apply I_idx
    | apply preserves_bind; [| intros ?]
    | match goal with
      | |- preserves _ _ (if ?b then _ else _) => destruct b
      | |- preserves _ _ (match ?o with Some _ => _ | None => _ end) => destruct o
      | |- preserves _ _ (match ?n with File _ => _ | Directory => _ end) => destruct n
      end ].
Qed.

Lemma frame_commit opts :
  (forall k, K k) -> preserves I entryState (version.commit opts).
Proof.
  intros Hall. unfold version.commit, version.write_tree, objects.writeCommit.
  repeat first
    [ apply preserves_mret
    | apply preserves_gets
    | apply preserves_reading
    | apply preserves_throw
    | apply preserves_assertInRepo
    | apply preserves_assertNotBare
    | apply frame_objects_write
    | apply frame_update_ref; [apply Hall | intros _; apply Hall]
    | apply frame_unlinkSync; apply Hall
    | apply frame_rm; apply Hall
    | apply preserves_bind; [| intros ?]
    | apply preserves_forEach; intros ?
    | match goal with
      | |- preserves _ _ (if ?b then _ else _) => destruct b
      | |- preserves _ _ (match ?o with Some _ => _ | None => _ end) => destruct o
      end ].
Qed.

End frames.

Section sides.
Context `{Env}.

(** A call on one side keeps what holds of that side and leaves the other
    side as it is. *)
Lemma run_preserves_sides (Il Ir : repo -> Prop) {A} d (c : Cmd A) :
  preserves (match d with Local => Il | Remote => Ir end) entryState c ->
  preserves (fun w => Il (here w) /\ Ir (there w)) syncState (run d c).
Proof.
  intros Hc w [Hl Hr].
  assert (Hs : match d with Local => Il | Remote => Ir end (sideOf d w))
    by (by destruct d).
  specialize (Hc (sideOf d w) Hs). unfold run, writes, final in *.
  destruct (c (sideOf d w)) as [[r s'] l]; simpl in *. destruct Hc as [Hlog Hs'].
  assert (Hon : forall s, match d with Local => Il | Remote => Ir end s ->
            Il (here (onSide d w s)) /\ Ir (there (onSide d w s)))
    by (intros s Hds; by destruct d).
  split; [| by apply Hon].
  apply Forall_fmap. eapply Forall_impl; [apply Hlog |].
  intros [e s] Hes. by apply Hon.
Qed.

Lemma sameButFiles_refl K s : sameButFiles K s s.
Proof. by repeat split. Qed.

Lemma keepsObjects_refl s : keepsObjects s s.
Proof. by intros k. Qed.

Lemma sameButFiles_insert (K : string -> Prop) s0 k v s :
  K k -> sameButFiles K s0 s -> sameButFiles K s0 (set_vfiles (insert k v) s).
Proof.
  intros Hk (? & ? & ? & ? & ? & Hv). repeat split; try done.
  intros k' Hk'. simpl. rewrite lookup_insert_ne by (by intros ->). by apply Hv.
Qed.

Lemma sameButFiles_delete (K : string -> Prop) s0 k s :
  K k -> sameButFiles K s0 s -> sameButFiles K s0 (set_vfiles (delete k) s).
Proof.
  intros Hk (? & ? & ? & ? & ? & Hv). repeat split; try done.
  intros k' Hk'. simpl. rewrite lookup_delete_ne by (by intros ->). by apply Hv.
Qed.

Lemma keepsObjects_store s0 o s :
  keepsObjects s0 s -> keepsObjects s0 (set_store (insert (hashOf o) o) s).
Proof.
  intros Hs k Hk. simpl. rewrite lookup_insert. case_decide; [eauto | by apply Hs].
Qed.

End sides.

(** X14.  [commit] never touches the index, the working copy or the config, and
    it never takes an object away: this holds of the state it ends in and
    of the state after each of its writes, whether it returns or
    throws. *)
Theorem commit_leaves_index_and_working_copy `{Env}
    (opts : option version.commit_opts) (s : repo) :
  Forall (fun x => sameButFiles (fun _ => True) s (entryState x)
                   /\ keepsObjects s (entryState x))
    (writes (version.commit opts s))
  /\ sameButFiles (fun _ => True) s (final (version.commit opts s))
  /\ keepsObjects s (final (version.commit opts s)).
Proof.
  apply (frame_commit (fun x => sameButFiles (fun _ => True) s x /\ keepsObjects s x)
           (fun _ => True)); try done.
  - intros k v x _ [? ?]. split; [by apply sameButFiles_insert | done].
  - intros k x _ [? ?]. split; [by apply sameButFiles_delete | done].
  - intros o x [(? & ? & ? & ? & ? & ?) ?]. split; [done | by apply keepsObjects_store].
  - split; [apply sameButFiles_refl | apply keepsObjects_refl].
Qed.

Section sync_frames.
Context `{Env}.

Lemma copy_preserves (I : repo -> Prop) objs :
  (forall o s, I s -> I (set_store (insert (hashOf o) o) s)) ->
  preserves I entryState (forEach (fun o => objects.write o ≫= fun _ => mret tt) objs).
Proof.
  intros I_store. apply preserves_forEach. intros o.
  apply preserves_bind; [| intros ?; apply preserves_mret].
  intros s Hs. unfold writes, final, objects.write. simpl.
  split; [constructor; [| constructor] |]; by apply I_store.
Qed.

(** What [fetch] keeps on the two sides. *)
Lemma fetch_frame (Il Ir : repo -> Prop) remote branch :
  (forall v s, Il s -> Il (set_vfiles (insert (refs.toRemoteRef remote branch) v) s)) ->
  (forall v s, Il s -> Il (set_vfiles (insert "FETCH_HEAD" v) s)) ->
  (forall o s, Il s -> Il (set_store (insert (hashOf o) o) s)) ->
  preserves (fun w => Il (here w) /\ Ir (there w)) syncState
    (sync.fetch (Some remote) (Some branch)).
Proof.
  intros I_ref I_fetch I_store. unfold sync.fetch, sync.local, sync.onRemote.
  apply preserves_bind;
    [apply run_preserves_sides, preserves_assertInRepo | intros _].
  apply preserves_bind; [apply run_preserves_sides, preserves_gets | intros known].
  destruct known as [url|]; [| apply preserves_throw].
  apply preserves_bind; [apply run_preserves_sides, preserves_reading | intros newHash].
  destruct newHash as [new|]; [| apply preserves_throw].
  apply preserves_bind; [apply run_preserves_sides, preserves_reading | intros old].
  apply preserves_bind; [apply run_preserves_sides, preserves_gets | intros objs].
  apply preserves_bind; [by apply run_preserves_sides, copy_preserves | intros _].
  apply preserves_bind.
  { apply run_preserves_sides.
    apply (frame_update_ref Il (fun k => k = refs.toRemoteRef remote branch)).
    - by intros k v s ->; apply I_ref.
    - done.
    - intros Hhead. by apply toRemoteRef_not_HEAD in Hhead. }
  intros _. apply preserves_bind.
  { apply run_preserves_sides.
    apply (frame_refs_write Il (fun k => k = "FETCH_HEAD")); [| done].
    by intros k v s ->; apply I_fetch. }
  intros _.
  apply preserves_bind; [apply run_preserves_sides, preserves_gets | intros forced].
  apply preserves_mret.
Qed.

(** What [push] keeps on the two sides. *)
Lemma push_frame (Il Ir : repo -> Prop) remote branch opts :
  (forall v s, Il s -> Il (set_vfiles (insert (refs.toRemoteRef remote branch) v) s)) ->
  (forall v s, Ir s -> Ir (set_vfiles (insert (refs.toLocalRef branch) v) s)) ->
  (forall o s, Ir s -> Ir (set_store (insert (hashOf o) o) s)) ->
  preserves (fun w => Il (here w) /\ Ir (there w)) syncState
    (sync.push (Some remote) (Some branch) opts).
Proof.
  intros I_remote I_local I_store. unfold sync.push, sync.local, sync.onRemote.
  apply preserves_bind;
    [apply run_preserves_sides, preserves_assertInRepo | intros _].
  apply preserves_bind; [apply run_preserves_sides, preserves_gets | intros known].
  destruct known as [url|]; [| apply preserves_throw].
  apply preserves_bind; [apply run_preserves_sides, preserves_reading | intros checkedOut].
  destruct checkedOut; [apply preserves_throw |].
  apply preserves_bind; [apply run_preserves_sides, preserves_reading | intros receiver].
  apply preserves_bind; [apply run_preserves_sides, preserves_reading | intros giver].
  apply preserves_bind; [apply run_preserves_sides, preserves_gets | intros upToDate].
  destruct upToDate; [apply preserves_mret |].
  apply preserves_bind; [apply run_preserves_sides, preserves_gets | intros canFF].
  destruct (_ && _); [apply preserves_throw |].
  apply preserves_bind; [apply run_preserves_sides, preserves_gets | intros objs].
  apply preserves_bind.
  { apply preserves_forEach. intros o.
    apply preserves_bind; [| intros ?; apply preserves_mret].
    apply run_preserves_sides. intros s Hs. unfold writes, final, objects.write. simpl.
    split; [constructor; [| constructor] |]; by apply I_store. }
  intros _. apply preserves_bind.
  { apply run_preserves_sides.
    apply (frame_update_ref Ir (fun k => k = refs.toLocalRef branch)).
    - by intros k v s ->; apply I_local.
    - done.
    - intros Hhead. by apply toLocalRef_not_HEAD in Hhead. }
  intros _. apply preserves_bind.
  { apply run_preserves_sides.
    apply (frame_update_ref Il (fun k => k = refs.toRemoteRef remote branch)).
    - by intros k v s ->; apply I_remote.
    - done.
    - intros Hhead. by apply toRemoteRef_not_HEAD in Hhead. }
  intros _.
  apply preserves_bind; [apply run_preserves_sides, preserves_gets | intros count].
  apply preserves_mret.
Qed.

End sync_frames.

(** What [fetch] leaves as it was, on both sides. *)
Lemma fetch_keeps `{Env} (remote branch : string) (w : world) :
  there (final (sync.fetch (Some remote) (Some branch) w)) = there w
  /\ sameButFiles (fun k => k = refs.toRemoteRef remote branch \/ k = "FETCH_HEAD")
       (here w) (here (final (sync.fetch (Some remote) (Some branch) w)))
  /\ keepsObjects (here w) (here (final (sync.fetch (Some remote) (Some branch) w))).
Proof.
  pose (Il := fun s =>
    sameButFiles (fun k => k = refs.toRemoteRef remote branch \/ k = "FETCH_HEAD")
      (here w) s /\ keepsObjects (here w) s).
  destruct (fetch_frame Il (fun s => s = there w) remote branch) with (w := w)
    as [_ [[Hl1 Hl2] Hr]].
  - intros v s [? ?]. split; [apply sameButFiles_insert; auto | done].
  - intros v s [? ?]. split; [apply sameButFiles_insert; auto | done].
  - intros o s [(? & ? & ? & ? & ? & ?) ?]. split; [done | by apply keepsObjects_store].
  - split; [| done]. split; [apply sameButFiles_refl | apply keepsObjects_refl].
  - done.
Qed.


(** X22.  [fetch] does not change the local branch: whether it returns or
    throws, the repository of the peer is as it was, and in the local
    repository only the objects directory, the remote-tracking ref
    refs/remotes/<remote>/<branch> and FETCH_HEAD can differ; HEAD, every
    branch, the index, the working copy and the config are as they were,
    and no object was taken away. *)
Theorem fetch_changes_only_what_it_records `{Env} (remote branch : string) (w : world) :
  there (final (sync.fetch (Some remote) (Some branch) w)) = there w
  /\ sameButFiles (fun k => k = refs.toRemoteRef remote branch \/ k = "FETCH_HEAD")
       (here w) (here (final (sync.fetch (Some remote) (Some branch) w)))
  /\ keepsObjects (here w) (here (final (sync.fetch (Some remote) (Some branch) w))).
Proof. apply fetch_keeps. Qed.

(** X27.  [push] changes one ref on each side and adds objects to the peer:
    whether it returns or throws, the local repository differs at most in
    the remote-tracking ref refs/remotes/<remote>/<branch>, its objects
    included, and the peer differs at most in refs/heads/<branch> and in
    the objects it gained; the index and the working copy of the peer are
    not brought up to date. *)
Theorem push_changes_one_ref_on_each_side `{Env} (remote branch : string)
    (opts : version.push_opts) (w : world) :
  sameButFiles (fun k => k = refs.toRemoteRef remote branch)
    (here w) (here (final (sync.push (Some remote) (Some branch) opts w)))
  /\ store (here (final (sync.push (Some remote) (Some branch) opts w))) = store (here w)
  /\ sameButFiles (fun k => k = refs.toLocalRef branch)
       (there w) (there (final (sync.push (Some remote) (Some branch) opts w)))
  /\ keepsObjects (there w) (there (final (sync.push (Some remote) (Some branch) opts w))).
Proof.
  pose (Il := fun s =>
    sameButFiles (fun k => k = refs.toRemoteRef remote branch) (here w) s
    /\ store s = store (here w)).
  pose (Ir := fun s =>
    sameButFiles (fun k => k = refs.toLocalRef branch) (there w) s
    /\ keepsObjects (there w) s).
  destruct (push_frame Il Ir remote branch opts) with (w := w)
    as [_ [[Hl1 Hl2] [Hr1 Hr2]]]; try done.
  - intros v s [? ?]. split; [by apply sameButFiles_insert | done].
  - intros v s [? ?]. split; [by apply sameButFiles_insert | done].
  - intros o s [(? & ? & ? & ? & ? & ?) ?]. split; [done | by apply keepsObjects_store].
  - split; split; try done; try apply sameButFiles_refl. apply keepsObjects_refl.
Qed.

(** ** [pull] *)
Section pull.
Context `{Env}.

Lemma preserves_anything {L A} (st : L -> repo) (c : M repo L A) :
  preserves (fun _ => True) st c.
Proof. intros s _. split; [by apply Forall_forall | done]. Qed.

(** A call on the local side leaves the peer as it is. *)
Lemma local_keeps_peer (Ir : repo -> Prop) {A} (c : Cmd A) :
  preserves (fun w => True /\ Ir (there w)) syncState (run Local c).
Proof. apply (run_preserves_sides (fun _ => True) Ir Local), preserves_anything. Qed.

Lemma fetch_keeps_peer (Ir : repo -> Prop) remote branch :
  preserves (fun w => True /\ Ir (there w)) syncState (sync.fetch remote branch).
Proof.
  destruct remote as [remote|], branch as [branch|];
    try (unfold sync.fetch, sync.local;
         apply preserves_bind; [apply local_keeps_peer | intros _; apply preserves_throw]).
  by apply (fetch_frame (fun _ => True) Ir).
Qed.

Lemma pull_keeps_peer (Ir : repo -> Prop) remote branch :
  preserves (fun w => True /\ Ir (there w)) syncState (porcelain.pull remote branch).
Proof.
  unfold porcelain.pull, sync.local.
  apply preserves_bind; [apply local_keeps_peer | intros _].
  apply preserves_bind; [apply local_keeps_peer | intros _].
  apply preserves_bind; [apply fetch_keeps_peer | intros _].
  apply local_keeps_peer.
Qed.

Lemma pull_all_local remote branch :
  writes_only (fun x => syncSide x = Local) (porcelain.pull remote branch).
Proof.
  unfold porcelain.pull, sync.local.
  apply writes_only_bind; [apply run_on_side | intros _].
  apply writes_only_bind; [apply run_on_side | intros _].
  apply writes_only_bind; [apply fetch_all_local | intros _].
  apply run_on_side.
Qed.


End pull.

(** X28.  [pull] never writes to the peer: whether it returns or throws, the
    repository of the peer is as it was, and every write of its log is on
    the local side. *)
Theorem pull_leaves_the_peer_alone `{Env} (remote branch : option string) (w : world) :
  there (final (porcelain.pull remote branch w)) = there w
  /\ Forall (fun x => syncSide x = Local) (writes (porcelain.pull remote branch w)).
Proof.
  split; [| apply pull_all_local].
  by destruct (pull_keeps_peer (fun s => s = there w) remote branch w) as [_ [_ ?]].
Qed.


(** ** A commit that goes through *)
Section commit_success.
Context `{Env}.

Lemma nameChar_plain c : refs.nameChar c = true -> refs.notSpace c && refs.dot c = true.
Proof. destruct c as [[] [] [] [] [] [] [] []]; by vm_compute. Qed.

Lemma validName_plain n : validName n = true -> plain n = true.
Proof.
  intros [_ Hn]%validName_spec. unfold plain.
  eapply all_chars_impl; [apply nameChar_plain | done].
Qed.

Lemma validName_dot n : validName n = true -> n <> "" /\ all_chars refs.dot n = true.
Proof.
  intros Hn. split; [by apply validName_spec in Hn as [? _] |].
  by apply plain_dot, validName_plain.
Qed.

Lemma stored_lookup_other objs s k :
  k ∉ hashOf <$> objs -> store (stored objs s) !! k = store s !! k.
Proof.
  revert s. induction objs as [|o objs IH]; intros s Hk; [done |].
  change (stored (o :: objs) s) with (stored objs (set_store (insert (hashOf o) o) s)).
  rewrite fmap_cons in Hk. apply not_elem_of_cons in Hk as [Hne Hk].
  rewrite IH by done. simpl. by rewrite lookup_insert_ne.
Qed.

Lemma stored_lookup_None objs s k :
  store (stored objs s) !! k = None -> k ∉ hashOf <$> objs.
Proof.
  intros Hnone Hin. apply list_elem_of_fmap in Hin as (o & -> & Ho).
  by apply (stored_has objs s o) in Ho.
Qed.

Lemma treeWritten_stored s : treeWritten s = stored (trees_of s) s.
Proof. unfold treeWritten, trees_of, stored. by rewrite foldl_app. Qed.

Lemma commit_run s b tail msg :
  inRepo s = true -> bare s = false ->
  vfiles s !! "HEAD" = Some ("ref: refs/heads/" +:+ b +:+ tail) ->
  validName b = true -> tail = "" \/ tail = LF ->
  vfiles s !! "MERGE_HEAD" = None ->
  store (treeWritten s) !! "HEAD" = None ->
  objects.treeHash (objects.read (treeWritten s) (vfiles s !! ("refs/heads/" +:+ b)))
  <> Some (hashOf (rootTree (index.toc s))) ->
  exists l,
    version.commit (Some {| version.m := Some msg |}) s
    = (Ret ("[" +:+ b +:+ " " +:+ hashOf (next_commit s b msg) +:+ "] " +:+ msg),
       set_vfiles (insert ("refs/heads/" +:+ b) (hashOf (next_commit s b msg)))
         (set_store (insert (hashOf (next_commit s b msg)) (next_commit s b msg))
            (treeWritten s)),
       l).
Proof.
  intros Hin Hbare Hhead Hb Htail Hmerge Hobj Hdiff.
  destruct (validName_dot b Hb) as [Hne Hdot].
  destruct (write_tree_run s Hin) as [l0 Hw].
  destruct (treeWritten_fields s) as (Hin1 & _ & _ & Hvf & _ & _).
  set (s1 := treeWritten s) in *.
  set (c := next_commit s b msg).
  set (s2 := set_store (insert (hashOf c) c) s1).
  assert (Hhead1 : vfiles s1 !! "HEAD" = Some ("ref: refs/heads/" +:+ b +:+ tail))
    by by rewrite Hvf.
  destruct (attached_HEAD s1 b tail) as (Hd1 & Hn1 & Ht1); try done.
  assert (Hh1 : refs.hash s1 "HEAD" = Ret (vfiles s !! ("refs/heads/" +:+ b))).
  { rewrite (hash_of_attached_HEAD s1 b tail) by done. by rewrite Hb, Hvf. }
  assert (Hm1 : merge.isMergeInProgress s1 = false).
  { unfold merge.isMergeInProgress. rewrite Hvf, Hmerge.
    by rewrite bool_decide_eq_false_2 by (by intros [? ?]). }
  assert (Hparents : refs.commitParentHashes s1
            = Ret (match vfiles s !! ("refs/heads/" +:+ b) with
                   | Some p => [Some p]
                   | None => []
                   end)).
  { unfold refs.commitParentHashes. rewrite Hh1. simpl. rewrite Hm1.
    by destruct (vfiles s !! ("refs/heads/" +:+ b)). }
  assert (Hc : objects.writeCommit (hashOf (rootTree (index.toc s))) (Some msg)
                 (match vfiles s !! ("refs/heads/" +:+ b) with
                  | Some p => [Some p]
                  | None => []
                  end) s1
               = (Ret (hashOf c), s2, [(ObjectWrite (hashOf c), s2)])).
  { subst s2 c. unfold objects.writeCommit, objects.write, next_commit.
    by destruct (vfiles s !! ("refs/heads/" +:+ b)). }
  assert (Hu : version.update_ref "HEAD" (hashOf c) s2
               = (Ret tt, set_vfiles (insert ("refs/heads/" +:+ b) (hashOf c)) s2,
                  [(RefWrite ("refs/heads/" +:+ b),
                    set_vfiles (insert ("refs/heads/" +:+ b) (hashOf c)) s2)])).
  { assert (Hin2 : inRepo s2 = true) by (change (inRepo s1 = true); by rewrite Hin1).
    assert (Ht2 : refs.terminalRef s2 "HEAD" = Ret ("refs/heads/" +:+ b))
      by (rewrite <- Ht1; by apply terminalRef_ext).
    assert (Hc2 : store s2 !! hashOf c = Some c) by apply lookup_insert_eq.
    rewrite (update_ref_to_commit "HEAD" (hashOf c) ("refs/heads/" +:+ b) s2
               (hashOf (rootTree (index.toc s)))
               (match vfiles s !! ("refs/heads/" +:+ b) with Some p => [p] | None => [] end)
               msg Hin2 eq_refl Ht2 Hc2).
    apply write_ref. fold (refs.toLocalRef b). by rewrite toLocalRef_isRef. }
  eexists. unfold version.commit.
  rewrite bind_assertInRepo, bind_assertNotBare by done.
  rewrite bind_unfold, Hw.
  rewrite bind_reading. unfold version.headDesc at 1. rewrite Hd1. simpl. rewrite Hn1.
  rewrite bind_reading, Hh1. rewrite bind_gets.
  rewrite (bool_decide_eq_false_2 (Some _ = objects.treeHash _)) by congruence.
  rewrite andb_false_r. rewrite !bind_gets. rewrite Hm1. simpl.
  rewrite bind_mret. rewrite bind_reading, Hparents.
  rewrite bind_unfold, Hc. rewrite bind_unfold, Hu.
  rewrite bind_gets.
  assert (Hm3 : merge.isMergeInProgress
                  (set_vfiles (insert ("refs/heads/" +:+ b) (hashOf c)) s2) = false).
  { unfold merge.isMergeInProgress.
    change (vfiles (set_vfiles (insert ("refs/heads/" +:+ b) (hashOf c)) s2))
      with (<["refs/heads/" +:+ b := hashOf c]> (vfiles s1)).
    rewrite lookup_insert_ne by done.
    rewrite Hvf, Hmerge. by rewrite bool_decide_eq_false_2 by (by intros [? ?]). }
  rewrite Hm3. simpl. reflexivity.
Qed.

End commit_success.

Section fields.
Context {W L A : Type}.

Lemma outcome_triple (r : result A) (w : W) (l : list L) : outcome (r, w, l) = r.
Proof. reflexivity. Qed.

Lemma final_triple (r : result A) (w : W) (l : list L) : final (r, w, l) = w.
Proof. reflexivity. Qed.

Lemma writes_triple (r : result A) (w : W) (l : list L) : writes (r, w, l) = l.
Proof. reflexivity. Qed.

End fields.

Lemma vfiles_set_vfiles f s : vfiles (set_vfiles f s) = f (vfiles s).
Proof. reflexivity. Qed.

Lemma vfiles_set_store f s : vfiles (set_store f s) = vfiles s.
Proof. reflexivity. Qed.

Lemma store_set_vfiles f s : store (set_vfiles f s) = store s.
Proof. reflexivity. Qed.

Lemma store_set_store f s : store (set_store f s) = f (store s).
Proof. reflexivity. Qed.

(** X10.  Outside a merge, with HEAD on a branch <b> of [[A-Za-z-]+] and an
    index that differs from the tree of the commit of the branch,
    [commit] returns "[<b> <hash>] <message>": it stores the commit made
    of the tree of the index, the former commit of the branch as the only
    parent (none on a branch without a commit) and the message, and it
    writes the hash of that commit to refs/heads/<b>.  The HEAD file is
    not rewritten, and HEAD resolves to the new commit. *)
Theorem commit_moves_the_branch `{Env} (s : repo) (b tail msg : string) :
  inRepo s = true -> bare s = false ->
  vfiles s !! "HEAD" = Some ("ref: refs/heads/" +:+ b +:+ tail) ->
  validName b = true -> tail = "" \/ tail = LF ->
  vfiles s !! "MERGE_HEAD" = None ->
  store (treeWritten s) !! "HEAD" = None ->
  objects.treeHash (objects.read (treeWritten s) (vfiles s !! ("refs/heads/" +:+ b)))
  <> Some (hashOf (rootTree (index.toc s))) ->
  outcome (version.commit (Some {| version.m := Some msg |}) s)
  = Ret ("[" +:+ b +:+ " " +:+ hashOf (next_commit s b msg) +:+ "] " +:+ msg)
  /\ final (version.commit (Some {| version.m := Some msg |}) s)
     = set_vfiles (insert ("refs/heads/" +:+ b) (hashOf (next_commit s b msg)))
         (set_store (insert (hashOf (next_commit s b msg)) (next_commit s b msg))
            (treeWritten s))
  /\ store (final (version.commit (Some {| version.m := Some msg |}) s))
       !! hashOf (next_commit s b msg) = Some (next_commit s b msg)
  /\ vfiles (final (version.commit (Some {| version.m := Some msg |}) s)) !! "HEAD"
     = vfiles s !! "HEAD"
  /\ (hashOf (next_commit s b msg) <> "HEAD" ->
      refs.hash (final (version.commit (Some {| version.m := Some msg |}) s)) "HEAD"
      = Ret (Some (hashOf (next_commit s b msg)))).
Proof.
  intros Hin Hbare Hhead Hb Htail Hmerge Hobj Hdiff.
  destruct (commit_run s b tail msg) as [l Hrun]; try done.
  destruct (validName_dot b Hb) as [Hne Hdot].
  destruct (treeWritten_fields s) as (_ & _ & _ & Hvf & _ & _).
  rewrite Hrun. rewrite outcome_triple, final_triple.
  rewrite !vfiles_set_vfiles, !store_set_vfiles, !store_set_store, !vfiles_set_store.
  split; [done |]. split; [done |].
  split; [apply lookup_insert_eq |].
  split; [rewrite lookup_insert_ne by done; by rewrite Hvf |].
  intros Hc. rewrite (hash_of_attached_HEAD _ b tail); try done.
  - rewrite Hb. rewrite vfiles_set_vfiles. by rewrite lookup_insert_eq.
  - rewrite vfiles_set_vfiles, vfiles_set_store.
    rewrite lookup_insert_ne by done. by rewrite Hvf.
  - rewrite store_set_vfiles, store_set_store. by rewrite lookup_insert_ne.
Qed.

(** X11.  A commit that went through cannot be repeated: right after it, with
    the index as it is, [commit] throws "# On <b>" and "nothing to commit,
    working directory clean", whatever its options.  (The hash of the
    commit is not the text HEAD and is not the hash of a tree of the
    index.) *)
Theorem commit_again_has_nothing_to_commit `{Env} (s : repo) (b tail msg : string)
    (opts' : option version.commit_opts) :
  inRepo s = true -> bare s = false ->
  vfiles s !! "HEAD" = Some ("ref: refs/heads/" +:+ b +:+ tail) ->
  validName b = true -> tail = "" \/ tail = LF ->
  vfiles s !! "MERGE_HEAD" = None ->
  store (treeWritten s) !! "HEAD" = None ->
  objects.treeHash (objects.read (treeWritten s) (vfiles s !! ("refs/heads/" +:+ b)))
  <> Some (hashOf (rootTree (index.toc s))) ->
  hashOf (next_commit s b msg) <> "HEAD" ->
  hashOf (next_commit s b msg) ∉ hashOf <$> trees_of s ->
  outcome (version.commit opts' (final (version.commit (Some {| version.m := Some msg |}) s)))
  = Throw (Error ("# On " +:+ b +:+ LF +:+ "nothing to commit, working directory clean")).
Proof.
  intros Hin Hbare Hhead Hb Htail Hmerge Hobj Hdiff Hc Hfresh.
  destruct (commit_run s b tail msg) as [l Hrun]; try done.
  destruct (validName_dot b Hb) as [Hne Hdot].
  destruct (treeWritten_fields s) as (Hin1 & Hbare1 & _ & Hvf & Hidx & _).
  rewrite Hrun, final_triple.
  set (c := next_commit s b msg) in *.
  set (s' := set_vfiles (insert ("refs/heads/" +:+ b) (hashOf c))
               (set_store (insert (hashOf c) c) (treeWritten s))).
  assert (Hin' : inRepo s' = true) by (change (inRepo (treeWritten s) = true); congruence).
  assert (Hbare' : bare s' = false)
    by (change (bare (treeWritten s) = false); congruence).
  assert (Htoc : index.toc s' = index.toc s).
  { unfold index.toc. change (idx s') with (idx (treeWritten s)). by rewrite Hidx. }
  assert (Htrees : trees_of s' = trees_of s) by (unfold trees_of; by rewrite Htoc).
  destruct (write_tree_run s' Hin') as [l' Hw].
  destruct (treeWritten_fields s') as (_ & _ & _ & Hvf' & _ & _).
  assert (Hnohead : "HEAD" ∉ hashOf <$> trees_of s).
  { apply (stored_lookup_None _ s). by rewrite <- treeWritten_stored. }
  assert (Hst : forall k, k ∉ hashOf <$> trees_of s ->
                  store (treeWritten s') !! k = store s' !! k).
  { intros k Hk. rewrite treeWritten_stored, Htrees. by apply stored_lookup_other. }
  assert (Hhead' : vfiles (treeWritten s') !! "HEAD"
                   = Some ("ref: refs/heads/" +:+ b +:+ tail)).
  { rewrite Hvf'. unfold s'. rewrite vfiles_set_vfiles, vfiles_set_store.
    rewrite lookup_insert_ne by done. by rewrite Hvf. }
  destruct (attached_HEAD (treeWritten s') b tail) as (Hd' & Hn' & _); try done.
  assert (Hh' : refs.hash (treeWritten s') "HEAD" = Ret (Some (hashOf c))).
  { rewrite (hash_of_attached_HEAD _ b tail); try done.
    - rewrite Hb, Hvf'. unfold s'. rewrite vfiles_set_vfiles. by rewrite lookup_insert_eq.
    - rewrite Hst by done. unfold s'. rewrite store_set_vfiles, store_set_store.
      by rewrite lookup_insert_ne. }
  assert (Hobj' : store (treeWritten s') !! hashOf c = Some c).
  { rewrite Hst by done. unfold s'. rewrite store_set_vfiles, store_set_store.
    apply lookup_insert_eq. }
  unfold version.commit.
  rewrite bind_assertInRepo, bind_assertNotBare by done.
  rewrite (outcome_bind _ _ _ _ _ _ Hw).
  rewrite bind_reading. unfold version.headDesc at 1. rewrite Hd'. simpl. rewrite Hn'.
  rewrite bind_reading, Hh'. rewrite bind_gets.
  rewrite read_Some, Hobj'. simpl. rewrite Htoc.
  by rewrite bool_decide_eq_true_2.
Qed.

(** ** [update_index] and [add] *)
Section staging.
Context `{Env} `{Helpers}.

(** The repository after the file [p], of content [c], was staged. *)
Lemma update_index_adds p c s :
  inRepo s = true -> bare s = false -> disk s !! p = Some (File c) ->
  version.update_index p {| version.add := true; version.remove := false |} s
  = (Ret (Some LF),
     set_idx (fun i => <[(p, 0) := hashOf (Blob c)]>
                         (delete (p, 1) (delete (p, 2) (delete (p, 3) i))))
       (set_store (insert (hashOf (Blob c)) (Blob c)) s),
     [(ObjectWrite (hashOf (Blob c)), set_store (insert (hashOf (Blob c)) (Blob c)) s);
      (IndexWrite,
       set_idx (fun i => <[(p, 0) := hashOf (Blob c)]>
                           (delete (p, 1) (delete (p, 2) (delete (p, 3) i))))
         (set_store (insert (hashOf (Blob c)) (Blob c)) s))]).
Proof.
  intros Hin Hbare Hdisk. unfold version.update_index.
  rewrite bind_assertInRepo, bind_assertNotBare by done.
  rewrite !bind_gets. rewrite Hdisk. simpl.
  by destruct (index.hasFile s p 0).
Qed.

Lemma add_each files s :
  inRepo s = true -> bare s = false ->
  (forall p, p ∈ files -> exists c, disk s !! p = Some (File c)) ->
  exists s' l,
    forEach (fun p =>
               version.update_index p {| version.add := true; version.remove := false |}
               ≫= fun _ => mret tt) files s
    = (Ret tt, s', l)
    /\ disk s' = disk s /\ vfiles s' = vfiles s
    /\ keepsObjects s s'
    /\ (forall p c, p ∈ files -> disk s !! p = Some (File c) ->
          idx s' !! (p, 0) = Some (hashOf (Blob c))
          /\ idx s' !! (p, 1) = None /\ idx s' !! (p, 2) = None /\ idx s' !! (p, 3) = None
          /\ is_Some (store s' !! hashOf (Blob c)))
    /\ (forall p n, p ∉ files -> idx s' !! (p, n) = idx s !! (p, n)).
Proof.
  revert s. induction files as [|p files IH]; intros s Hin Hbare Hfiles.
  - exists s, []. split; [done |]. split; [done |]. split; [done |].
    split; [apply keepsObjects_refl |]. split; [| done].
    intros p c Hp. by apply elem_of_nil in Hp.
  - destruct (Hfiles p) as [c Hc]; [by left |].
    set (s1 := set_idx (fun i => <[(p, 0) := hashOf (Blob c)]>
                         (delete (p, 1) (delete (p, 2) (delete (p, 3) i))))
                 (set_store (insert (hashOf (Blob c)) (Blob c)) s)).
    destruct (IH s1) as (s' & l & Hrun & Hdisk & Hvf & Hkeep & Hin_files & Hout);
      [done | done | intros q Hq; apply Hfiles; by right |].
    exists s'. eexists. split; [| split; [done | split; [done | split; [| split]]]].
    + cbn [forEach]. rewrite bind_unfold, bind_unfold.
      rewrite (update_index_adds p c s) by done. fold s1.
      cbn [mret M_ret]. rewrite Hrun. reflexivity.
    + intros k Hk. apply Hkeep. unfold s1. simpl.
      rewrite lookup_insert. case_decide; eauto.
    + intros q d Hq Hd.
      destruct (decide (q ∈ files)) as [Hqf | Hqf]; [by apply Hin_files |].
      apply elem_of_cons in Hq as [-> | Hq]; [| done].
      rewrite Hc in Hd. injection Hd as <-.
      rewrite !Hout by done. unfold s1. simpl.
      rewrite lookup_insert_eq.
      rewrite !lookup_insert_ne by (intros [= ?]; lia).
      rewrite lookup_delete_eq.
      rewrite (lookup_delete_ne _ (p, 1) (p, 2)) by (intros [= ?]; lia).
      rewrite lookup_delete_eq.
      rewrite (lookup_delete_ne _ (p, 1) (p, 3)) by (intros [= ?]; lia).
      rewrite (lookup_delete_ne _ (p, 2) (p, 3)) by (intros [= ?]; lia).
      rewrite lookup_delete_eq.
      repeat split; try done.
      apply Hkeep. unfold s1. simpl. rewrite lookup_insert_eq. eauto.
    + intros q n Hq. apply not_elem_of_cons in Hq as [Hne Hq].
      rewrite Hout by done. unfold s1. simpl.
      rewrite lookup_insert_ne by congruence.
      by rewrite !lookup_delete_ne by congruence.
Qed.

End staging.

(** X9.  [update_index] either throws, and then it has written nothing and
    the repository is as it was, or it returns a line feed: the cases of
    its analysis leave no call without an answer. *)
Theorem update_index_throws_early_or_answers `{Env} (path : string)
    (opts : version.index_opts) (s : repo) :
  (exists e, version.update_index path opts s = (Throw e, s, []))
  \/ outcome (version.update_index path opts s) = Ret (Some LF).
Proof.
  unfold version.update_index.
  destruct (inRepo s) eqn:Hin.
  2:{ left. rewrite bind_unfold. unfold files.assertInRepo. rewrite Hin. eauto. }
  rewrite bind_assertInRepo by done.
  destruct (bare s) eqn:Hbare.
  { left. rewrite bind_unfold. unfold config.assertNotBare. rewrite Hbare. eauto. }
  rewrite bind_assertNotBare by done. rewrite !bind_gets.
  destruct opts as [add remove].
  destruct (disk s !! path) as [[c|]|], (index.hasFile s path 0), add, remove; simpl;
    try (left; eauto; fail); try (by right);
    rewrite bind_gets; destruct (index.isFileInConflict s path);
    try (left; eauto; fail); by right.
Qed.

(** X8.  In a repository that is not bare, [add] of a path under which
    [lsRecursive] lists files returns, and every file it lists is staged:
    its stage 0 entry is the hash of the blob of its content on disk, the
    blob is in the store and the path is not in conflict.  The working
    copy, the files below the version directory and the index entries of
    other paths are as they were. *)
Theorem add_stages_every_listed_file `{Env} `{Helpers} (s : repo) (path : string) :
  inRepo s = true -> bare s = false ->
  lsRecursive s path <> [] ->
  (forall p, p ∈ lsRecursive s path -> exists c, disk s !! p = Some (File c)) ->
  outcome (porcelain.add path s) = Ret tt
  /\ (forall p c, p ∈ lsRecursive s path -> disk s !! p = Some (File c) ->
        idx (final (porcelain.add path s)) !! (p, 0) = Some (hashOf (Blob c))
        /\ is_Some (store (final (porcelain.add path s)) !! hashOf (Blob c))
        /\ index.isFileInConflict (final (porcelain.add path s)) p = false)
  /\ disk (final (porcelain.add path s)) = disk s
  /\ vfiles (final (porcelain.add path s)) = vfiles s
  /\ (forall p n, p ∉ lsRecursive s path ->
        idx (final (porcelain.add path s)) !! (p, n) = idx s !! (p, n)).
Proof.
  intros Hin Hbare Hsome Hfiles.
  destruct (add_each (lsRecursive s path) s Hin Hbare Hfiles)
    as (s' & l & Hrun & Hdisk & Hvf & _ & Hstaged & Hout).
  assert (Hadd : porcelain.add path s = (Ret tt, s', l)).
  { unfold porcelain.add. rewrite bind_assertInRepo, bind_assertNotBare by done.
    rewrite bind_gets. by rewrite bool_decide_eq_false_2. }
  rewrite Hadd, outcome_triple, final_triple. repeat split; try done.
  - by apply Hstaged.
  - by apply (Hstaged p c).
  - destruct (Hstaged p c) as (_ & Hs1 & Hs2 & Hs3 & _); [done | done |].
    unfold index.isFileInConflict, index.hasFile. rewrite Hs1, Hs2, Hs3.
    by rewrite !bool_decide_eq_false_2 by (by intros [? ?]).
Qed.

(** ** A fetch and a push that go through *)
Section sync_success.
Context `{Env}.

Lemma run_bind_gets {A B} d (g : repo -> A) (k : A -> Sync B) w :
  (run d (gets g) ≫= k) w = k (g (sideOf d w)) w.
Proof.
  rewrite bind_unfold. unfold run, gets. rewrite onSide_sideOf.
  by destruct (k (g (sideOf d w)) w) as [[? ?] ?].
Qed.

Lemma run_bind_reading {A B} d (g : repo -> result A) (k : A -> Sync B) w :
  (run d (reading g) ≫= k) w =
  match g (sideOf d w) with
  | Ret a => k a w
  | Throw e => (Throw e, w, [])
  end.
Proof.
  rewrite bind_unfold. unfold run, reading. rewrite onSide_sideOf.
  destruct (g (sideOf d w)) as [a|e]; [| done]. by destruct (k a w) as [[? ?] ?].
Qed.

Lemma run_bind_assertInRepo {B} d (k : unit -> Sync B) w :
  inRepo (sideOf d w) = true -> (run d files.assertInRepo ≫= k) w = k tt w.
Proof.
  intros Hin. rewrite bind_unfold. unfold run, files.assertInRepo. rewrite Hin.
  rewrite onSide_sideOf. by destruct (k tt w) as [[? ?] ?].
Qed.

(** A store that is content addressed is copied object by object. *)
Lemma copied_object src dst k o :
  content_addressed src -> store src !! k = Some o ->
  store (stored (objects.allObjects src) dst) !! k = Some o.
Proof.
  intros Hca Hk.
  assert (Hall : forall objs s,
            (forall o', o' ∈ objs -> store src !! hashOf o' = Some o') ->
            o ∈ objs \/ store s !! k = Some o ->
            store (stored objs s) !! k = Some o).
  { induction objs as [|x objs IH]; intros s Hobjs Hin.
    - destruct Hin as [Hin | Hs]; [by apply elem_of_nil in Hin | done].
    - change (stored (x :: objs) s) with (stored objs (set_store (insert (hashOf x) x) s)).
      apply IH; [intros o' Ho'; apply Hobjs; by right |].
      destruct (decide (hashOf x = k)) as [Hx | Hx].
      + right. simpl. rewrite Hx, lookup_insert_eq.
        pose proof (Hobjs x ltac:(by left)) as Hsrc. rewrite Hx in Hsrc. congruence.
      + destruct Hin as [Hin | Hs].
        * apply elem_of_cons in Hin as [Heq | Hin]; [| by left].
          exfalso. apply Hx. rewrite <- Heq. by apply Hca.
        * right. simpl. by rewrite lookup_insert_ne. }
  apply Hall.
  - intros o' Ho'. unfold objects.allObjects in Ho'.
    apply list_elem_of_fmap in Ho' as ([k' x] & -> & Hx).
    apply elem_of_map_to_list in Hx. simpl. by rewrite (Hca k' x Hx).
  - left. unfold objects.allObjects. apply list_elem_of_fmap. exists (k, o).
    split; [done |]. by apply elem_of_map_to_list.
Qed.

Lemma update_ref_writes a h s tree ps msg :
  inRepo s = true -> refs.isRef a = true -> a <> "HEAD" ->
  store s !! h = Some (Commit tree ps msg) ->
  version.update_ref a h s
  = (Ret tt, set_vfiles (insert a h) s, [(RefWrite a, set_vfiles (insert a h) s)]).
Proof.
  intros Hin Hr Ha Hobj.
  rewrite (update_ref_to_commit a h a s tree ps msg); try done.
  - by apply write_ref.
  - by apply terminalRef_qualified.
Qed.

Lemma fetch_run remote branch url new w tree ps msg :
  inRepo (here w) = true ->
  remotes (here w) !! remote = Some url ->
  validName remote = true -> validName branch = true ->
  refs.hash (there w) branch = Ret (Some new) ->
  store (there w) !! new = Some (Commit tree ps msg) ->
  content_addressed (there w) ->
  exists (forced : bool) l,
    sync.fetch (Some remote) (Some branch) w
    = (Ret (String.concat LF
              ["From " +:+ url;
               "Count " +:+ pretty (length (objects.allObjects (there w)));
               branch +:+ " -> " +:+ remote +:+ "/" +:+ branch
                 +:+ (if forced then " (forced)" else "")] +:+ LF),
       mkWorld
         (set_vfiles
            (insert "FETCH_HEAD" (new +:+ " branch " +:+ branch +:+ " of " +:+ url))
            (set_vfiles (insert (refs.toRemoteRef remote branch) new)
               (stored (objects.allObjects (there w)) (here w))))
         (there w),
       l).
Proof.
  intros Hin Hurl Hremote Hbranch Hnew Hobj Hca.
  destruct w as [hw tw]. cbn [here there] in *.
  destruct (forEach_write (objects.allObjects tw) hw) as [l1 Hcopy].
  set (s1 := stored (objects.allObjects tw) hw) in *.
  assert (Hin1 : inRepo s1 = true)
    by (destruct (stored_fields (objects.allObjects tw) hw) as (Hs1 & _);
        unfold s1; congruence).
  assert (Hobj1 : store s1 !! new = Some (Commit tree ps msg)) by by apply copied_object.
  assert (Hr : refs.isRef (refs.toRemoteRef remote branch) = true)
    by by rewrite toRemoteRef_isRef, Hremote, Hbranch.
  unfold sync.fetch, sync.local, sync.onRemote.
  rewrite run_bind_assertInRepo by done.
  rewrite run_bind_gets. cbn [sideOf here there]. rewrite Hurl.
  rewrite run_bind_reading. cbn [sideOf here there]. rewrite Hnew.
  rewrite run_bind_reading. cbn [sideOf here there].
  destruct (refs.hash hw (refs.toRemoteRef remote branch)) as [old|e] eqn:Hold.
  2:{ exfalso. revert Hold. unfold refs.hash.
      destruct (objects.exists_ hw _); [done |].
      rewrite terminalRef_qualified by (done || apply toRemoteRef_not_HEAD). simpl.
      by destruct (refs.exists_ hw _). }
  rewrite run_bind_gets. cbn [sideOf here there].
  rewrite bind_unfold. rewrite (run_result Local _ (mkWorld hw tw) _ _ _ Hcopy).
  cbn [onSide here there]. rewrite bind_unfold.
  rewrite (run_result Local _ (mkWorld s1 tw) _ _ _
             (update_ref_writes _ new s1 tree ps msg Hin1 Hr
                (toRemoteRef_not_HEAD _ _) Hobj1)).
  cbn [onSide here there]. rewrite bind_unfold.
  rewrite (run_result Local _
             (mkWorld (set_vfiles (insert (refs.toRemoteRef remote branch) new) s1) tw)
             _ _ _ (write_ref "FETCH_HEAD" _ _ eq_refl)).
  cbn [onSide here there]. rewrite run_bind_gets. eauto.
Qed.

Lemma push_run remote branch url g receiver opts w tree ps msg :
  inRepo (here w) = true -> inRepo (there w) = true ->
  remotes (here w) !! remote = Some url ->
  validName remote = true -> validName branch = true ->
  refs.isCheckedOut (there w) branch = Ret false ->
  refs.hash (there w) branch = Ret receiver ->
  refs.hash (here w) branch = Ret (Some g) ->
  store (here w) !! g = Some (Commit tree ps msg) ->
  content_addressed (here w) ->
  objects.isUpToDate (here w) receiver (Some g) = false ->
  version.f opts = true \/ merge.canFastForward (here w) receiver (Some g) = true ->
  exists l,
    sync.push (Some remote) (Some branch) opts w
    = (Ret (String.concat LF
              ["To " +:+ url;
               "Count " +:+ pretty (length (objects.allObjects (here w)));
               branch +:+ " -> " +:+ branch] +:+ LF),
       mkWorld
         (set_vfiles (insert (refs.toRemoteRef remote branch) g) (here w))
         (set_vfiles (insert (refs.toLocalRef branch) g)
            (stored (objects.allObjects (here w)) (there w))),
       l).
Proof.
  intros Hin Hin' Hurl Hremote Hbranch Hco Hrec Hg Hobj Hca Hup Hff.
  destruct w as [hw tw]. cbn [here there] in *.
  destruct (forEach_remote_write (objects.allObjects hw) (mkWorld hw tw)) as [l1 Hcopy].
  cbn [here there] in Hcopy.
  set (t1 := stored (objects.allObjects hw) tw) in *.
  assert (Hin1 : inRepo t1 = true)
    by (destruct (stored_fields (objects.allObjects hw) tw) as (Ht1 & _);
        unfold t1; congruence).
  assert (Hobj1 : store t1 !! g = Some (Commit tree ps msg)) by by apply copied_object.
  assert (Hrr : refs.isRef (refs.toRemoteRef remote branch) = true)
    by by rewrite toRemoteRef_isRef, Hremote, Hbranch.
  assert (Hrl : refs.isRef (refs.toLocalRef branch) = true)
    by by rewrite toLocalRef_isRef.
  unfold sync.push, sync.local, sync.onRemote in *.
  rewrite run_bind_assertInRepo by done.
  rewrite run_bind_gets. cbn [sideOf here there]. rewrite Hurl.
  rewrite run_bind_reading. cbn [sideOf here there]. rewrite Hco.
  rewrite run_bind_reading. cbn [sideOf here there]. rewrite Hrec.
  rewrite run_bind_reading. cbn [sideOf here there]. rewrite Hg.
  rewrite run_bind_gets. cbn [sideOf here there]. rewrite Hup.
  rewrite run_bind_gets. cbn [sideOf here there].
  assert (Hgo : negb (version.f opts)
                && negb (merge.canFastForward hw receiver (Some g)) = false).
  { destruct Hff as [-> | ->]; [done | apply andb_false_r]. }
  rewrite Hgo. rewrite run_bind_gets. cbn [sideOf here there].
  change (js_show (Some g)) with g.
  rewrite bind_unfold, Hcopy. rewrite bind_unfold.
  rewrite (run_result Remote _ (mkWorld hw t1) _ _ _
             (update_ref_writes _ g t1 tree ps msg Hin1 Hrl
                (toLocalRef_not_HEAD _) Hobj1)).
  cbn [onSide here there]. rewrite bind_unfold.
  rewrite (run_result Local _
             (mkWorld hw (set_vfiles (insert (refs.toLocalRef branch) g) t1)) _ _ _
             (update_ref_writes _ g hw tree ps msg Hin Hrr
                (toRemoteRef_not_HEAD _ _) Hobj)).
  cbn [onSide here there]. rewrite run_bind_gets. cbn [sideOf here there]. eauto.
Qed.

End sync_success.

(** X21.  [fetch] goes through whenever the remote is known, its name and the
    name of the branch are of [[A-Za-z-]+], and the branch of the peer
    resolves to a commit of its content addressed store.  It returns its
    report; afterwards the remote-tracking ref holds the hash of that
    commit, the commit is in the local store, and so is every object of
    the peer, under the hash it has there. *)
Theorem fetch_brings_the_branch_and_the_objects `{Env} (remote branch url new : string)
    (w : world) (tree : string) (ps : list string) (msg : string) :
  inRepo (here w) = true ->
  remotes (here w) !! remote = Some url ->
  validName remote = true -> validName branch = true ->
  refs.hash (there w) branch = Ret (Some new) ->
  store (there w) !! new = Some (Commit tree ps msg) ->
  content_addressed (there w) ->
  (exists forced : bool,
     outcome (sync.fetch (Some remote) (Some branch) w)
     = Ret (String.concat LF
              ["From " +:+ url;
               "Count " +:+ pretty (length (objects.allObjects (there w)));
               branch +:+ " -> " +:+ remote +:+ "/" +:+ branch
                 +:+ (if forced then " (forced)" else "")] +:+ LF))
  /\ vfiles (here (final (sync.fetch (Some remote) (Some branch) w)))
       !! ("refs/remotes/" +:+ remote +:+ "/" +:+ branch) = Some new
  /\ store (there w) ⊆ store (here (final (sync.fetch (Some remote) (Some branch) w))).
Proof.
  intros Hin Hurl Hremote Hbranch Hnew Hobj Hca.
  destruct (fetch_run remote branch url new w tree ps msg) as (forced & l & Hrun);
    try done.
  rewrite Hrun, outcome_triple, final_triple. cbn [here].
  split; [by exists forced |]. split.
  - rewrite vfiles_set_vfiles. rewrite lookup_insert_ne by done.
    rewrite vfiles_set_vfiles. apply lookup_insert_eq.
  - rewrite !store_set_vfiles. apply map_subseteq_spec. intros k o Hk.
    by apply copied_object.
Qed.

(** X25.  [push] goes through whenever the remote is known, its name and the
    name of the branch are of [[A-Za-z-]+], the peer does not have the
    branch checked out, the local branch resolves to a commit of the
    content addressed local store that the peer does not have yet on that
    branch, and the update is a fast-forward or [-f] was given.  With
    [-f] the branch of the peer is moved even to a commit that does not
    descend from the one it was on.  Afterwards refs/heads/<branch> of the
    peer and the local remote-tracking ref hold the hash of the local
    commit, and every local object is in the store of the peer. *)
Theorem push_moves_the_branch_of_the_peer `{Env} (remote branch url g : string)
    (receiver : option string) (opts : version.push_opts) (w : world)
    (tree : string) (ps : list string) (msg : string) :
  inRepo (here w) = true -> inRepo (there w) = true ->
  remotes (here w) !! remote = Some url ->
  validName remote = true -> validName branch = true ->
  refs.isCheckedOut (there w) branch = Ret false ->
  refs.hash (there w) branch = Ret receiver ->
  refs.hash (here w) branch = Ret (Some g) ->
  store (here w) !! g = Some (Commit tree ps msg) ->
  content_addressed (here w) ->
  objects.isUpToDate (here w) receiver (Some g) = false ->
  version.f opts = true \/ merge.canFastForward (here w) receiver (Some g) = true ->
  outcome (sync.push (Some remote) (Some branch) opts w)
  = Ret (String.concat LF
           ["To " +:+ url;
            "Count " +:+ pretty (length (objects.allObjects (here w)));
            branch +:+ " -> " +:+ branch] +:+ LF)
  /\ vfiles (there (final (sync.push (Some remote) (Some branch) opts w)))
       !! ("refs/heads/" +:+ branch) = Some g
  /\ vfiles (here (final (sync.push (Some remote) (Some branch) opts w)))
       !! ("refs/remotes/" +:+ remote +:+ "/" +:+ branch) = Some g
  /\ store (here w) ⊆ store (there (final (sync.push (Some remote) (Some branch) opts w))).
Proof.
  intros Hin Hin' Hurl Hremote Hbranch Hco Hrec Hg Hobj Hca Hup Hff.
  destruct (push_run remote branch url g receiver opts w tree ps msg) as (l & Hrun);
    try done.
  rewrite Hrun, outcome_triple, final_triple. cbn [here there].
  split; [done |]. split; [| split].
  - rewrite vfiles_set_vfiles. apply lookup_insert_eq.
  - rewrite vfiles_set_vfiles. apply lookup_insert_eq.
  - rewrite store_set_vfiles. apply map_subseteq_spec. intros k o Hk.
    by apply copied_object.
Qed.

(** X26.  A [push] that stops early has written nothing, on either side: when
    the peer has the branch checked out it throws "refusing to update
    checked out branch <branch>"; when the peer already has the commit it
    returns "Already up-to-date"; when the update is not a fast-forward
    and [-f] was not given it throws "failed to push some refs to
    <url>". *)
Theorem push_that_stops_early_writes_nothing `{Env} (remote branch url : string)
    (opts : version.push_opts) (w : world) :
  inRepo (here w) = true ->
  remotes (here w) !! remote = Some url ->
  (refs.isCheckedOut (there w) branch = Ret true ->
   sync.push (Some remote) (Some branch) opts w
   = (Throw (Error ("refusing to update checked out branch " +:+ branch)), w, []))
  /\ (forall receiver giver,
        refs.isCheckedOut (there w) branch = Ret false ->
        refs.hash (there w) branch = Ret receiver ->
        refs.hash (here w) branch = Ret giver ->
        (objects.isUpToDate (here w) receiver giver = true ->
         sync.push (Some remote) (Some branch) opts w = (Ret "Already up-to-date", w, []))
        /\ (objects.isUpToDate (here w) receiver giver = false ->
            version.f opts = false ->
            merge.canFastForward (here w) receiver giver = false ->
            sync.push (Some remote) (Some branch) opts w
            = (Throw (Error ("failed to push some refs to " +:+ url)), w, []))).
Proof.
  intros Hin Hurl. split.
  - intros Hco. unfold sync.push, sync.local, sync.onRemote.
    rewrite run_bind_assertInRepo by done.
    rewrite run_bind_gets. cbn [sideOf]. rewrite Hurl.
    rewrite run_bind_reading. cbn [sideOf]. by rewrite Hco.
  - intros receiver giver Hco Hrec Hg.
    assert (Hrun : sync.push (Some remote) (Some branch) opts w
      = (if objects.isUpToDate (here w) receiver giver
         then mret "Already up-to-date"
         else
           canFF ← sync.local (gets (fun s => merge.canFastForward s receiver giver));
           if negb (version.f opts) && negb canFF then
             throw (Error ("failed to push some refs to " +:+ url))
           else
             localObjects ← sync.local (gets objects.allObjects);
             forEach (fun o => sync.onRemote url (objects.write o);; mret tt) localObjects;;
             sync.onRemote url
               (version.update_ref (refs.toLocalRef branch) (js_show giver));;
             sync.local
               (version.update_ref (refs.toRemoteRef remote branch) (js_show giver));;
             count ← sync.local (gets (fun s => length (objects.allObjects s)));
             mret (String.concat LF
                     ["To " +:+ url;
                      "Count " +:+ pretty count;
                      branch +:+ " -> " +:+ branch]
                   +:+ LF) : Sync string) w).
    { unfold sync.push, sync.local, sync.onRemote.
      rewrite run_bind_assertInRepo by done.
      rewrite run_bind_gets. cbn [sideOf]. rewrite Hurl.
      rewrite run_bind_reading. cbn [sideOf]. rewrite Hco.
      rewrite run_bind_reading. cbn [sideOf]. rewrite Hrec.
      rewrite run_bind_reading. cbn [sideOf]. rewrite Hg.
      by rewrite run_bind_gets. }
    rewrite Hrun. split.
    + by intros ->.
    + intros -> Hf Hff. unfold sync.local. rewrite run_bind_gets. cbn [sideOf].
      by rewrite Hf, Hff.
Qed.

(** ** [checkout] *)
Section checkout.
Context `{Env} `{Helpers}.

(** The hash of a branch name that is not the hash of an object: what the
    file of the branch holds. *)
Lemma hash_of_name s b :
  validName b = true -> b <> "HEAD" -> store s !! b = None ->
  refs.hash s b = Ret (vfiles s !! ("refs/heads/" +:+ b)).
Proof.
  intros Hb Hne Hobj. unfold refs.hash, objects.exists_.
  rewrite read_Some, Hobj. rewrite bool_decide_eq_false_2 by (by intros [? ?]).
  assert (Hnr : refs.isRef b = false).
  { destruct (refs.isRef b) eqn:Hx; [| done]. by apply validName_isRef in Hx. }
  unfold refs.terminalRef. rewrite bool_decide_eq_false_2 by done. simpl.
  rewrite Hnr. simpl. unfold refs.exists_. rewrite toLocalRef_isRef, Hb. simpl.
  unfold refs.toLocalRef. case_bool_decide as Hx; [done |].
  destruct (vfiles s !! ("refs/heads/" +:+ b)); [| done]. exfalso. apply Hx. eauto.
Qed.

(** The hash of a detached HEAD: what the HEAD file holds. *)
Lemma hash_of_detached_HEAD s :
  refs.isHeadDetached s = Ret true -> store s !! "HEAD" = None ->
  refs.hash s "HEAD" = Ret (vfiles s !! "HEAD").
Proof.
  intros Hd Hobj. unfold refs.hash, objects.exists_. rewrite read_Some, Hobj.
  rewrite bool_decide_eq_false_2 by (by intros [? ?]).
  unfold refs.terminalRef. rewrite bool_decide_eq_true_2 by done.
  rewrite Hd. simpl. unfold refs.exists_. simpl.
  unfold refs.isHeadDetached in Hd.
  destruct (vfiles s !! "HEAD") as [c|]; [| done].
  by rewrite bool_decide_eq_true_2 by eauto.
Qed.

(** A checkout that passes its checks. *)
Lemma checkout_run s ref to tree ps msg headHash cur s1 l1 :
  inRepo s = true -> bare s = false ->
  refs.hash s ref = Ret (Some to) ->
  store s !! to = Some (Commit tree ps msg) ->
  refs.headBranchName s = Ret cur -> cur <> Some ref -> vfiles s !! "HEAD" <> Some ref ->
  changedFilesCommitWouldOverwrite s to = [] ->
  refs.hash s "HEAD" = Ret headHash ->
  writeWorkingCopy headHash to s = (Ret tt, s1, l1) ->
  exists l,
    porcelain.checkout ref s
    = (Ret (if objects.exists_ s (Some ref)
            then "Note: checking out " +:+ to +:+ LF +:+ "You are in detached HEAD state."
            else "Switched to branch " +:+ ref),
       checked_out s1
         (if objects.exists_ s (Some ref) then to else "ref: " +:+ refs.toLocalRef ref) to,
       l).
Proof.
  intros Hin Hbare Hto Hobj Hcur Hne1 Hne2 Hpaths Hhead Hwc.
  eexists. unfold porcelain.checkout.
  rewrite bind_assertInRepo, bind_assertNotBare by done.
  rewrite bind_reading, Hto. rewrite bind_gets.
  unfold objects.exists_ at 1. rewrite read_Some, Hobj.
  rewrite bool_decide_eq_true_2 by eauto. cbn [negb].
  rewrite bind_gets. rewrite read_Some, Hobj. cbn [objects.type].
  rewrite bool_decide_eq_true_2 by done. cbn [negb].
  rewrite bind_reading, Hcur. rewrite bind_gets.
  rewrite (bool_decide_eq_false_2 (Some ref = cur)) by congruence.
  rewrite (bool_decide_eq_false_2 (Some ref = vfiles s !! "HEAD")) by congruence.
  cbn [orb]. rewrite bind_gets. change (js_show (Some to)) with to.
  rewrite Hpaths. rewrite bool_decide_eq_true_2 by done. cbn [negb].
  rewrite bind_gets. rewrite bind_reading, Hhead.
  rewrite bind_unfold, Hwc.
  rewrite bind_unfold, write_ref by done.
  rewrite bind_gets. unfold porcelain.index_write. rewrite bind_effect.
  unfold checked_out. cbn [mret M_ret]. reflexivity.
Qed.

Lemma contains_refs_qualified b tail :
  Regex.re_match (refs.anywhere (Regex.lit "refs")) ("ref: refs/heads/" +:+ b +:+ tail)
  = true.
Proof.
  apply RegexFacts.re_match_spec. unfold refs.anywhere.
  change ("ref: refs/heads/" +:+ b +:+ tail)
    with ("ref: " +:+ ("refs" +:+ ("/heads/" +:+ b +:+ tail))).
  constructor; [apply RegexFacts.matches_any |].
  constructor; [by apply RegexFacts.matches_lit | apply RegexFacts.matches_any].
Qed.

End checkout.

(** X15.  When [checkout] of a branch name of [[A-Za-z-]+] goes through (the
    name resolves to a stored commit and is not a hash, HEAD is not on it
    yet, no local change would be lost, and the collaborator that writes
    the working copy changes nothing else), it returns "Switched to branch
    <b>"; afterwards HEAD is on <b> and resolves to the commit of <b>, the
    index is the table of contents of that commit at stage 0, and no other
    file below the version directory has changed. *)
Theorem checkout_switches_to_the_branch `{Env} `{Helpers} (s : repo) (b to : string)
    (tree : string) (ps : list string) (msg : string) (headHash cur : option string)
    (d : gmap string node -> gmap string node) (l1 : list (event * repo)) :
  inRepo s = true -> bare s = false ->
  validName b = true -> b <> "HEAD" -> store s !! b = None -> store s !! "HEAD" = None ->
  vfiles s !! ("refs/heads/" +:+ b) = Some to ->
  store s !! to = Some (Commit tree ps msg) ->
  refs.headBranchName s = Ret cur -> cur <> Some b -> vfiles s !! "HEAD" <> Some b ->
  changedFilesCommitWouldOverwrite s to = [] ->
  refs.hash s "HEAD" = Ret headHash ->
  writeWorkingCopy headHash to s = (Ret tt, set_disk d s, l1) ->
  outcome (porcelain.checkout b s) = Ret ("Switched to branch " +:+ b)
  /\ final (porcelain.checkout b s)
     = checked_out (set_disk d s) ("ref: refs/heads/" +:+ b) to
  /\ refs.headBranchName (final (porcelain.checkout b s)) = Ret (Some b)
  /\ refs.hash (final (porcelain.checkout b s)) "HEAD" = Ret (Some to)
  /\ idx (final (porcelain.checkout b s))
     = porcelain.tocToIndex
         (commitToc (set_vfiles (insert "HEAD" ("ref: refs/heads/" +:+ b)) (set_disk d s))
            to)
  /\ (forall k, k <> "HEAD" ->
        vfiles (final (porcelain.checkout b s)) !! k = vfiles s !! k).
Proof.
  intros Hin Hbare Hb Hne Hobjb Hobjh Hfile Hobj Hcur Hne1 Hne2 Hpaths Hhead Hwc.
  assert (Hto : refs.hash s b = Ret (Some to))
    by (rewrite hash_of_name by done; by rewrite Hfile).
  destruct (checkout_run s b to tree ps msg headHash cur (set_disk d s) l1)
    as [l Hrun]; try done.
  assert (Hex : objects.exists_ s (Some b) = false).
  { unfold objects.exists_. rewrite read_Some, Hobjb.
    by rewrite bool_decide_eq_false_2 by (by intros [? ?]). }
  rewrite Hex in Hrun.
  change ("ref: " +:+ refs.toLocalRef b) with ("ref: refs/heads/" +:+ b) in Hrun.
  rewrite Hrun, outcome_triple, final_triple.
  destruct (validName_dot b Hb) as [Hnb Hdot].
  assert (Hh : vfiles (checked_out (set_disk d s) ("ref: refs/heads/" +:+ b) to) !! "HEAD"
               = Some ("ref: refs/heads/" +:+ b +:+ "")).
  { rewrite append_nil_r. apply lookup_insert_eq. }
  destruct (attached_HEAD _ b "" Hh) as (_ & Hn & _); [done | done | by left |].
  split; [done |]. split; [done |]. split; [done |]. split; [| split; [done |]].
  - rewrite (hash_of_attached_HEAD _ b "" Hh); [| done | done | by left | done].
    rewrite Hb. unfold checked_out. cbn [vfiles set_idx set_vfiles set_disk].
    rewrite lookup_insert_ne by done. by rewrite Hfile.
  - intros k Hk. unfold checked_out. cbn [vfiles set_idx set_vfiles set_disk].
    by rewrite lookup_insert_ne.
Qed.

(** X16.  When [checkout] of the hash of a stored commit goes through, it
    returns the note about the detached HEAD and writes the hash itself
    to the HEAD file.  Afterwards HEAD is detached (for a hash that does
    not contain the text "refs"), it has no branch name and resolves to
    that commit, and a second [checkout] of the hash answers "Already on
    <hash>" without a write. *)
Theorem checkout_of_a_hash_detaches_HEAD `{Env} `{Helpers} (s : repo) (h : string)
    (tree : string) (ps : list string) (msg : string) (headHash cur : option string)
    (d : gmap string node -> gmap string node) (l1 : list (event * repo)) :
  inRepo s = true -> bare s = false ->
  store s !! h = Some (Commit tree ps msg) -> store s !! "HEAD" = None ->
  Regex.re_match (refs.anywhere (Regex.lit "refs")) h = false ->
  refs.headBranchName s = Ret cur -> cur <> Some h -> vfiles s !! "HEAD" <> Some h ->
  changedFilesCommitWouldOverwrite s h = [] ->
  refs.hash s "HEAD" = Ret headHash ->
  writeWorkingCopy headHash h s = (Ret tt, set_disk d s, l1) ->
  outcome (porcelain.checkout h s)
  = Ret ("Note: checking out " +:+ h +:+ LF +:+ "You are in detached HEAD state.")
  /\ vfiles (final (porcelain.checkout h s)) !! "HEAD" = Some h
  /\ refs.isHeadDetached (final (porcelain.checkout h s)) = Ret true
  /\ refs.headBranchName (final (porcelain.checkout h s)) = Ret None
  /\ refs.hash (final (porcelain.checkout h s)) "HEAD" = Ret (Some h)
  /\ porcelain.checkout h (final (porcelain.checkout h s))
     = (Ret ("Already on " +:+ h), final (porcelain.checkout h s), []).
Proof.
  intros Hin Hbare Hobj Hobjh Hplain Hcur Hne1 Hne2 Hpaths Hhead Hwc.
  assert (Hto : refs.hash s h = Ret (Some h)) by (apply hash_of_stored; by rewrite Hobj).
  destruct (checkout_run s h h tree ps msg headHash cur (set_disk d s) l1)
    as [l Hrun]; try done.
  assert (Hex : objects.exists_ s (Some h) = true).
  { unfold objects.exists_. rewrite read_Some, Hobj. by apply bool_decide_eq_true_2. }
  rewrite Hex in Hrun. rewrite Hrun, outcome_triple, final_triple.
  set (s' := checked_out (set_disk d s) h h).
  assert (Hh : vfiles s' !! "HEAD" = Some h) by apply lookup_insert_eq.
  assert (Hd : refs.isHeadDetached s' = Ret true).
  { unfold refs.isHeadDetached. by rewrite Hh, Hplain. }
  assert (Hn : refs.headBranchName s' = Ret None).
  { unfold refs.headBranchName. by rewrite Hd. }
  assert (Hst : store s' = store s) by reflexivity.
  assert (Hhash : refs.hash s' h = Ret (Some h)).
  { apply hash_of_stored. by rewrite Hst, Hobj. }
  split; [done |]. split; [done |]. split; [done |]. split; [done |]. split.
  - rewrite hash_of_detached_HEAD; [by rewrite Hh | done | by rewrite Hst].
  - unfold porcelain.checkout.
    rewrite bind_assertInRepo, bind_assertNotBare by done.
    rewrite bind_reading, Hhash. rewrite bind_gets.
    unfold objects.exists_ at 1. rewrite read_Some, Hst, Hobj.
    rewrite bool_decide_eq_true_2 by eauto. cbn [negb].
    rewrite bind_gets. rewrite read_Some, Hst, Hobj. cbn [objects.type].
    rewrite bool_decide_eq_true_2 by done. cbn [negb].
    rewrite bind_reading, Hn. rewrite bind_gets. rewrite Hh.
    rewrite (bool_decide_eq_true_2 (Some h = Some h)) by done.
    by rewrite orb_true_r.
Qed.

(** X17.  [checkout] writes "ref: refs/heads/<ref>" to HEAD for every name
    that is not a hash.  When the name is a qualified ref that resolves to
    a commit, refs/heads/master say, the checkout goes through and leaves
    HEAD on refs/heads/refs/heads/master: a branch whose name is not of
    ref syntax, so that HEAD has no hash any more. *)
Theorem checkout_of_a_qualified_ref_strands_HEAD `{Env} `{Helpers} (s : repo)
    (ref to : string) (tree : string) (ps : list string) (msg : string)
    (headHash cur : option string)
    (d : gmap string node -> gmap string node) (l1 : list (event * repo)) :
  inRepo s = true -> bare s = false ->
  validName ref = false -> ref <> "" -> all_chars refs.dot ref = true ->
  store s !! ref = None -> store s !! "HEAD" = None ->
  refs.hash s ref = Ret (Some to) ->
  store s !! to = Some (Commit tree ps msg) ->
  refs.headBranchName s = Ret cur -> cur <> Some ref -> vfiles s !! "HEAD" <> Some ref ->
  changedFilesCommitWouldOverwrite s to = [] ->
  refs.hash s "HEAD" = Ret headHash ->
  writeWorkingCopy headHash to s = (Ret tt, set_disk d s, l1) ->
  outcome (porcelain.checkout ref s) = Ret ("Switched to branch " +:+ ref)
  /\ vfiles (final (porcelain.checkout ref s)) !! "HEAD"
     = Some ("ref: refs/heads/" +:+ ref)
  /\ refs.headBranchName (final (porcelain.checkout ref s)) = Ret (Some ref)
  /\ refs.hash (final (porcelain.checkout ref s)) "HEAD" = Ret None.
Proof.
  intros Hin Hbare Hb Hne Hdot Hobjr Hobjh Hto Hobj Hcur Hne1 Hne2 Hpaths Hhead Hwc.
  destruct (checkout_run s ref to tree ps msg headHash cur (set_disk d s) l1)
    as [l Hrun]; try done.
  assert (Hex : objects.exists_ s (Some ref) = false).
  { unfold objects.exists_. rewrite read_Some, Hobjr.
    by rewrite bool_decide_eq_false_2 by (by intros [? ?]). }
  rewrite Hex in Hrun.
  change ("ref: " +:+ refs.toLocalRef ref) with ("ref: refs/heads/" +:+ ref) in Hrun.
  rewrite Hrun, outcome_triple, final_triple.
  assert (Hh : vfiles (checked_out (set_disk d s) ("ref: refs/heads/" +:+ ref) to) !! "HEAD"
               = Some ("ref: refs/heads/" +:+ ref +:+ "")).
  { rewrite append_nil_r. apply lookup_insert_eq. }
  destruct (attached_HEAD _ ref "" Hh) as (_ & Hn & _); [done | done | by left |].
  split; [done |]. split; [by rewrite append_nil_r in Hh |]. split; [done |].
  rewrite (hash_of_attached_HEAD _ ref "" Hh); [| done | done | by left | done].
  by rewrite Hb.
Qed.


(** ** The guards of the commands *)
Section guards.
Context `{Env} `{Helpers}.

Lemma guard_fails {A} (k : Cmd A) s :
  inRepo s = false \/ bare s = true ->
  (files.assertInRepo;; config.assertNotBare;; k) s
  = (Throw (Error (if inRepo s then "BareDisallowed" else "NotInRepo")), s, []).
Proof.
  intros Hbad. rewrite bind_unfold. unfold files.assertInRepo.
  destruct (inRepo s) eqn:Hin; [| done].
  destruct Hbad as [? | Hb]; [done |].
  rewrite bind_unfold. unfold config.assertNotBare. by rewrite Hb.
Qed.

Lemma guard_fails_pull remote branch w :
  inRepo (here w) = false \/ bare (here w) = true ->
  porcelain.pull remote branch w
  = (Throw (Error (if inRepo (here w) then "BareDisallowed" else "NotInRepo")), w, []).
Proof.
  intros Hbad. unfold porcelain.pull, sync.local.
  rewrite bind_unfold. unfold run at 1, files.assertInRepo. cbn [sideOf].
  destruct (inRepo (here w)) eqn:Hin.
  - destruct Hbad as [? | Hb]; [done |].
    cbn [onSide fmap list_fmap]. destruct w as [hw tw]. cbn [here there] in *.
    rewrite bind_unfold. unfold run at 1, config.assertNotBare. cbn [sideOf here].
    by rewrite Hb.
  - by destruct w.
Qed.

End guards.

(** X20.  The commands that need a working copy are guarded: outside a
    repository, and in a bare repository, [add], [commit], [checkout],
    [merge], [update_index] and [pull] throw before they read or write
    anything, and the repository is as it was.  The check for a
    repository comes first. *)
Theorem working_copy_commands_are_guarded `{Env} `{Helpers} (w : world) (path ref : string)
    (opts : option version.commit_opts) (iopts : version.index_opts)
    (remote branch : option string) :
  inRepo (here w) = false \/ bare (here w) = true ->
  let e := Error (if inRepo (here w) then "BareDisallowed" else "NotInRepo") in
  porcelain.add path (here w) = (Throw e, here w, [])
  /\ version.commit opts (here w) = (Throw e, here w, [])
  /\ porcelain.checkout ref (here w) = (Throw e, here w, [])
  /\ version.merge ref (here w) = (Throw e, here w, [])
  /\ version.update_index path iopts (here w) = (Throw e, here w, [])
  /\ porcelain.pull remote branch w = (Throw e, w, []).
Proof.
  intros Hbad e. subst e.
  split; [by apply guard_fails |]. split; [by apply guard_fails |].
  split; [by apply guard_fails |]. split; [by apply guard_fails |].
  split; [by apply guard_fails | by apply guard_fails_pull].
Qed.

(** ** What [merge] refuses *)
Section merge_refusals.
Context `{Env}.

Lemma merge_run s ref receiver giver detached :
  inRepo s = true -> bare s = false ->
  refs.hash s "HEAD" = Ret receiver -> refs.hash s ref = Ret giver ->
  refs.isHeadDetached s = Ret detached ->
  version.merge ref s
  = (if detached : bool then throw (Error "unsupported")
     else
       match giver with
       | None => throw (Error (ref +:+ ": expected commit type"))
       | Some g =>
           if negb (bool_decide (objects.type (objects.read s giver) = Some "commit"))
           then throw (Error (ref +:+ ": expected commit type"))
           else if objects.isUpToDate s receiver giver then mret "Already up-to-date"
           else if negb (bool_decide (changedFilesCommitWouldOverwrite s g = []))
           then throw (Error ("local changes would be lost" +:+ LF
                              +:+ String.concat LF (changedFilesCommitWouldOverwrite s g)
                              +:+ LF))
           else if merge.canFastForward s receiver giver
           then writeFastForwardMerge receiver g;; mret "Fast-forward"
           else
             writeNonFastForwardMerge receiver g ref;;
             conflicts ← gets (fun s => hasConflicts s receiver g);
             if conflicts : bool
             then mret "Automatic merge failed. Fix conflicts and commit the result."
             else version.commit None
       end : Cmd string) s.
Proof.
  intros Hin Hbare Hrec Hgiv Hdet. unfold version.merge.
  rewrite bind_assertInRepo, bind_assertNotBare by done.
  rewrite bind_reading, Hrec. rewrite bind_reading, Hgiv.
  rewrite bind_reading, Hdet. destruct detached; [done |].
  rewrite bind_gets. destruct giver as [g|]; [| done].
  destruct (negb (bool_decide (objects.type (objects.read s (Some g)) = Some "commit")));
    [done |].
  rewrite bind_gets. destruct (objects.isUpToDate s receiver (Some g)); [done |].
  rewrite bind_gets.
  destruct (negb (bool_decide (changedFilesCommitWouldOverwrite s g = []))); [done |].
  rewrite bind_gets. by destruct (merge.canFastForward s receiver (Some g)).
Qed.

End merge_refusals.

(** X19.  A [merge] that is refused has written nothing.  Into a detached HEAD
    it throws "unsupported", whatever is to be merged; a ref that does
    not resolve to a stored commit gives "<ref>: expected commit type";
    and a commit that the branch does not have yet, and that would
    overwrite files changed in the working copy, gives "local changes
    would be lost" with the list of those files. *)
Theorem merge_refuses_without_a_write `{Env} (s : repo) (ref : string)
    (receiver giver : option string) (detached : bool) :
  inRepo s = true -> bare s = false ->
  refs.hash s "HEAD" = Ret receiver -> refs.hash s ref = Ret giver ->
  refs.isHeadDetached s = Ret detached ->
  (detached = true -> version.merge ref s = (Throw (Error "unsupported"), s, []))
  /\ (detached = false ->
      objects.type (objects.read s giver) <> Some "commit" ->
      version.merge ref s = (Throw (Error (ref +:+ ": expected commit type")), s, []))
  /\ (forall g,
        detached = false -> giver = Some g ->
        objects.type (objects.read s giver) = Some "commit" ->
        objects.isUpToDate s receiver giver = false ->
        changedFilesCommitWouldOverwrite s g <> [] ->
        version.merge ref s
        = (Throw (Error ("local changes would be lost" +:+ LF
                         +:+ String.concat LF (changedFilesCommitWouldOverwrite s g)
                         +:+ LF)), s, [])).
Proof.
  intros Hin Hbare Hrec Hgiv Hdet.
  rewrite (merge_run s ref receiver giver detached) by done.
  split; [by intros -> |]. split.
  - intros -> Hk. destruct giver as [g|]; [| done].
    by rewrite bool_decide_eq_false_2 by done.
  - intros g -> -> Hk Hup Hpaths.
    rewrite bool_decide_eq_true_2 by done. cbn [negb]. rewrite Hup.
    by rewrite bool_decide_eq_false_2 by done.
Qed.

(** ** The names [fetch] and [push] work with *)
Section sync_names.
Context `{Env}.

Lemma isRef_toRemoteRef_names remote branch :
  refs.isRef (refs.toRemoteRef remote branch) = true ->
  validName remote = true /\ validName branch = true.
Proof. rewrite toRemoteRef_isRef. by intros [? ?]%andb_true_iff. Qed.

(** The hash of a name that is neither of ref syntax nor a branch name
    never throws: it is the name itself when that is the hash of an
    object, and nothing otherwise. *)
Lemma hash_of_no_ref s x :
  refs.isRef x = false -> validName x = false -> x <> "HEAD" ->
  refs.hash s x = Ret (if objects.exists_ s (Some x) then Some x else None).
Proof.
  intros Hr Hv Hne. unfold refs.hash.
  destruct (objects.exists_ s (Some x)); [done |].
  unfold refs.terminalRef. rewrite bool_decide_eq_false_2 by done. simpl.
  rewrite Hr. simpl. unfold refs.exists_.
  by rewrite toLocalRef_isRef, Hv.
Qed.

Lemma toRemoteRef_no_name remote branch : validName (refs.toRemoteRef remote branch) = false.
Proof.
  unfold refs.toRemoteRef.
  change ("refs/remotes/" +:+ remote +:+ "/" +:+ branch)
    with ("refs" +:+ "/" +:+ ("remotes/" +:+ remote +:+ "/" +:+ branch)).
  apply validName_no_slash.
Qed.

(** A [fetch] from a remote or of a branch whose name is not of
    [[A-Za-z-]+], once the branch of the peer is resolved: the objects are
    copied and the update of the remote-tracking ref throws. *)
Lemma fetch_odd_run remote branch url new w o :
  inRepo (here w) = true ->
  remotes (here w) !! remote = Some url ->
  validName remote && validName branch = false ->
  refs.hash (there w) branch = Ret (Some new) ->
  store (there w) !! new = Some o ->
  content_addressed (there w) ->
  exists l,
    sync.fetch (Some remote) (Some branch) w
    = (Throw (Error ("cannot lock the ref " +:+ refs.toRemoteRef remote branch)),
       mkWorld (stored (objects.allObjects (there w)) (here w)) (there w), l).
Proof.
  intros Hin Hurl Hnames Hnew Hobj Hca.
  destruct w as [hw tw]. cbn [here there] in *.
  destruct (forEach_write (objects.allObjects tw) hw) as [l1 Hcopy].
  set (s1 := stored (objects.allObjects tw) hw) in *.
  assert (Hin1 : inRepo s1 = true)
    by (destruct (stored_fields (objects.allObjects tw) hw) as (Hs1 & _);
        unfold s1; congruence).
  assert (Hobj1 : store s1 !! new = Some o) by by apply copied_object.
  assert (Hr : refs.isRef (refs.toRemoteRef remote branch) = false)
    by by rewrite toRemoteRef_isRef.
  assert (Hu : version.update_ref (refs.toRemoteRef remote branch) new s1
               = (Throw (Error ("cannot lock the ref "
                                +:+ refs.toRemoteRef remote branch)), s1, [])).
  { rewrite update_ref_run by done.
    rewrite hash_of_stored by (by rewrite Hobj1).
    unfold objects.exists_. rewrite read_Some, Hobj1.
    rewrite bool_decide_eq_true_2 by eauto. cbn [negb]. by rewrite Hr. }
  unfold sync.fetch, sync.local, sync.onRemote.
  rewrite run_bind_assertInRepo by done.
  rewrite run_bind_gets. cbn [sideOf here there]. rewrite Hurl.
  rewrite run_bind_reading. cbn [sideOf here there]. rewrite Hnew.
  rewrite run_bind_reading. cbn [sideOf here there].
  rewrite (hash_of_no_ref hw (refs.toRemoteRef remote branch))
    by (done || apply toRemoteRef_no_name || apply toRemoteRef_not_HEAD).
  rewrite run_bind_gets. cbn [sideOf here there].
  rewrite bind_unfold. rewrite (run_result Local _ (mkWorld hw tw) _ _ _ Hcopy).
  cbn [onSide here there]. rewrite bind_unfold.
  rewrite (run_result Local _ (mkWorld s1 tw) _ _ _ Hu).
  cbn [onSide here there fmap list_fmap]. rewrite app_nil_r. eauto.
Qed.

End sync_names.

(** X24.  [fetch] and [push] work with names of [[A-Za-z-]+] only: a [fetch]
    that returns, and a [push] that returns anything but "Already
    up-to-date", had a remote and a branch of such names.  With a digit, a
    dot, an underscore or a slash in one of the two names they never go
    through. *)
Theorem fetch_and_push_need_plain_names `{Env} (remote branch : string)
    (opts : version.push_opts) (w : world) :
  (exists out w' l, sync.fetch (Some remote) (Some branch) w = (Ret out, w', l))
  \/ (exists out w' l, sync.push (Some remote) (Some branch) opts w = (Ret out, w', l)
                       /\ out <> "Already up-to-date") ->
  validName remote = true /\ validName branch = true.
Proof.
  intros [(out & w' & l & Hf) | (out & w' & l & Hp & Hout)].
  - apply fetch_returns in Hf as (url & new & hash & _ & _ & _ & _ & Hr & _).
    by apply isRef_toRemoteRef_names.
  - apply push_returns in Hp as (g & hp & hl & _ & _ & _ & _ & Hr & _); [| done].
    by apply isRef_toRemoteRef_names.
Qed.

(** X23.  A [fetch] that cannot write its remote-tracking ref is not undone:
    when the remote is known under a name that is not of [[A-Za-z-]+],
    origin2 say, and the branch of the peer resolves to an object of its
    content addressed store, [fetch] copies every object of the peer to
    the local store and then throws "cannot lock the ref
    refs/remotes/<remote>/<branch>".  No file below the version directory
    was written, FETCH_HEAD included. *)
Theorem fetch_under_an_odd_name_keeps_the_objects `{Env} (remote branch url new : string)
    (w : world) (o : obj) :
  inRepo (here w) = true ->
  remotes (here w) !! remote = Some url ->
  validName remote && validName branch = false ->
  refs.hash (there w) branch = Ret (Some new) ->
  store (there w) !! new = Some o ->
  content_addressed (there w) ->
  outcome (sync.fetch (Some remote) (Some branch) w)
  = Throw (Error ("cannot lock the ref refs/remotes/" +:+ remote +:+ "/" +:+ branch))
  /\ store (there w) ⊆ store (here (final (sync.fetch (Some remote) (Some branch) w)))
  /\ vfiles (here (final (sync.fetch (Some remote) (Some branch) w))) = vfiles (here w)
  /\ there (final (sync.fetch (Some remote) (Some branch) w)) = there w.
Proof.
  intros Hin Hurl Hnames Hnew Hobj Hca.
  destruct (fetch_odd_run remote branch url new w o) as [l Hrun]; try done.
  rewrite Hrun. rewrite outcome_triple, final_triple. cbn [here there].
  split; [done |]. split; [| split; [| done]].
  - apply map_subseteq_spec. intros k x Hk. by apply copied_object.
  - by destruct (stored_fields (objects.allObjects (there w)) (here w))
      as (_ & _ & _ & Hvf & _).
Qed.

(** ** [commit] on a detached HEAD and at the end of a merge *)
Section commit_variants.
Context `{Env}.

Lemma commit_detached_run s h msg :
  inRepo s = true -> bare s = false ->
  vfiles s !! "HEAD" = Some h ->
  Regex.re_match (refs.anywhere (Regex.lit "refs")) h = false ->
  vfiles s !! "MERGE_HEAD" = None ->
  store (treeWritten s) !! "HEAD" = None ->
  objects.treeHash (objects.read (treeWritten s) (Some h))
  <> Some (hashOf (rootTree (index.toc s))) ->
  exists l,
    version.commit (Some {| version.m := Some msg |}) s
    = (Ret ("[detached HEAD "
            +:+ hashOf (Commit (hashOf (rootTree (index.toc s))) [h] msg)
            +:+ "] " +:+ msg),
       set_vfiles
         (insert "HEAD" (hashOf (Commit (hashOf (rootTree (index.toc s))) [h] msg)))
         (set_store
            (insert (hashOf (Commit (hashOf (rootTree (index.toc s))) [h] msg))
               (Commit (hashOf (rootTree (index.toc s))) [h] msg))
            (treeWritten s)),
       l).
Proof.
  intros Hin Hbare Hhead Hplain Hmerge Hobj Hdiff.
  destruct (write_tree_run s Hin) as [l0 Hw].
  destruct (treeWritten_fields s) as (Hin1 & _ & _ & Hvf & _ & _).
  set (s1 := treeWritten s) in *.
  set (c := Commit (hashOf (rootTree (index.toc s))) [h] msg).
  set (s2 := set_store (insert (hashOf c) c) s1).
  assert (Hd1 : refs.isHeadDetached s1 = Ret true).
  { unfold refs.isHeadDetached. by rewrite Hvf, Hhead, Hplain. }
  assert (Hh1 : refs.hash s1 "HEAD" = Ret (Some h)).
  { rewrite hash_of_detached_HEAD by done. by rewrite Hvf, Hhead. }
  assert (Hm1 : merge.isMergeInProgress s1 = false).
  { unfold merge.isMergeInProgress. rewrite Hvf, Hmerge.
    by rewrite bool_decide_eq_false_2 by (by intros [? ?]). }
  assert (Hparents : refs.commitParentHashes s1 = Ret [Some h]).
  { unfold refs.commitParentHashes. rewrite Hh1. simpl. by rewrite Hm1. }
  assert (Hc : objects.writeCommit (hashOf (rootTree (index.toc s))) (Some msg)
                 [Some h] s1
               = (Ret (hashOf c), s2, [(ObjectWrite (hashOf c), s2)])) by done.
  assert (Hu : version.update_ref "HEAD" (hashOf c) s2
               = (Ret tt, set_vfiles (insert "HEAD" (hashOf c)) s2,
                  [(RefWrite "HEAD", set_vfiles (insert "HEAD" (hashOf c)) s2)])).
  { assert (Hin2 : inRepo s2 = true) by (change (inRepo s1 = true); by rewrite Hin1).
    assert (Ht2 : refs.terminalRef s2 "HEAD" = Ret "HEAD").
    { rewrite (terminalRef_ext s1 s2) by done.
      unfold refs.terminalRef. rewrite bool_decide_eq_true_2 by done.
      by rewrite Hd1. }
    assert (Hc2 : store s2 !! hashOf c = Some c) by apply lookup_insert_eq.
    rewrite (update_ref_to_commit "HEAD" (hashOf c) "HEAD" s2
               (hashOf (rootTree (index.toc s))) [h] msg Hin2 eq_refl Ht2 Hc2).
    by apply write_ref. }
  eexists. unfold version.commit.
  rewrite bind_assertInRepo, bind_assertNotBare by done.
  rewrite bind_unfold, Hw.
  rewrite bind_reading. unfold version.headDesc at 1. rewrite Hd1. simpl.
  rewrite bind_reading, Hh1. rewrite bind_gets.
  rewrite (bool_decide_eq_false_2 (Some _ = objects.treeHash _)) by congruence.
  rewrite andb_false_r. rewrite !bind_gets. rewrite Hm1. simpl.
  rewrite bind_mret. rewrite bind_reading, Hparents.
  rewrite bind_unfold, Hc. rewrite bind_unfold, Hu.
  rewrite bind_gets.
  assert (Hm3 : merge.isMergeInProgress (set_vfiles (insert "HEAD" (hashOf c)) s2)
                = false).
  { unfold merge.isMergeInProgress.
    change (vfiles (set_vfiles (insert "HEAD" (hashOf c)) s2))
      with (<["HEAD" := hashOf c]> (vfiles s1)).
    rewrite lookup_insert_ne by done.
    rewrite Hvf, Hmerge. by rewrite bool_decide_eq_false_2 by (by intros [? ?]). }
  rewrite Hm3. simpl. reflexivity.
Qed.

Lemma conflictedPaths_ext s s' :
  idx s' = idx s -> index.conflictedPaths s' = index.conflictedPaths s.
Proof. intros Hi. unfold index.conflictedPaths. by rewrite Hi. Qed.

Lemma commit_merge_run s b tail p mh mm opts :
  inRepo s = true -> bare s = false ->
  vfiles s !! "HEAD" = Some ("ref: refs/heads/" +:+ b +:+ tail) ->
  validName b = true -> tail = "" \/ tail = LF ->
  vfiles s !! ("refs/heads/" +:+ b) = Some p ->
  vfiles s !! "MERGE_HEAD" = Some mh -> vfiles s !! "MERGE_MSG" = Some mm ->
  index.conflictedPaths s = [] ->
  store (treeWritten s) !! "HEAD" = None ->
  store (treeWritten s) !! "MERGE_HEAD" = None ->
  objects.treeHash (objects.read (treeWritten s) (Some p))
  <> Some (hashOf (rootTree (index.toc s))) ->
  exists l,
    version.commit opts s
    = (Ret "Merge made by the three-way strategy",
       set_vfiles (delete "MERGE_HEAD")
         (set_vfiles (delete "MERGE_MSG")
            (set_vfiles
               (insert ("refs/heads/" +:+ b)
                  (hashOf (Commit (hashOf (rootTree (index.toc s))) [p; mh] mm)))
               (set_store
                  (insert (hashOf (Commit (hashOf (rootTree (index.toc s))) [p; mh] mm))
                     (Commit (hashOf (rootTree (index.toc s))) [p; mh] mm))
                  (treeWritten s)))),
       l).
Proof.
  intros Hin Hbare Hhead Hb Htail Hbranch Hmh Hmm Hconf Hobj Hobj' Hdiff.
  destruct (validName_dot b Hb) as [Hne Hdot].
  destruct (write_tree_run s Hin) as [l0 Hw].
  destruct (treeWritten_fields s) as (Hin1 & _ & _ & Hvf & Hidx & _).
  set (s1 := treeWritten s) in *.
  set (c := Commit (hashOf (rootTree (index.toc s))) [p; mh] mm).
  set (s2 := set_store (insert (hashOf c) c) s1).
  set (s3 := set_vfiles (insert ("refs/heads/" +:+ b) (hashOf c)) s2).
  assert (Hhead1 : vfiles s1 !! "HEAD" = Some ("ref: refs/heads/" +:+ b +:+ tail))
    by by rewrite Hvf.
  destruct (attached_HEAD s1 b tail) as (Hd1 & Hn1 & Ht1); try done.
  assert (Hh1 : refs.hash s1 "HEAD" = Ret (Some p)).
  { rewrite (hash_of_attached_HEAD s1 b tail) by done. by rewrite Hb, Hvf, Hbranch. }
  assert (Hm1 : merge.isMergeInProgress s1 = true).
  { unfold merge.isMergeInProgress. rewrite Hvf, Hmh.
    by rewrite bool_decide_eq_true_2 by eauto. }
  assert (Hparents : refs.commitParentHashes s1 = Ret [Some p; Some mh]).
  { unfold refs.commitParentHashes. rewrite Hh1. simpl. rewrite Hm1.
    rewrite (hash_of_qualified s1 "MERGE_HEAD") by done. by rewrite Hvf, Hmh. }
  assert (Hc : objects.writeCommit (hashOf (rootTree (index.toc s))) (Some mm)
                 [Some p; Some mh] s1
               = (Ret (hashOf c), s2, [(ObjectWrite (hashOf c), s2)])) by done.
  assert (Hu : version.update_ref "HEAD" (hashOf c) s2
               = (Ret tt, s3, [(RefWrite ("refs/heads/" +:+ b), s3)])).
  { assert (Hin2 : inRepo s2 = true) by (change (inRepo s1 = true); by rewrite Hin1).
    assert (Ht2 : refs.terminalRef s2 "HEAD" = Ret ("refs/heads/" +:+ b))
      by (rewrite <- Ht1; by apply terminalRef_ext).
    assert (Hc2 : store s2 !! hashOf c = Some c) by apply lookup_insert_eq.
    rewrite (update_ref_to_commit "HEAD" (hashOf c) ("refs/heads/" +:+ b) s2
               (hashOf (rootTree (index.toc s))) [p; mh] mm Hin2 eq_refl Ht2 Hc2).
    apply write_ref. fold (refs.toLocalRef b). by rewrite toLocalRef_isRef. }
  assert (Hv3 : vfiles s3 = <["refs/heads/" +:+ b := hashOf c]> (vfiles s)).
  { unfold s3, s2. rewrite vfiles_set_vfiles, vfiles_set_store. by rewrite Hvf. }
  assert (Hm3 : merge.isMergeInProgress s3 = true).
  { unfold merge.isMergeInProgress. rewrite Hv3.
    rewrite lookup_insert_ne by done. rewrite Hmh.
    by rewrite bool_decide_eq_true_2 by eauto. }
  assert (Hun : refs.unlinkSync "MERGE_MSG" s3
                = (Ret tt, set_vfiles (delete "MERGE_MSG") s3,
                   [(Unlink "MERGE_MSG", set_vfiles (delete "MERGE_MSG") s3)])).
  { unfold refs.unlinkSync. rewrite Hv3. rewrite lookup_insert_ne by done.
    by rewrite Hmm. }
  assert (Hrm : refs.rm "MERGE_HEAD" (set_vfiles (delete "MERGE_MSG") s3)
                = (Ret tt, set_vfiles (delete "MERGE_HEAD")
                             (set_vfiles (delete "MERGE_MSG") s3),
                   [(Unlink "MERGE_HEAD",
                     set_vfiles (delete "MERGE_HEAD")
                       (set_vfiles (delete "MERGE_MSG") s3))])).
  { unfold refs.rm. change (refs.isRef "MERGE_HEAD") with true. cbv iota.
    unfold refs.unlinkSync. rewrite vfiles_set_vfiles, Hv3.
    rewrite lookup_delete_ne by done. rewrite lookup_insert_ne by done.
    by rewrite Hmh. }
  eexists. unfold version.commit.
  rewrite bind_assertInRepo, bind_assertNotBare by done.
  rewrite bind_unfold, Hw.
  rewrite bind_reading. unfold version.headDesc at 1. rewrite Hd1. simpl. rewrite Hn1.
  rewrite bind_reading, Hh1. rewrite bind_gets.
  rewrite (bool_decide_eq_false_2 (Some _ = objects.treeHash _)) by congruence.
  rewrite andb_false_r. rewrite !bind_gets. rewrite Hm1.
  rewrite (conflictedPaths_ext s s1) by done. rewrite Hconf.
  rewrite bool_decide_eq_true_2 by done. cbn [negb andb].
  rewrite bind_gets. rewrite Hvf, Hmm.
  rewrite bind_reading, Hparents.
  rewrite bind_unfold, Hc. rewrite bind_unfold, Hu.
  rewrite bind_gets. rewrite Hm3.
  rewrite bind_unfold, Hun. rewrite bind_unfold, Hrm.
  cbn [mret M_ret]. reflexivity.
Qed.

End commit_variants.

(** X12.  On a detached HEAD, outside a merge and with an index that differs
    from the tree of the commit in HEAD, [commit] returns "[detached HEAD
    <hash>] <message>": it stores the commit made of the tree of the
    index, the hash that HEAD held as the only parent and the message,
    and it writes the hash of that commit to the HEAD file itself.  No
    branch moves: every other file below the version directory is as it
    was. *)
Theorem commit_on_a_detached_HEAD_moves_no_branch `{Env} (s : repo) (h msg : string) :
  inRepo s = true -> bare s = false ->
  vfiles s !! "HEAD" = Some h ->
  Regex.re_match (refs.anywhere (Regex.lit "refs")) h = false ->
  vfiles s !! "MERGE_HEAD" = None ->
  store (treeWritten s) !! "HEAD" = None ->
  objects.treeHash (objects.read (treeWritten s) (Some h))
  <> Some (hashOf (rootTree (index.toc s))) ->
  outcome (version.commit (Some {| version.m := Some msg |}) s)
  = Ret ("[detached HEAD " +:+ hashOf (Commit (hashOf (rootTree (index.toc s))) [h] msg)
         +:+ "] " +:+ msg)
  /\ store (final (version.commit (Some {| version.m := Some msg |}) s))
       !! hashOf (Commit (hashOf (rootTree (index.toc s))) [h] msg)
     = Some (Commit (hashOf (rootTree (index.toc s))) [h] msg)
  /\ vfiles (final (version.commit (Some {| version.m := Some msg |}) s)) !! "HEAD"
     = Some (hashOf (Commit (hashOf (rootTree (index.toc s))) [h] msg))
  /\ (forall k, k <> "HEAD" ->
        vfiles (final (version.commit (Some {| version.m := Some msg |}) s)) !! k
        = vfiles s !! k).
Proof.
  intros Hin Hbare Hhead Hplain Hmerge Hobj Hdiff.
  destruct (commit_detached_run s h msg) as [l Hrun]; try done.
  destruct (treeWritten_fields s) as (_ & _ & _ & Hvf & _ & _).
  rewrite Hrun. rewrite outcome_triple, final_triple.
  rewrite store_set_vfiles, store_set_store, vfiles_set_vfiles, vfiles_set_store.
  split; [done |]. split; [apply lookup_insert_eq |].
  split; [apply lookup_insert_eq |].
  intros k Hk. rewrite lookup_insert_ne by done. by rewrite Hvf.
Qed.

(** X13.  With MERGE_HEAD and MERGE_MSG in place, no path in conflict and an
    index that differs from the tree of the commit of the branch,
    [commit] concludes the merge, whatever its options: it returns "Merge
    made by the three-way strategy", the commit it stores has two
    parents, the commit of the branch and the one of MERGE_HEAD, and the
    text of MERGE_MSG as its message, the branch is moved to it, and
    MERGE_HEAD and MERGE_MSG are removed, so that no merge is in progress
    any more. *)
Theorem commit_concludes_a_merge `{Env} (s : repo) (b tail p mh mm : string)
    (opts : option version.commit_opts) :
  inRepo s = true -> bare s = false ->
  vfiles s !! "HEAD" = Some ("ref: refs/heads/" +:+ b +:+ tail) ->
  validName b = true -> tail = "" \/ tail = LF ->
  vfiles s !! ("refs/heads/" +:+ b) = Some p ->
  vfiles s !! "MERGE_HEAD" = Some mh -> vfiles s !! "MERGE_MSG" = Some mm ->
  index.conflictedPaths s = [] ->
  store (treeWritten s) !! "HEAD" = None ->
  store (treeWritten s) !! "MERGE_HEAD" = None ->
  objects.treeHash (objects.read (treeWritten s) (Some p))
  <> Some (hashOf (rootTree (index.toc s))) ->
  outcome (version.commit opts s) = Ret "Merge made by the three-way strategy"
  /\ store (final (version.commit opts s))
       !! hashOf (Commit (hashOf (rootTree (index.toc s))) [p; mh] mm)
     = Some (Commit (hashOf (rootTree (index.toc s))) [p; mh] mm)
  /\ vfiles (final (version.commit opts s)) !! ("refs/heads/" +:+ b)
     = Some (hashOf (Commit (hashOf (rootTree (index.toc s))) [p; mh] mm))
  /\ vfiles (final (version.commit opts s)) !! "MERGE_HEAD" = None
  /\ vfiles (final (version.commit opts s)) !! "MERGE_MSG" = None
  /\ merge.isMergeInProgress (final (version.commit opts s)) = false.
Proof.
  intros Hin Hbare Hhead Hb Htail Hbranch Hmh Hmm Hconf Hobj Hobj' Hdiff.
  destruct (commit_merge_run s b tail p mh mm opts) as [l Hrun]; try done.
  rewrite Hrun. rewrite outcome_triple, final_triple.
  unfold merge.isMergeInProgress.
  rewrite !store_set_vfiles, store_set_store, !vfiles_set_vfiles.
  split; [done |]. split; [apply lookup_insert_eq |]. split; [| split; [| split]].
  - rewrite !lookup_delete_ne by done. apply lookup_insert_eq.
  - apply lookup_delete_eq.
  - rewrite lookup_delete_ne by done. apply lookup_delete_eq.
  - rewrite lookup_delete_eq. by rewrite bool_decide_eq_false_2 by (by intros [? ?]).
Qed.

(** ** What [checkout] refuses *)
Section checkout_refusals.
Context `{Env} `{Helpers}.

Lemma checkout_checks s ref toHash :
  inRepo s = true -> bare s = false -> refs.hash s ref = Ret toHash ->
  porcelain.checkout ref s
  = (if negb (objects.exists_ s toHash)
     then throw (Error (ref +:+ " did not match any file(s) known to Version"))
     else if negb (bool_decide (objects.type (objects.read s toHash) = Some "commit"))
     then throw (Error ("reference is not a tree: " +:+ ref))
     else
       current ← reading refs.headBranchName;
       if bool_decide (Some ref = current) || bool_decide (Some ref = vfiles s !! "HEAD")
       then mret ("Already on " +:+ ref)
       else if negb (bool_decide
                       (changedFilesCommitWouldOverwrite s (js_show toHash) = []))
       then throw (Error ("local changes would be lost" +:+ LF
                          +:+ String.concat LF
                                (changedFilesCommitWouldOverwrite s (js_show toHash))
                          +:+ LF))
       else
         headHash ← reading (fun s => refs.hash s "HEAD");
         writeWorkingCopy headHash (js_show toHash);;
         refs.write "HEAD"
           (if objects.exists_ s (Some ref) then js_show toHash
            else "ref: " +:+ refs.toLocalRef ref);;
         toc ← gets (fun s => commitToc s (js_show toHash));
         porcelain.index_write (porcelain.tocToIndex toc);;
         mret (if objects.exists_ s (Some ref)
               then "Note: checking out " +:+ js_show toHash +:+ LF
                    +:+ "You are in detached HEAD state."
               else "Switched to branch " +:+ ref) : Cmd string) s.
Proof.
  intros Hin Hbare Hto. unfold porcelain.checkout.
  rewrite bind_assertInRepo, bind_assertNotBare by done.
  rewrite bind_reading, Hto. rewrite bind_gets.
  destruct (negb (objects.exists_ s toHash)); [done |].
  rewrite bind_gets.
  destruct (negb (bool_decide (objects.type (objects.read s toHash) = Some "commit")));
    [done |].
  rewrite !bind_reading. destruct (refs.headBranchName s) as [cur|e]; [| done].
  rewrite bind_gets.
  destruct (bool_decide (Some ref = cur) || bool_decide (Some ref = vfiles s !! "HEAD"));
    [done |].
  rewrite bind_gets.
  destruct (negb (bool_decide (changedFilesCommitWouldOverwrite s (js_show toHash) = [])));
    [done |].
  by rewrite bind_gets.
Qed.

End checkout_refusals.

(** X18.  A [checkout] that is refused, or that has nothing to do, has written
    nothing.  A name that resolves to no stored object gives "<ref> did
    not match any file(s) known to Version"; one that resolves to a blob
    or a tree gives "reference is not a tree: <ref>"; the branch HEAD is
    on, and the hash a detached HEAD holds, give the answer "Already on
    <ref>"; and a commit that would overwrite files changed in the
    working copy gives "local changes would be lost" with the list of
    those files. *)
Theorem checkout_refuses_without_a_write `{Env} `{Helpers} (s : repo) (ref : string)
    (toHash : option string) :
  inRepo s = true -> bare s = false -> refs.hash s ref = Ret toHash ->
  (objects.exists_ s toHash = false ->
   porcelain.checkout ref s
   = (Throw (Error (ref +:+ " did not match any file(s) known to Version")), s, []))
  /\ (objects.exists_ s toHash = true ->
      objects.type (objects.read s toHash) <> Some "commit" ->
      porcelain.checkout ref s = (Throw (Error ("reference is not a tree: " +:+ ref)), s, []))
  /\ (forall cur to,
        toHash = Some to -> objects.type (objects.read s toHash) = Some "commit" ->
        refs.headBranchName s = Ret cur ->
        (cur = Some ref \/ vfiles s !! "HEAD" = Some ref ->
         porcelain.checkout ref s = (Ret ("Already on " +:+ ref), s, []))
        /\ (cur <> Some ref -> vfiles s !! "HEAD" <> Some ref ->
            changedFilesCommitWouldOverwrite s to <> [] ->
            porcelain.checkout ref s
            = (Throw (Error ("local changes would be lost" +:+ LF
                             +:+ String.concat LF (changedFilesCommitWouldOverwrite s to)
                             +:+ LF)), s, []))).
Proof.
  intros Hin Hbare Hto. rewrite (checkout_checks s ref toHash) by done.
  split; [by intros -> |]. split.
  - intros -> Hk. by rewrite bool_decide_eq_false_2 by done.
  - intros cur to -> Hk Hcur.
    assert (Hex : objects.exists_ s (Some to) = true).
    { unfold objects.exists_. apply bool_decide_eq_true_2.
      destruct (objects.read s (Some to)); [eauto | done]. }
    rewrite Hex. cbn [negb]. rewrite bool_decide_eq_true_2 by done. cbn [negb].
    rewrite bind_reading, Hcur. split.
    + intros [-> | Hh].
      * by rewrite bool_decide_eq_true_2 by done.
      * rewrite (bool_decide_eq_true_2 (Some ref = vfiles s !! "HEAD")) by done.
        by rewrite orb_true_r.
    + intros Hn1 Hn2 Hpaths.
      rewrite (bool_decide_eq_false_2 (Some ref = cur)) by congruence.
      rewrite (bool_decide_eq_false_2 (Some ref = vfiles s !! "HEAD")) by congruence.
      cbn [orb]. change (js_show (Some to)) with to.
      by rewrite bool_decide_eq_false_2 by done.
Qed.

(** ** [pull] of the branch HEAD is on *)
Section pull_current.
Context `{Env}.

Lemma run_local_triple {A} (c : Cmd A) w :
  outcome (run Local c w) = outcome (c (here w))
  /\ here (final (run Local c w)) = final (c (here w)).
Proof.
  unfold run. cbn [sideOf]. by destruct (c (here w)) as [[r s'] l].
Qed.

Lemma run_bind_assertNotBare {B} d (k : unit -> Sync B) w :
  bare (sideOf d w) = false -> (run d config.assertNotBare ≫= k) w = k tt w.
Proof.
  intros Hb. rewrite bind_unfold. unfold run, config.assertNotBare. rewrite Hb.
  rewrite onSide_sideOf. by destruct (k tt w) as [[? ?] ?].
Qed.

Lemma pull_after_fetch remote b out w w1 l :
  sync.fetch (Some remote) (Some b) w = (Ret out, w1, l) ->
  bare (here w) = false ->
  outcome (porcelain.pull (Some remote) (Some b) w)
  = outcome (version.merge "FETCH_HEAD" (here w1))
  /\ here (final (porcelain.pull (Some remote) (Some b) w))
     = final (version.merge "FETCH_HEAD" (here w1)).
Proof.
  intros Hf Hbare.
  assert (Hin : inRepo (here w) = true).
  { unfold sync.fetch, sync.local in Hf.
    apply bind_returns in Hf as (u & w0 & l0 & l0' & H0 & _ & _).
    by apply run_assertInRepo_returns in H0 as [? _]. }
  unfold porcelain.pull, sync.local.
  rewrite run_bind_assertInRepo by done.
  rewrite run_bind_assertNotBare by done.
  rewrite bind_unfold, Hf.
  destruct (run_local_triple (version.merge "FETCH_HEAD") w1) as [Ho Hs].
  destruct (run Local (version.merge "FETCH_HEAD") w1) as [[r w2] l2].
  by rewrite outcome_triple, final_triple in *.
Qed.

End pull_current.

(** X30.  [pull] of the branch HEAD is on merges the commit that was fetched:
    when the fetch of the branch <b> goes through in a repository whose
    HEAD is on <b>, FETCH_HEAD resolves to the hash the branch has at the
    peer, and [pull] ends as [merge] of FETCH_HEAD does in the repository
    the fetch left.  (For a url and a hash without a space or a line
    terminator and a branch that is not called "branch".) *)
Theorem pull_merges_the_fetched_commit `{Env} (remote b tail url new out : string)
    (w w1 : world) (l : list (side * event * world)) :
  sync.fetch (Some remote) (Some b) w = (Ret out, w1, l) ->
  bare (here w) = false ->
  vfiles (here w) !! "HEAD" = Some ("ref: refs/heads/" +:+ b +:+ tail) ->
  tail = "" \/ tail = LF -> b <> "branch" ->
  remotes (here w) !! remote = Some url -> plain url = true ->
  refs.hash (there w) b = Ret (Some new) -> new <> "" -> plain new = true ->
  store (here w1) !! "FETCH_HEAD" = None ->
  refs.hash (here w1) "FETCH_HEAD" = Ret (Some new)
  /\ outcome (porcelain.pull (Some remote) (Some b) w)
     = outcome (version.merge "FETCH_HEAD" (here w1))
  /\ here (final (porcelain.pull (Some remote) (Some b) w))
     = final (version.merge "FETCH_HEAD" (here w1)).
Proof.
  intros Hf Hbare Hhead Htail Hb Hurl Hpurl Hnew Hnew0 Hpnew Hobj.
  split; [| by apply (pull_after_fetch remote b out w w1 l)].
  pose proof Hf as Hret.
  apply fetch_returns in Hret as (url' & new' & hash & Hu' & Hn' & _ & _ & Hr & Hw1).
  rewrite Hurl in Hu'. injection Hu' as <-. rewrite Hnew in Hn'. injection Hn' as <-.
  apply isRef_toRemoteRef_names in Hr as [_ Hvb].
  destruct (validName_dot b Hvb) as [Hne Hdot].
  destruct (fetch_keeps remote b w) as (_ & Hsame & _).
  destruct Hsame as (_ & _ & _ & _ & _ & Hfiles).
  rewrite Hf in Hfiles. rewrite final_triple in Hfiles.
  assert (Hhead1 : vfiles (here w1) !! "HEAD" = Some ("ref: refs/heads/" +:+ b +:+ tail)).
  { rewrite Hfiles; [done |]. intros [Hx | Hx]; discriminate Hx. }
  assert (Hfetch1 : vfiles (here w1) !! "FETCH_HEAD"
                    = Some (new +:+ " branch " +:+ b +:+ " of " +:+ url)).
  { rewrite Hw1. cbn [here]. rewrite vfiles_set_vfiles. apply lookup_insert_eq. }
  destruct (attached_HEAD (here w1) b tail) as (_ & Hn & _); try done.
  unfold refs.hash, objects.exists_. rewrite read_Some, Hobj.
  rewrite bool_decide_eq_false_2 by (by intros [? ?]).
  rewrite terminalRef_qualified by done. simpl. rewrite Hn. simpl.
  rewrite (fetchHeadBranchToMerge_one_record _ new b b url)
    by (done || by apply validName_plain).
  by rewrite decide_True.
Qed.

(** ** The list of the branches *)
Section listing.
Context `{Env} `{Helpers}.

Lemma digit_nameChar c : refs.nameChar c = true -> jsobject.digit c = None.
Proof. destruct c as [[] [] [] [] [] [] [] []]; by vm_compute. Qed.

Lemma arrayIndex_name n : validName n = true -> jsobject.arrayIndex n = None.
Proof.
  intros [Hne Hall]%validName_spec. destruct n as [|c n]; [done |].
  simpl in Hall. apply andb_true_iff in Hall as [Hc _].
  unfold jsobject.arrayIndex. cbn [jsobject.digits].
  by rewrite digit_nameChar.
Qed.

Lemma set_new {A} (o : list (string * A)) n v :
  n ∉ o.*1 -> n <> "__proto__" -> jsobject.set o n v = o ++ [(n, v)].
Proof.
  induction o as [|[k x] o IH]; intros Hn Hp; simpl.
  - by rewrite bool_decide_eq_false_2.
  - rewrite fmap_cons in Hn. apply not_elem_of_cons in Hn as [Hk Hn].
    rewrite bool_decide_eq_false_2 by (simpl in Hk; congruence).
    by rewrite IH.
Qed.

Lemma keys_names {A} (o : list (string * A)) :
  (forall k, k ∈ o.*1 -> jsobject.arrayIndex k = None) -> jsobject.keys o = o.*1.
Proof.
  intros Hall. unfold jsobject.keys.
  assert (Hi : omap (fun '(k, _) => n ← jsobject.arrayIndex k; Some (n, k)) o = []).
  { induction o as [|[k x] o IH]; [done |]. simpl.
    rewrite (Hall k) by (rewrite fmap_cons; by left). simpl.
    apply IH. intros k' Hk'. apply Hall. rewrite fmap_cons. by right. }
  rewrite Hi. simpl.
  induction (o.*1) as [|k l IH]; [done |].
  rewrite filter_cons_True by (apply Hall; by left).
  f_equal. apply IH. intros k' Hk'. apply Hall. by right.
Qed.

Lemma hash_of_name_returns s n :
  validName n = true -> n <> "HEAD" -> exists h, refs.hash s n = Ret h.
Proof.
  intros Hv Hne. unfold refs.hash.
  destruct (objects.exists_ s (Some n)); [eauto |].
  assert (Hnr : refs.isRef n = false).
  { destruct (refs.isRef n) eqn:Hx; [| done]. by apply validName_isRef in Hx. }
  unfold refs.terminalRef. rewrite bool_decide_eq_false_2 by done. simpl.
  rewrite Hnr. simpl. destruct (refs.exists_ s _); eauto.
Qed.

Lemma localHeads_names s names acc :
  (forall n, n ∈ names -> validName n = true /\ n <> "HEAD") ->
  NoDup (acc.*1 ++ names) ->
  exists heads,
    foldl (fun acc n => o ← acc; h ← refs.hash s n; Ret (jsobject.set o n h))
      (Ret acc) names = Ret heads
    /\ heads.*1 = acc.*1 ++ names.
Proof.
  revert acc. induction names as [|n names IH]; intros acc Hnames Hnd.
  - exists acc. by rewrite app_nil_r.
  - destruct (Hnames n ltac:(by left)) as [Hv Hne].
    destruct (hash_of_name_returns s n Hv Hne) as [h Hh].
    assert (Hfresh : n ∉ acc.*1).
    { apply NoDup_app in Hnd as (_ & Hdis & _). intros Hin.
      apply (Hdis n Hin). by left. }
    assert (Hp : n <> "__proto__") by (intros ->; by vm_compute in Hv).
    destruct (IH (acc ++ [(n, h)])) as (heads & Hfold & Hkeys).
    + intros n' Hn'. apply Hnames. by right.
    + rewrite fmap_app. simpl. by rewrite <- app_assoc.
    + exists heads. simpl. rewrite Hh. simpl. rewrite set_new by done.
      split; [done |]. rewrite Hkeys, fmap_app. simpl. by rewrite <- app_assoc.
Qed.

Lemma marks s cur names :
  refs.headBranchName s = Ret cur ->
  mapM (fun b =>
          current ← refs.headBranchName s;
          Ret ((if bool_decide (Some b = current) then "* " else "  ") +:+ b)) names
  = Ret ((fun b => (if bool_decide (Some b = cur) then "* " else "  ") +:+ b) <$> names).
Proof.
  intros Hcur.
  set (f := fun b => current ← refs.headBranchName s;
                     Ret ((if bool_decide (Some b = current) then "* " else "  ") +:+ b)).
  induction names as [|n names IH]; [done |].
  change (mapM f (n :: names))
    with (f n ≫= fun y => mapM f names ≫= fun k => mret (y :: k)).
  rewrite IH. unfold f. by rewrite Hcur.
Qed.

End listing.

(** X7.  [branch] without a name lists the branches and writes nothing: for
    the entries of refs/heads, each once and of [[A-Za-z-]+], it returns
    their names in the order of the directory, one on a line, the branch
    HEAD is on marked with "* " and the others with two spaces.  On a
    detached HEAD no line is marked.  (No entry is called HEAD.) *)
Theorem branch_lists_the_branches `{Env} `{Helpers} (s : repo) (names : list string)
    (cur : option string) :
  inRepo s = true ->
  readdirSync s "refs/heads" = Ret names -> NoDup names ->
  (forall n, n ∈ names -> validName n = true /\ n <> "HEAD") ->
  refs.headBranchName s = Ret cur ->
  porcelain.branch None s
  = (Ret (Some (String.concat LF
                  ((fun b => (if bool_decide (Some b = cur) then "* " else "  ") +:+ b)
                     <$> names) +:+ LF)), s, [])
  /\ (cur = None ->
      outcome (porcelain.branch None s)
      = Ret (Some (String.concat LF ((fun b => "  " +:+ b) <$> names) +:+ LF))).
Proof.
  intros Hin Hdir Hnd Hnames Hcur.
  assert (Hrun : porcelain.branch None s
                 = (Ret (Some (String.concat LF
                     ((fun b => (if bool_decide (Some b = cur) then "* " else "  ") +:+ b)
                        <$> names) +:+ LF)), s, [])).
  { destruct (localHeads_names s names [] Hnames Hnd) as (heads & Hfold & Hkeys).
    change ([].*1 ++ names) with names in Hkeys.
    unfold porcelain.branch. rewrite bind_assertInRepo by done.
    rewrite bind_reading. unfold branches.localHeads. rewrite Hdir. simpl.
    rewrite Hfold. rewrite bind_reading.
    rewrite keys_names.
    - rewrite Hkeys. by rewrite (marks s cur names Hcur).
    - intros k Hk. rewrite Hkeys in Hk. apply arrayIndex_name. by apply Hnames. }
  split; [done |]. intros ->. by rewrite Hrun.
Qed.
(** ** The properties on the examples *)
Section more_examples.
#[local] Existing Instance example.env.
#[local] Existing Instance scenario.helpers.
Import example scenario.

Lemma HEAD_reads_back_its_branch_witness :
  refs.isHeadDetached (fresh false) = Ret false
  /\ refs.headBranchName (fresh false) = Ret (Some "master")
  /\ refs.terminalRef (fresh false) "HEAD" = Ret "refs/heads/master"
  /\ refs.hash (fresh false) "HEAD" = Ret None.
Proof.
  pose proof (@HEAD_reads_back_its_branch env (fresh false) "master" LF
                ltac:(vm_compute; reflexivity) ltac:(discriminate)
                ltac:(vm_compute; reflexivity) ltac:(right; reflexivity))
    as (Hd & Hn & Ht & Hh).
  split; [exact Hd |]. split; [exact Hn |]. split; [exact Ht |].
  apply Hh. vm_compute. reflexivity.
Defined.

Lemma ref_written_is_read_back_witness :
  refs.hash (final (refs.write "refs/heads/topic" "2454472336" committed))
    "refs/heads/topic" = Ret (Some "2454472336")
  /\ refs.hash
       (final (refs.rm "refs/heads/topic"
                 (final (refs.write "refs/heads/topic" "2454472336" committed))))
       "refs/heads/topic" = Ret None
  /\ outcome
       (refs.rm "refs/heads/topic"
          (final (refs.rm "refs/heads/topic"
                    (final (refs.write "refs/heads/topic" "2454472336" committed)))))
     = Throw (ENOENT "refs/heads/topic").
Proof.
  pose proof (@ref_written_is_read_back env committed "refs/heads/topic" "2454472336"
                ltac:(vm_compute; reflexivity) ltac:(discriminate) ltac:(discriminate)
                ltac:(vm_compute; reflexivity))
    as (_ & Hh & _ & _ & Hgone & Htwice).
  split; [exact Hh |]. split; [exact Hgone | exact Htwice].
Defined.

Lemma init_starts_on_an_empty_master_witness :
  bare (porcelain.init (Some {| porcelain.bare_opt := true |}) empty_directory) = true
  /\ refs.headBranchName
       (porcelain.init (Some {| porcelain.bare_opt := true |}) empty_directory)
     = Ret (Some "master")
  /\ refs.hash (porcelain.init (Some {| porcelain.bare_opt := true |}) empty_directory)
       "HEAD" = Ret None
  /\ outcome
       (porcelain.branch (Some "topic")
          (porcelain.init (Some {| porcelain.bare_opt := true |}) empty_directory))
     = Throw (Error "master not a valid object name").
Proof.
  pose proof (init_starts_on_an_empty_master
                (Some {| porcelain.bare_opt := true |}) None empty_directory "topic"
                ltac:(reflexivity) ltac:(vm_compute; reflexivity)
                ltac:(vm_compute; reflexivity) ltac:(vm_compute; reflexivity))
    as (_ & Hbare & _ & Hn & Hh & _ & Hbranch & _).
  split; [exact Hbare |]. split; [exact Hn |]. split; [exact Hh |].
  by rewrite Hbranch.
Defined.

Lemma branch_creates_a_ref_at_HEAD_witness :
  outcome (porcelain.branch (Some "feat") committed) = Ret None
  /\ final (porcelain.branch (Some "feat") committed)
     = set_vfiles (insert "refs/heads/feat" "2454472336") committed
  /\ refs.hash (set_vfiles (insert "refs/heads/feat" "2454472336") committed) "feat"
     = Ret (Some "2454472336").
Proof.
  pose proof (@branch_creates_a_ref_at_HEAD env helpers committed "feat" "2454472336"
                "3832997721" [] "c1"
                ltac:(reflexivity) ltac:(vm_compute; reflexivity)
                ltac:(vm_compute; reflexivity) ltac:(vm_compute; reflexivity)
                ltac:(vm_compute; reflexivity))
    as (Hrun & Hhash & _).
  split; [by rewrite Hrun |]. split; [by rewrite Hrun |].
  apply Hhash; [vm_compute; reflexivity | discriminate].
Defined.

Lemma branch_refuses_taken_and_malformed_names_witness :
  porcelain.branch (Some "master") committed
  = (Throw (Error "A branch named master already exists"), committed, [])
  /\ porcelain.branch (Some "v2") committed
     = (Throw (Error "cannot lock the ref refs/heads/v2"), committed, []).
Proof.
  split.
  - pose proof (@branch_refuses_taken_and_malformed_names env helpers committed "master"
                  ltac:(right; vm_compute; discriminate)) as [_ Hmsg].
    apply (Hmsg "2454472336" "3832997721" [] "c1");
      [reflexivity | vm_compute; reflexivity | vm_compute; reflexivity].
  - pose proof (@branch_refuses_taken_and_malformed_names env helpers committed "v2"
                  ltac:(left; vm_compute; reflexivity)) as [_ Hmsg].
    apply (Hmsg "2454472336" "3832997721" [] "c1");
      [reflexivity | vm_compute; reflexivity | vm_compute; reflexivity].
Defined.


Lemma commit_moves_the_branch_witness :
  outcome (version.commit (Some {| version.m := Some "c1" |}) added)
  = Ret "[master 2454472336] c1"
  /\ store (final (version.commit (Some {| version.m := Some "c1" |}) added))
       !! "2454472336" = Some (Commit "3832997721" [] "c1")
  /\ refs.hash (final (version.commit (Some {| version.m := Some "c1" |}) added)) "HEAD"
     = Ret (Some "2454472336").
Proof.
  pose proof (@commit_moves_the_branch env added "master" LF "c1"
                ltac:(reflexivity) ltac:(reflexivity) ltac:(vm_compute; reflexivity)
                ltac:(vm_compute; reflexivity) ltac:(right; reflexivity)
                ltac:(vm_compute; reflexivity) ltac:(vm_compute; reflexivity)
                ltac:(vm_compute; discriminate))
    as (Hout & _ & Hobj & _ & Hhash).
  split; [exact Hout |]. split; [exact Hobj |].
  apply Hhash. vm_compute. discriminate.
Defined.

Lemma commit_again_has_nothing_to_commit_witness :
  outcome (version.commit (Some {| version.m := Some "again" |})
             (final (version.commit (Some {| version.m := Some "c1" |}) added)))
  = Throw (Error ("# On master" +:+ LF +:+ "nothing to commit, working directory clean")).
Proof.
  apply (@commit_again_has_nothing_to_commit env added "master" LF "c1"
           (Some {| version.m := Some "again" |}));
    try (vm_compute; reflexivity); try (vm_compute; discriminate).
  - right. reflexivity.
  - intros Hin. vm_compute in Hin.
    apply elem_of_cons in Hin as [Heq | Hin]; [discriminate Heq |].
    inversion Hin.
Defined.

Lemma add_stages_every_listed_file_witness :
  lsRecursive two_files "src" = ["src/a.txt"; "src/b.txt"]
  /\ outcome (porcelain.add "src" two_files) = Ret tt
  /\ idx (final (porcelain.add "src" two_files)) !! ("src/b.txt", 0)
     = Some (hashOf (Blob ("2" +:+ LF))).
Proof.
  assert (Hls : lsRecursive two_files "src" = ["src/a.txt"; "src/b.txt"])
    by (vm_compute; reflexivity).
  split; [exact Hls |].
  assert (Hfiles : forall p, p ∈ lsRecursive two_files "src" ->
                     exists c, disk two_files !! p = Some (File c)).
  { intros p Hp. rewrite Hls in Hp.
    apply elem_of_cons in Hp as [-> | Hp];
      [exists ("1" +:+ LF); vm_compute; reflexivity |].
    apply elem_of_cons in Hp as [-> | Hp];
      [exists ("2" +:+ LF); vm_compute; reflexivity |].
    inversion Hp. }
  pose proof (@add_stages_every_listed_file env helpers two_files "src"
                ltac:(reflexivity) ltac:(reflexivity)
                ltac:(rewrite Hls; discriminate) Hfiles)
    as (Hout & Hstaged & _).
  split; [exact Hout |].
  apply (Hstaged "src/b.txt" ("2" +:+ LF)); [| vm_compute; reflexivity].
  rewrite Hls. right. left.
Defined.

Lemma fetch_brings_the_branch_and_the_objects_witness :
  vfiles (here (final (sync.fetch (Some "origin") (Some "master") cloning)))
    !! "refs/remotes/origin/master" = Some "2454472336"
  /\ store two_branches
     ⊆ store (here (final (sync.fetch (Some "origin") (Some "master") cloning))).
Proof.
  pose proof (@fetch_brings_the_branch_and_the_objects env "origin" "master" "../src"
                "2454472336" cloning "3832997721" [] "c1"
                ltac:(reflexivity) ltac:(vm_compute; reflexivity)
                ltac:(vm_compute; reflexivity) ltac:(vm_compute; reflexivity)
                ltac:(vm_compute; reflexivity) ltac:(vm_compute; reflexivity)
                ltac:(apply content_addressedb_spec; vm_compute; reflexivity))
    as (_ & Href & Hobjs).
  split; [exact Href | exact Hobjs].
Defined.

Lemma push_moves_the_branch_of_the_peer_witness :
  merge.canFastForward (here diverged) (Some "2454472336") (Some "2313858332") = false
  /\ outcome (sync.push (Some "origin") (Some "master") {| version.f := true |} diverged)
     = Ret ("To ../dst" +:+ LF +:+ "Count 3" +:+ LF +:+ "master -> master" +:+ LF)
  /\ vfiles (there (final (sync.push (Some "origin") (Some "master")
                             {| version.f := true |} diverged)))
       !! "refs/heads/master" = Some "2313858332".
Proof.
  split; [vm_compute; reflexivity |].
  pose proof (@push_moves_the_branch_of_the_peer env "origin" "master" "../dst" "2313858332"
                (Some "2454472336") {| version.f := true |} diverged
                "2392723334" [] "c2"
                ltac:(reflexivity) ltac:(reflexivity) ltac:(vm_compute; reflexivity)
                ltac:(vm_compute; reflexivity) ltac:(vm_compute; reflexivity)
                ltac:(vm_compute; reflexivity) ltac:(vm_compute; reflexivity)
                ltac:(vm_compute; reflexivity) ltac:(vm_compute; reflexivity)
                ltac:(apply content_addressedb_spec; vm_compute; reflexivity)
                ltac:(vm_compute; reflexivity) ltac:(left; reflexivity))
    as (Hout & Hpeer & _).
  split; [| exact Hpeer]. rewrite Hout. vm_compute. reflexivity.
Defined.

Lemma push_that_stops_early_writes_nothing_witness :
  sync.push (Some "origin") (Some "master") {| version.f := false |}
    pushing_to_a_working_copy
  = (Throw (Error "refusing to update checked out branch master"),
     pushing_to_a_working_copy, [])
  /\ sync.push (Some "origin") (Some "master") {| version.f := false |} diverged
     = (Throw (Error "failed to push some refs to ../dst"), diverged, []).
Proof.
  split.
  - pose proof (@push_that_stops_early_writes_nothing env "origin" "master" "../dst"
                  {| version.f := false |} pushing_to_a_working_copy
                  ltac:(reflexivity) ltac:(vm_compute; reflexivity)) as [Hco _].
    apply Hco. vm_compute. reflexivity.
  - pose proof (@push_that_stops_early_writes_nothing env "origin" "master" "../dst"
                  {| version.f := false |} diverged
                  ltac:(reflexivity) ltac:(vm_compute; reflexivity)) as [_ Hff].
    apply (Hff (Some "2454472336") (Some "2313858332"));
      vm_compute; reflexivity.
Defined.

Lemma checkout_switches_to_the_branch_witness :
  outcome (porcelain.checkout "feat" two_branches) = Ret "Switched to branch feat"
  /\ refs.headBranchName (final (porcelain.checkout "feat" two_branches))
     = Ret (Some "feat")
  /\ refs.hash (final (porcelain.checkout "feat" two_branches)) "HEAD"
     = Ret (Some "2454472336").
Proof.
  pose proof (@checkout_switches_to_the_branch env helpers two_branches "feat" "2454472336"
                "3832997721" [] "c1" (Some "2454472336") (Some "master")
                (fun _ => filesOf two_branches "2454472336") []
                ltac:(reflexivity) ltac:(reflexivity) ltac:(vm_compute; reflexivity)
                ltac:(discriminate) ltac:(vm_compute; reflexivity)
                ltac:(vm_compute; reflexivity) ltac:(vm_compute; reflexivity)
                ltac:(vm_compute; reflexivity) ltac:(vm_compute; reflexivity)
                ltac:(discriminate) ltac:(vm_compute; discriminate)
                ltac:(reflexivity) ltac:(vm_compute; reflexivity)
                ltac:(reflexivity))
    as (Hout & _ & Hn & Hh & _).
  split; [exact Hout |]. split; [exact Hn | exact Hh].
Defined.

Lemma checkout_of_a_hash_detaches_HEAD_witness :
  refs.isHeadDetached (final (porcelain.checkout "2454472336" two_branches)) = Ret true
  /\ refs.hash (final (porcelain.checkout "2454472336" two_branches)) "HEAD"
     = Ret (Some "2454472336")
  /\ outcome (porcelain.checkout "2454472336"
                (final (porcelain.checkout "2454472336" two_branches)))
     = Ret "Already on 2454472336".
Proof.
  pose proof (@checkout_of_a_hash_detaches_HEAD env helpers two_branches "2454472336"
                "3832997721" [] "c1" (Some "2454472336") (Some "master")
                (fun _ => filesOf two_branches "2454472336") []
                ltac:(reflexivity) ltac:(reflexivity) ltac:(vm_compute; reflexivity)
                ltac:(vm_compute; reflexivity) ltac:(vm_compute; reflexivity)
                ltac:(vm_compute; reflexivity) ltac:(discriminate)
                ltac:(vm_compute; discriminate) ltac:(reflexivity)
                ltac:(vm_compute; reflexivity) ltac:(reflexivity))
    as (_ & _ & Hd & _ & Hh & Hagain).
  split; [exact Hd |]. split; [exact Hh |]. by rewrite Hagain.
Defined.

Lemma checkout_of_a_qualified_ref_strands_HEAD_witness :
  refs.hash two_branches "HEAD" = Ret (Some "2454472336")
  /\ outcome (porcelain.checkout "refs/heads/feat" two_branches)
     = Ret "Switched to branch refs/heads/feat"
  /\ vfiles (final (porcelain.checkout "refs/heads/feat" two_branches)) !! "HEAD"
     = Some "ref: refs/heads/refs/heads/feat"
  /\ refs.hash (final (porcelain.checkout "refs/heads/feat" two_branches)) "HEAD"
     = Ret None.
Proof.
  split; [vm_compute; reflexivity |].
  pose proof (@checkout_of_a_qualified_ref_strands_HEAD env helpers two_branches "refs/heads/feat"
                "2454472336" "3832997721" [] "c1" (Some "2454472336") (Some "master")
                (fun _ => filesOf two_branches "2454472336") []
                ltac:(reflexivity) ltac:(reflexivity) ltac:(vm_compute; reflexivity)
                ltac:(discriminate) ltac:(vm_compute; reflexivity)
                ltac:(vm_compute; reflexivity) ltac:(vm_compute; reflexivity)
                ltac:(vm_compute; reflexivity) ltac:(vm_compute; reflexivity)
                ltac:(vm_compute; reflexivity) ltac:(discriminate)
                ltac:(vm_compute; discriminate) ltac:(reflexivity)
                ltac:(vm_compute; reflexivity) ltac:(reflexivity))
    as (Hout & Hhead & _ & Hh).
  split; [exact Hout |]. split; [exact Hhead | exact Hh].
Defined.

Lemma working_copy_commands_are_guarded_witness :
  version.commit (Some {| version.m := Some "c1" |}) (fresh true)
  = (Throw (Error "BareDisallowed"), fresh true, [])
  /\ porcelain.pull (Some "origin") (Some "master") (mkWorld (fresh true) (fresh true))
     = (Throw (Error "BareDisallowed"), mkWorld (fresh true) (fresh true), []).
Proof.
  pose proof (@working_copy_commands_are_guarded env helpers
                (mkWorld (fresh true) (fresh true)) "a.txt" "master"
                (Some {| version.m := Some "c1" |})
                {| version.add := true; version.remove := false |}
                (Some "origin") (Some "master")
                ltac:(right; reflexivity))
    as (_ & Hcommit & _ & _ & _ & Hpull).
  split; [exact Hcommit | exact Hpull].
Defined.

Lemma merge_refuses_without_a_write_witness :
  version.merge "nothing" committed
  = (Throw (Error "nothing: expected commit type"), committed, []).
Proof.
  pose proof (@merge_refuses_without_a_write env committed "nothing"
                (Some "2454472336") None false
                ltac:(reflexivity) ltac:(reflexivity)
                ltac:(vm_compute; reflexivity) ltac:(vm_compute; reflexivity)
                ltac:(vm_compute; reflexivity))
    as (_ & Hkind & _).
  apply Hkind; [reflexivity | vm_compute; discriminate].
Defined.

Lemma fetch_and_push_need_plain_names_witness :
  (exists out w' l,
     sync.fetch (Some "origin") (Some "master") cloning = (Ret out, w', l))
  /\ validName "origin" = true /\ validName "master" = true.
Proof.
  assert (Hf : exists out w' l,
             sync.fetch (Some "origin") (Some "master") cloning = (Ret out, w', l)).
  { exists ("From ../src" +:+ LF +:+ "Count 3" +:+ LF +:+ "master -> origin/master" +:+ LF),
      (final (sync.fetch (Some "origin") (Some "master") cloning)),
      (writes (sync.fetch (Some "origin") (Some "master") cloning)).
    vm_compute. reflexivity. }
  split; [exact Hf |].
  apply (@fetch_and_push_need_plain_names env "origin" "master"
           {| version.f := false |} cloning).
  left. exact Hf.
Defined.

Lemma fetch_under_an_odd_name_keeps_the_objects_witness :
  outcome (sync.fetch (Some "origin2") (Some "master") cloning_from_origin2)
  = Throw (Error "cannot lock the ref refs/remotes/origin2/master")
  /\ store two_branches
     ⊆ store (here (final (sync.fetch (Some "origin2") (Some "master")
                             cloning_from_origin2))).
Proof.
  pose proof (@fetch_under_an_odd_name_keeps_the_objects env "origin2" "master" "../src"
                "2454472336" cloning_from_origin2 (Commit "3832997721" [] "c1")
                ltac:(reflexivity) ltac:(vm_compute; reflexivity)
                ltac:(vm_compute; reflexivity) ltac:(vm_compute; reflexivity)
                ltac:(vm_compute; reflexivity)
                ltac:(apply content_addressedb_spec; vm_compute; reflexivity))
    as (Hout & Hsub & _).
  split; [exact Hout | exact Hsub].
Defined.

Lemma commit_on_a_detached_HEAD_moves_no_branch_witness :
  outcome (version.commit (Some {| version.m := Some "c3" |}) detached_with_a_change)
  = Ret "[detached HEAD 1604681948] c3"
  /\ vfiles (final (version.commit (Some {| version.m := Some "c3" |})
                      detached_with_a_change)) !! "HEAD" = Some "1604681948"
  /\ vfiles (final (version.commit (Some {| version.m := Some "c3" |})
                      detached_with_a_change)) !! "refs/heads/master"
     = Some "2454472336".
Proof.
  pose proof (@commit_on_a_detached_HEAD_moves_no_branch env detached_with_a_change
                "2454472336" "c3"
                ltac:(reflexivity) ltac:(reflexivity) ltac:(vm_compute; reflexivity)
                ltac:(vm_compute; reflexivity) ltac:(vm_compute; reflexivity)
                ltac:(vm_compute; reflexivity) ltac:(vm_compute; discriminate))
    as (Hout & _ & Hhead & Hrest).
  split; [exact Hout |]. split; [exact Hhead |].
  rewrite (Hrest "refs/heads/master") by discriminate. vm_compute. reflexivity.
Defined.

Lemma commit_concludes_a_merge_witness :
  outcome (version.commit None merging) = Ret "Merge made by the three-way strategy"
  /\ store (final (version.commit None merging)) !! "3612207413"
     = Some (Commit "1955308941" ["2313858332"; "2454472336"]
               "Merge FETCH_HEAD into master")
  /\ vfiles (final (version.commit None merging)) !! "refs/heads/master"
     = Some "3612207413"
  /\ merge.isMergeInProgress (final (version.commit None merging)) = false.
Proof.
  pose proof (@commit_concludes_a_merge env merging "master" LF "2313858332"
                "2454472336" "Merge FETCH_HEAD into master" None
                ltac:(reflexivity) ltac:(reflexivity) ltac:(vm_compute; reflexivity)
                ltac:(vm_compute; reflexivity) ltac:(right; reflexivity)
                ltac:(vm_compute; reflexivity) ltac:(vm_compute; reflexivity)
                ltac:(vm_compute; reflexivity) ltac:(vm_compute; reflexivity)
                ltac:(vm_compute; reflexivity) ltac:(vm_compute; reflexivity)
                ltac:(vm_compute; discriminate))
    as (Hout & Hobj & Hbranch & _ & _ & Hdone).
  split; [exact Hout |]. split; [exact Hobj |]. split; [exact Hbranch | exact Hdone].
Defined.

Lemma checkout_refuses_without_a_write_witness :
  porcelain.checkout "nothing" committed
  = (Throw (Error "nothing did not match any file(s) known to Version"), committed, []).
Proof.
  pose proof (@checkout_refuses_without_a_write env helpers committed "nothing" None
                ltac:(reflexivity) ltac:(reflexivity) ltac:(vm_compute; reflexivity))
    as (Hmissing & _).
  apply Hmissing. vm_compute. reflexivity.
Defined.

Lemma pull_merges_the_fetched_commit_witness :
  refs.hash (here (final (sync.fetch (Some "origin") (Some "master") cloning)))
    "FETCH_HEAD" = Ret (Some "2454472336")
  /\ outcome (porcelain.pull (Some "origin") (Some "master") cloning)
     = outcome (version.merge "FETCH_HEAD"
                  (here (final (sync.fetch (Some "origin") (Some "master") cloning)))).
Proof.
  assert (Hf : sync.fetch (Some "origin") (Some "master") cloning
               = (Ret ("From ../src" +:+ LF +:+ "Count 3" +:+ LF
                       +:+ "master -> origin/master" +:+ LF),
                  final (sync.fetch (Some "origin") (Some "master") cloning),
                  writes (sync.fetch (Some "origin") (Some "master") cloning)))
    by (vm_compute; reflexivity).
  pose proof (@pull_merges_the_fetched_commit env "origin" "master" LF "../src"
                "2454472336" _ cloning _ _ Hf
                ltac:(reflexivity) ltac:(vm_compute; reflexivity)
                ltac:(right; reflexivity) ltac:(discriminate)
                ltac:(vm_compute; reflexivity) ltac:(vm_compute; reflexivity)
                ltac:(vm_compute; reflexivity) ltac:(discriminate)
                ltac:(vm_compute; reflexivity) ltac:(vm_compute; reflexivity))
    as (Hhash & Hout & _).
  split; [exact Hhash | exact Hout].
Defined.

Lemma branch_lists_the_branches_witness :
  porcelain.branch None two_branches
  = (Ret (Some ("* master" +:+ LF +:+ "  feat" +:+ LF)), two_branches, []).
Proof.
  assert (Hnd : NoDup ["master"; "feat"]).
  { apply NoDup_cons. split.
    - intros Hin. apply elem_of_cons in Hin as [Heq | Hin]; [discriminate Heq |].
      inversion Hin.
    - apply NoDup_cons. split; [intros Hin; inversion Hin | apply NoDup_nil_2]. }
  assert (Hnames : forall n, n ∈ ["master"; "feat"] -> validName n = true /\ n <> "HEAD").
  { intros n Hin. apply elem_of_cons in Hin as [-> | Hin]; [by split |].
    apply elem_of_cons in Hin as [-> | Hin]; [by split | inversion Hin]. }
  pose proof (@branch_lists_the_branches env helpers two_branches ["master"; "feat"]
                (Some "master")
                ltac:(reflexivity) ltac:(vm_compute; reflexivity) Hnd Hnames
                ltac:(vm_compute; reflexivity))
    as (Hrun & _).
  exact Hrun.
Defined.

End more_examples.
